(** * r53-find: the enumeration-and-matching engine of [src/index.js]

    A shallow embedding of the Route53 record finder.  The engine lists every
    hosted zone of the account ([_listHostedZones]), lists every record set of
    every zone ([_getRecordSetsForZones], [_getRecordSetsForZone]) and then
    walks the aggregate looking for record values that match the configured
    target ([_findRecord], with its local helpers [_evaluateRecord] and
    [_createResultEntry]).

    Hosted zones are JavaScript objects that the program mutates in place
    ([hostedZone.Id = ...], [hostedZone.recordSets = ...]) and keeps in a
    [Set], which compares objects by identity.  They therefore live in a store
    and are handled through references; everything else is immutable data.

    Around the engine, [_parseArgs] makes the [options] from what yargs
    leaves in [argv], and [_printResult] encodes the rows and writes them to
    a file or to the log.  The client of the service, yargs, the regular
    expressions of the runtime, the encoders and the file system are not
    part of the repository: the program is modelled for whatever they
    answer. *)

From Stdlib Require Import String Ascii Bool Arith Lia List.
From Stdlib Require Import ZArith DecimalString.
Import ListNotations.
Local Open Scope string_scope.
Local Open Scope list_scope.

(** ** Data model *)

(** One literal value of a record set, [{ Value: "1.2.3.4" }]. *)
Module ResourceRecord.
Record t := mk { Value : string }.
End ResourceRecord.

(** The alias target of a record set; only [DNSName] is read. *)
Module AliasTarget.
Record t := mk { DNSName : string }.
End AliasTarget.

(** A record set as the service returns it.  [AliasTarget] and
    [ResourceRecords] are optional properties: [None] is [undefined]. An
    object and an array (even an empty one) are truthy, so the tests
    [if (recordSet.AliasTarget)] and [if (recordSet.ResourceRecords)] are
    tests for [Some]. *)
Module ResourceRecordSet.
Record t := mk {
  Name : string;
  Type' : string;
  AliasTarget : option AliasTarget.t;
  ResourceRecords : option (list ResourceRecord.t)
}.
End ResourceRecordSet.

(** A hosted zone object.  [recordSets] is the property the aggregator adds;
    it is [undefined] until then. *)
Module HostedZone.
Record t := mk {
  Id : string;
  Name : string;
  recordSets : option (list ResourceRecordSet.t)
}.
Definition with_Id (z : t) (id : string) : t :=
  mk id (Name z) (recordSets z).
Definition with_recordSets (z : t) (rs : list ResourceRecordSet.t) : t :=
  mk (Id z) (Name z) (Some rs).
End HostedZone.

(** References to hosted zone objects, and the store that holds them. *)
Definition ref := nat.
Definition Heap := ref -> HostedZone.t.

Definition update (h : Heap) (r : ref) (z : HostedZone.t) : Heap :=
  fun r' => if Nat.eqb r' r then z else h r'.

(** A JavaScript [Set] of objects: references in insertion order, each at
    most once.  [add] of an element that is already present (the same
    object) changes nothing; a new element goes last. *)
Module JSSet.
Definition t := list ref.
Definition empty : t := [].
Definition has (s : t) (r : ref) : bool := existsb (Nat.eqb r) s.
Definition add (s : t) (r : ref) : t := if has s r then s else s ++ [r].
Definition values (s : t) : list ref := s.
Definition size (s : t) : nat := length s.
End JSSet.

(** The two requests and the two responses of the Route53 client. *)
Module ListHostedZones.
Record Params := mkParams { Marker : option string }.
Record Response := mkResponse {
  HostedZones : list ref;
  IsTruncated : bool;
  NextMarker : option string
}.
End ListHostedZones.

Module ListResourceRecordSets.
Record Params := mkParams {
  HostedZoneId : string;
  StartRecordName : option string;
  StartRecordType : option string;
  StartRecordIdentifier : option string
}.
Record Response := mkResponse {
  ResourceRecordSets : list ResourceRecordSet.t;
  IsTruncated : bool;
  NextRecordName : option string;
  NextRecordType : option string;
  NextRecordIdentifier : option string
}.
End ListResourceRecordSets.

Inductive Command :=
| ListHostedZonesCommand (params : ListHostedZones.Params)
| ListResourceRecordSetsCommand (params : ListResourceRecordSets.Params).

(** The [startRecord] object of [_getRecordSetsForZone]. *)
Module StartRecord.
Record t := mk {
  name : option string;
  type : option string;
  identifier : option string
}.
End StartRecord.

(** [startRecord?.name] and its siblings: [undefined] when there is no
    start record. *)
Definition opt_chain {A B} (o : option A) (f : A -> option B) : option B :=
  match o with
  | Some a => f a
  | None => None
  end.

(** The client.  [client.send] either rejects with an error or resolves with
    a response; what it answers may depend on everything that was sent
    before.  The zone objects a response hands out are references into the
    store: one object served twice is one reference, two deserialisations of
    the same zone are two. *)
Record Client := mkClient {
  listHostedZones :
    list Command -> ListHostedZones.Params ->
    string + ListHostedZones.Response;
  listResourceRecordSets :
    list Command -> ListResourceRecordSets.Params ->
    string + ListResourceRecordSets.Response
}.

(** The two ways of matching: [options.match] is [regex] or anything else. *)
Inductive MatchMode := equality | regex.

(** A row of the result, built by [_createResultEntry]. *)
Record ResultRow := mkResultRow {
  hostedZoneId : string;
  hostedZoneName : string;
  recordType : string;
  recordName : string;
  recordValue : string
}.

(** Lines written through [log.info]. *)
Inductive LogEntry :=
| Info (message : string)
| InfoResolved (size : nat)
| InfoNoRecords (recordSet : ResourceRecordSet.t).

(** What can be thrown: the rejection of [client.send], the [SyntaxError] of
    [new RegExp], the [TypeError] of iterating [undefined] or of calling
    what is not a function, and the error of the file system that
    [writeFile] rejects with. *)
Inductive Exn :=
| ApiError (code : string)
| SyntaxError
| TypeError
| FsError (code : string).

(** ** String helpers: [split] and [pop] *)

(** [s.split(sep)] for a one-character separator: the pieces between the
    separators, never an empty array. *)
Fixpoint split (sep : ascii) (s : string) : list string :=
  match s with
  | EmptyString => [EmptyString]
  | String c s' =>
      if Ascii.eqb c sep then EmptyString :: split sep s'
      else match split sep s' with
           | [] => [String c EmptyString]
           | piece :: pieces => String c piece :: pieces
           end
  end.

(** [array.pop()]: the last element, [undefined] on an empty array. *)
Definition pop (pieces : list string) : option string :=
  match rev pieces with
  | [] => None
  | piece :: _ => Some piece
  end.

(** How a computation ends.  [OutOfFuel] is not a behaviour of the program:
    it says that the bound on the number of pages was reached. *)
Inductive Outcome (A : Type) :=
| Return (a : A)
| Throw (e : Exn)
| OutOfFuel.
Arguments Return {A} a.
Arguments Throw {A} e.
Arguments OutOfFuel {A}.

(** ** The command line and the report

    [_parseArgs], [_usage] and [_printResult].  What yargs leaves in [argv]
    is untyped: a flag can come out as a string, a number, a boolean, an
    array, or not at all. *)
Module Cli.

(** The values of [argv].  Of a number only whether it is zero is ever
    looked at here (fractions and [NaN] are left out); an array or an
    object is known by the string it converts to. *)
Inductive JSValue :=
| VUndefined
| VNull
| VBoolean (b : bool)
| VNumber (n : Z)
| VString (s : string)
| VObject (rendering : string).

(** [if (v)] *)
Definition truthy (v : JSValue) : bool :=
  match v with
  | VUndefined | VNull => false
  | VBoolean b => b
  | VNumber n => negb (Z.eqb n 0)
  | VString s => negb (String.eqb s "")
  | VObject _ => true
  end.

(** [s.toLowerCase()], on one-byte characters. *)
Definition lower (c : ascii) : ascii :=
  let n := nat_of_ascii c in
  if ((65 <=? n) && (n <=? 90))%nat then ascii_of_nat (n + 32) else c.

Fixpoint toLowerCase (s : string) : string :=
  match s with
  | EmptyString => EmptyString
  | String c s' => String (lower c) (toLowerCase s')
  end.

(** [v?.toLowerCase()]: [undefined] for [undefined] and [null]; a string
    in lower case; for anything else [toLowerCase] is not a function and the
    call throws a [TypeError]. *)
Definition optional_toLowerCase (v : JSValue) : Exn + JSValue :=
  match v with
  | VUndefined | VNull => inr VUndefined
  | VString s => inr (VString (toLowerCase s))
  | VBoolean _ | VNumber _ | VObject _ => inl TypeError
  end.

(** [v === 'text'] and [v === false] *)
Definition is_string (v : JSValue) (text : string) : bool :=
  match v with
  | VString s => String.eqb s text
  | _ => false
  end.

Definition is_false (v : JSValue) : bool :=
  match v with
  | VBoolean false => true
  | _ => false
  end.

(** The properties of [argv] that [_parseArgs] reads: [argv['help']],
    [argv.record], [argv.format], [argv['csv-headers']],
    [argv['show-count']], [argv.match] and [argv['file']]. *)
Record Argv := mkArgv {
  argv_help : JSValue;
  argv_record : JSValue;
  argv_format : JSValue;
  argv_csv_headers : JSValue;
  argv_show_count : JSValue;
  argv_match : JSValue;
  argv_file : JSValue
}.

Inductive Format := json | csv.

(** The [options] object. *)
Record Options := mkOptions {
  record : JSValue;
  format : Format;
  csvHeaders : bool;
  showCount : bool;
  match' : MatchMode;
  file : JSValue
}.

(** A line given to the logger, with the setting [hideLogLevel] at that
    moment. *)
Inductive Level := LevelInfo | LevelError.

Record Line := mkLine {
  level : Level;
  hideLogLevel : bool;
  message : string
}.

Definition quote : string := String (ascii_of_nat 34) EmptyString.

(** [_usage()]: the setting [hideLogLevel] is switched on, the lines are
    logged, and the process exits. *)
Definition _usage : list Line :=
  map (mkLine LevelInfo true)
    [""; "Usage:"; "node record-finder.js --record my-record"; ""; "Arguments:";
     "record: Name of the record to search for. If type is set to regex, the record will be treated as a regex.";
     ("[match]: To match records using regex, set this to " ++ quote ++ "regex"
      ++ quote ++ ". If not, records are matched using string equality")%string;
     "[format]: csv or json. json is default";
     "[no-csv-headers]: Exclude csv headers";
     "[file]: Specify if you want the result written to file rather than be printed on stdout. Relative to pwd. E.g., ../result/file.csv";
     "[show-count]: print the total number of matching records to stdout"].

(** How [_parseArgs] ends: the process exits after the lines the program
    logged, or an error is thrown, or the options are returned. *)
Inductive Parsed :=
| Exits (lines : list Line)
| Throws (e : Exn)
| Parses (options : Options).

(** How [yargs(hideBin(process.argv)).argv] ends, the first thing
    [_parseArgs] evaluates.  yargs is a library: it reads the command line
    and hands over [argv], or it answers the command line itself (its own
    help and version texts, written by yargs and not through the logger) and
    ends the process there. *)
Inductive Yargs :=
| YargsExits
| YargsReturns (argv : Argv).

(** [_parseArgs()] *)
Definition _parseArgs (yargs : Yargs) : Parsed :=
  match yargs with
  | YargsExits => Exits []
  | YargsReturns argv =>
      if truthy (argv_help argv) then Exits _usage
      else if negb (truthy (argv_record argv)) then
        Exits (mkLine LevelError false "No record supplied" :: _usage)
      else
        match optional_toLowerCase (argv_format argv) with
        | inl e => Throws e
        | inr format_lower =>
            match optional_toLowerCase (argv_match argv) with
            | inl e => Throws e
            | inr match_lower =>
                Parses
                  (mkOptions (argv_record argv)
                     (if is_string format_lower "csv" then csv else json)
                     (if is_false (argv_csv_headers argv) then false else true)
                     (if truthy (argv_show_count argv) then true else false)
                     (if is_string match_lower "regex" then regex else equality)
                     (if truthy (argv_file argv) then argv_file argv else VNull))
            end
        end
  end.

(** What [_printResult] does to the outside: a call of [writeFile], a line
    logged. *)
Inductive Effect :=
| WriteFile (file : JSValue) (data : string)
| Log (line : Line).

(** The number of rows, in decimal digits. *)
Definition decimal (n : nat) : string := NilZero.string_of_uint (Nat.to_uint n).

Section Libraries.

(** The encoders and the file system are libraries:
    [JSON.stringify(rows, null, 2)], [csv.stringify(rows, { header })] and
    [writeFile(file, data)], which answers the error it rejects with, if
    any.  So is the conversion of a number to a string. *)
Variable JSON_stringify : list ResultRow -> string.
Variable csv_stringify : list ResultRow -> bool -> string.
Variable writeFile : JSValue -> string -> option Exn.
Variable Number_toString : Z -> string.

(** [_printResult(matchingRecords)] *)
Definition _printResult (options : Options) (matchingRecords : list ResultRow)
  : list Effect * Outcome unit :=
  let count :=
    if showCount options then
      [Log (mkLine LevelInfo false
              ("Total count: " ++ decimal (length matchingRecords))%string)]
    else [] in
  let data :=
    match format options with
    | json => JSON_stringify matchingRecords
    | csv => csv_stringify matchingRecords (csvHeaders options)
    end in
  if truthy (file options) then
    match writeFile (file options) data with
    | Some e => ([WriteFile (file options) data], Throw e)
    | None => (WriteFile (file options) data :: count, Return tt)
    end
  else (Log (mkLine LevelInfo false data) :: count, Return tt).

(** The string a value becomes in a template literal. *)
Definition ToString (v : JSValue) : string :=
  match v with
  | VUndefined => "undefined"
  | VNull => "null"
  | VBoolean true => "true"
  | VBoolean false => "false"
  | VNumber n => Number_toString n
  | VString s => s
  | VObject rendering => rendering
  end.

End Libraries.

(** A value that is neither absent nor a string. *)
Definition not_a_string (v : JSValue) : Prop :=
  match v with
  | VBoolean _ | VNumber _ | VObject _ => True
  | _ => False
  end.

End Cli.

(** [const options = _parseArgs()]: the one [options] object of the
    program. *)
Definition Options : Type := Cli.Options.

(** ** The world and the monad of the program *)

(** The world: the store of zone objects, the commands sent to the client so
    far, the lines the engine logged, and what [_printResult] put out (its
    calls of [writeFile] and the lines it logged). *)
Record World := mkWorld {
  heap : Heap;
  sent : list Command;
  logged : list LogEntry;
  printed : list Cli.Effect
}.

Definition M (A : Type) := World -> World * Outcome A.

Definition ret {A} (a : A) : M A := fun w => (w, Return a).
Definition throw {A} (e : Exn) : M A := fun w => (w, Throw e).
Definition out_of_fuel {A} : M A := fun w => (w, OutOfFuel).
Definition lift {A} (o : Outcome A) : M A := fun w => (w, o).
Definition bind {A B} (c : M A) (k : A -> M B) : M B :=
  fun w =>
    match c w with
    | (w', Return a) => k a w'
    | (w', Throw e) => (w', Throw e)
    | (w', OutOfFuel) => (w', OutOfFuel)
    end.

Declare Scope js_scope.
Delimit Scope js_scope with js.
Notation "x <- c ;; k" := (bind c (fun x => k))
  (at level 100, c at next level, right associativity) : js_scope.
Notation "c ;; k" := (bind c (fun _ => k))
  (at level 100, right associativity) : js_scope.
Local Open Scope js_scope.

(** [for (const x of xs) { ... }] with the variables the body updates passed
    along as [s]. *)
Fixpoint for_of {A S} (xs : list A) (s : S) (body : S -> A -> M S) : M S :=
  match xs with
  | [] => ret s
  | x :: xs' => s' <- body s x ;; for_of xs' s' body
  end.

(** Reading and writing the properties of a zone object. *)
Definition get_Id (r : ref) : M string :=
  fun w => (w, Return (HostedZone.Id (heap w r))).
Definition get_Name (r : ref) : M string :=
  fun w => (w, Return (HostedZone.Name (heap w r))).
Definition get_recordSets (r : ref) : M (option (list ResourceRecordSet.t)) :=
  fun w => (w, Return (HostedZone.recordSets (heap w r))).
Definition set_Id (r : ref) (id : string) : M unit :=
  fun w =>
    (mkWorld (update (heap w) r (HostedZone.with_Id (heap w r) id))
             (sent w) (logged w) (printed w), Return tt).
Definition set_recordSets (r : ref) (rs : list ResourceRecordSet.t) : M unit :=
  fun w =>
    (mkWorld (update (heap w) r (HostedZone.with_recordSets (heap w r) rs))
             (sent w) (logged w) (printed w), Return tt).

Definition log_info (entry : LogEntry) : M unit :=
  fun w => (mkWorld (heap w) (sent w) (logged w ++ [entry]) (printed w), Return tt).

Definition of_response {A} (answer : string + A) : Outcome A :=
  match answer with
  | inl code => Throw (ApiError code)
  | inr response => Return response
  end.

(** ** A fragment of the regular expressions of the runtime

    [new RegExp(pattern)] and [RegExp.prototype.test] belong to the
    JavaScript runtime, not to the repository: the program takes them as
    they are (see [Runtime] below).  This module describes what they do on
    a fragment of the patterns, so that statements about searching can be
    made and examples computed: literal characters, [.], the escapes
    [\d \D \w \W] and escaped punctuation, character classes with ranges,
    groups, alternation, the quantifiers [* + ? {n} {n,} {n,m}] (lazy or
    not) and the anchors [^ $], without flags, on strings of characters
    below 128 (as DNS names and record values are).
    [of_pattern] reads a pattern of the fragment.  It answers [None] for
    every other pattern, and that says nothing about the runtime: the
    pattern may be one that [new RegExp] rejects, or one that it accepts
    and the fragment leaves out (look-around, back-references, word
    boundaries, named groups, other escapes, a brace or bracket that stands
    for itself). *)
Module RegExp.
Local Open Scope char_scope.

Inductive t :=
| Empty
| Char (c : ascii)
| Dot
| Class (negated : bool) (ranges : list (ascii * ascii))
| Bol
| Eol
| Group (r : t)
| Seq (r1 r2 : t)
| Alt (r1 r2 : t)
| Repeat (r : t) (min : nat) (max : option nat).

(** *** Reading a pattern *)

Inductive token :=
| TAtom (r : t)
| TAssert (r : t)
| TOpen
| TClose
| TBar
| TQuant (min : nat) (max : option nat).

Definition digit_ranges : list (ascii * ascii) := [("0", "9")].
Definition word_ranges : list (ascii * ascii) :=
  [("a", "z"); ("A", "Z"); ("0", "9"); ("_", "_")].

(** The characters that a backslash turns into themselves. *)
Definition is_syntax_char (c : ascii) : bool :=
  existsb (Ascii.eqb c)
    ["^"; "$"; "\"; "."; "*"; "+"; "?"; "("; ")"; "["; "]"; "{"; "}"; "|";
     "/"; "-"].

Definition atom_escape (c : ascii) : option t :=
  if Ascii.eqb c "d" then Some (Class false digit_ranges)
  else if Ascii.eqb c "D" then Some (Class true digit_ranges)
  else if Ascii.eqb c "w" then Some (Class false word_ranges)
  else if Ascii.eqb c "W" then Some (Class true word_ranges)
  else if is_syntax_char c then Some (Char c)
  else None.

Definition class_escape (c : ascii) : option (list (ascii * ascii)) :=
  if Ascii.eqb c "d" then Some digit_ranges
  else if Ascii.eqb c "w" then Some word_ranges
  else if is_syntax_char c then Some [(c, c)]
  else None.

Definition is_char (c expected : ascii) : bool := Ascii.eqb c expected.

Definition starts_range (s : list ascii) : bool :=
  match s with
  | dash :: next :: _ => is_char dash "-" && negb (is_char next "]")
  | dash :: [] => is_char dash "-"
  | [] => false
  end.

(** The items of a class, after [[] or [[^], up to the closing bracket. *)
Fixpoint class_items (s : list ascii) : option (list (ascii * ascii) * list ascii) :=
  match s with
  | [] => None
  | c :: rest =>
      let single (rest : option (list (ascii * ascii) * list ascii)) :=
        match rest with
        | Some (more, rest') => Some ((c, c) :: more, rest')
        | None => None
        end in
      if is_char c "]" then Some ([], rest)
      else if is_char c "\" then
        match rest with
        | escaped :: rest' =>
            match class_escape escaped with
            | Some ranges =>
                if starts_range rest' then None
                else match class_items rest' with
                     | Some (more, rest'') => Some (ranges ++ more, rest'')
                     | None => None
                     end
            | None => None
            end
        | [] => None
        end
      else
        match rest with
        | dash :: hi :: rest' =>
            if is_char dash "-" then
              if is_char hi "]" then Some ([(c, c); ("-", "-")], rest')
              else if is_char hi "\" then None
              else if (nat_of_ascii c <=? nat_of_ascii hi)%nat then
                match class_items rest' with
                | Some (more, rest'') => Some ((c, hi) :: more, rest'')
                | None => None
                end
              else None
            else single (class_items rest)
        | _ => single (class_items rest)
        end
  end.

Definition digit_value (c : ascii) : option nat :=
  let n := nat_of_ascii c in
  if ((48 <=? n) && (n <=? 57))%nat then Some (n - 48) else None.

(** The decimal digits at the front of [s], read as a number. *)
Fixpoint digits (s : list ascii) (acc : option nat) : option nat * list ascii :=
  match s with
  | c :: rest =>
      match digit_value c with
      | Some d =>
          digits rest (Some (10 * match acc with Some n => n | None => 0 end + d))
      | None => (acc, s)
      end
  | [] => (acc, s)
  end.

(** A braced quantifier, after its [{]. *)
Definition braces (s : list ascii) : option (token * list ascii) :=
  match digits s None with
  | (Some n, c :: rest) =>
      if is_char c "}" then Some (TQuant n (Some n), rest)
      else if is_char c "," then
        match digits rest None with
        | (None, c' :: rest') =>
            if is_char c' "}" then Some (TQuant n None, rest') else None
        | (Some m, c' :: rest') =>
            if is_char c' "}" && (n <=? m)%nat then Some (TQuant n (Some m), rest')
            else None
        | _ => None
        end
      else None
  | _ => None
  end.

(** A quantifier may be followed by [?], which makes it lazy: the same
    matches, found in another order. *)
Definition skip_lazy (s : list ascii) : list ascii :=
  match s with
  | c :: rest => if is_char c "?" then rest else s
  | [] => s
  end.

Fixpoint lex (fuel : nat) (s : list ascii) : option (list token) :=
  match fuel with
  | 0 => match s with [] => Some [] | _ => None end
  | S fuel =>
      let continue (tok : token) (rest : list ascii) :=
        match lex fuel rest with
        | Some toks => Some (tok :: toks)
        | None => None
        end in
      match s with
      | [] => Some []
      | c :: rest =>
          if is_char c "\" then
            match rest with
            | escaped :: rest' =>
                match atom_escape escaped with
                | Some r => continue (TAtom r) rest'
                | None => None
                end
            | [] => None
            end
          else if is_char c "[" then
            match rest with
            | caret :: rest' =>
                if is_char caret "^" then
                  match class_items rest' with
                  | Some (ranges, rest'') =>
                      continue (TAtom (Class true ranges)) rest''
                  | None => None
                  end
                else
                  match class_items rest with
                  | Some (ranges, rest'') =>
                      continue (TAtom (Class false ranges)) rest''
                  | None => None
                  end
            | [] => None
            end
          else if is_char c "{" then
            match braces rest with
            | Some (tok, rest') => continue tok (skip_lazy rest')
            | None => None
            end
          else if is_char c "*" then continue (TQuant 0 None) (skip_lazy rest)
          else if is_char c "+" then continue (TQuant 1 None) (skip_lazy rest)
          else if is_char c "?" then continue (TQuant 0 (Some 1)) (skip_lazy rest)
          else if is_char c "(" then
            match rest with
            | question :: rest' =>
                if is_char question "?" then
                  match rest' with
                  | colon :: rest'' =>
                      if is_char colon ":" then continue TOpen rest'' else None
                  | [] => None
                  end
                else continue TOpen rest
            | [] => continue TOpen rest
            end
          else if is_char c ")" then continue TClose rest
          else if is_char c "|" then continue TBar rest
          else if is_char c "^" then continue (TAssert Bol) rest
          else if is_char c "$" then continue (TAssert Eol) rest
          else if is_char c "." then continue (TAtom Dot) rest
          else if is_char c "]" || is_char c "}" then None
          else continue (TAtom (Char c)) rest
      end
  end.

(** A group under construction: the alternatives already closed by [|] and
    the terms of the current one, both latest first; the flag tells whether
    the latest term can take a quantifier. *)
Record frame := mkFrame {
  alternatives : list t;
  terms : list t;
  quantifiable : bool
}.

Definition empty_frame : frame := mkFrame [] [] false.

Definition sequence (terms_rev : list t) : t :=
  fold_left (fun acc term => Seq term acc) terms_rev Empty.

Definition close_frame (f : frame) : t :=
  fold_left (fun acc alternative => Alt alternative acc)
            (alternatives f) (sequence (terms f)).

Definition push_term (f : frame) (r : t) (q : bool) : frame :=
  mkFrame (alternatives f) (r :: terms f) q.

Fixpoint parse (toks : list token) (f : frame) (stack : list frame) : option t :=
  match toks with
  | [] => match stack with [] => Some (close_frame f) | _ => None end
  | TAtom r :: toks' => parse toks' (push_term f r true) stack
  | TAssert r :: toks' => parse toks' (push_term f r false) stack
  | TOpen :: toks' => parse toks' empty_frame (f :: stack)
  | TClose :: toks' =>
      match stack with
      | parent :: stack' =>
          parse toks' (push_term parent (Group (close_frame f)) true) stack'
      | [] => None
      end
  | TBar :: toks' =>
      parse toks' (mkFrame (sequence (terms f) :: alternatives f) [] false) stack
  | TQuant min max :: toks' =>
      match terms f, quantifiable f with
      | r :: before, true =>
          parse toks' (mkFrame (alternatives f) (Repeat r min max :: before) false) stack
      | _, _ => None
      end
  end.

(** The regular expression of a pattern of the fragment. *)
Definition of_pattern (pattern : string) : option t :=
  let s := list_ascii_of_string pattern in
  match lex (length s) s with
  | Some toks => parse toks empty_frame []
  | None => None
  end.

(** *** Matching *)

Definition in_ranges (ranges : list (ascii * ascii)) (c : ascii) : bool :=
  existsb (fun range =>
             ((nat_of_ascii (fst range) <=? nat_of_ascii c)
              && (nat_of_ascii c <=? nat_of_ascii (snd range)))%nat) ranges.

(** [.] matches everything but a line terminator. *)
Definition is_line_terminator (c : ascii) : bool :=
  Ascii.eqb c "010" || Ascii.eqb c "013".

Definition accepts (r : t) (c : ascii) : bool :=
  match r with
  | Char c' => Ascii.eqb c c'
  | Dot => negb (is_line_terminator c)
  | Class negated ranges => xorb negated (in_ranges ranges c)
  | _ => false
  end.

Definition one_char (r : t) (s : list ascii) (i : nat) : list nat :=
  match nth_error s i with
  | Some c => if accepts r c then [S i] else []
  | None => []
  end.

(** The positions reached from [i] by exactly [n], by at most [n], and by any
    number of rounds of [step]; a round that does not advance adds nothing
    to the last, so [fuel] rounds that do advance are all there can be in a
    string of [fuel] characters. *)
Fixpoint exactly (n : nat) (step : nat -> list nat) (i : nat) : list nat :=
  match n with
  | 0 => [i]
  | S n' => flat_map (exactly n' step) (step i)
  end.

Fixpoint at_most (n : nat) (step : nat -> list nat) (i : nat) : list nat :=
  i :: match n with
       | 0 => []
       | S n' => flat_map (at_most n' step) (step i)
       end.

Fixpoint any_number (fuel : nat) (step : nat -> list nat) (i : nat) : list nat :=
  i :: match fuel with
       | 0 => []
       | S fuel' =>
           flat_map (any_number fuel' step) (filter (fun j => (i <? j)%nat) (step i))
       end.

(** The positions where a match of [r] that starts at [i] can end. *)
Fixpoint ends (r : t) (s : list ascii) (i : nat) : list nat :=
  match r with
  | Empty => [i]
  | Char _ | Dot | Class _ _ => one_char r s i
  | Bol => if (i =? 0)%nat then [i] else []
  | Eol => if (i =? length s)%nat then [i] else []
  | Group r' => ends r' s i
  | Seq r1 r2 => flat_map (ends r2 s) (ends r1 s i)
  | Alt r1 r2 => ends r1 s i ++ ends r2 s i
  | Repeat r' min max =>
      match max with
      | Some max' =>
          if (max' <? min)%nat then []
          else flat_map (at_most (max' - min) (ends r' s))
                        (exactly min (ends r' s) i)
      | None =>
          flat_map (any_number (length s) (ends r' s))
                   (exactly min (ends r' s) i)
      end
  end.

(** What [regexp.test(string)] answers for a regular expression of the
    fragment, without flags: is there a match that starts at some position
    of the string? *)
Definition test (r : t) (str : string) : bool :=
  let s := list_ascii_of_string str in
  existsb (fun i => match ends r s i with [] => false | _ => true end)
          (seq 0 (S (length s))).

(** What it means for [r] to match the characters of [s] from position [i]
    up to position [j]. *)
Fixpoint rounds (n : nat) (R : nat -> nat -> Prop) (i j : nat) : Prop :=
  match n with
  | 0 => i = j
  | S n' => exists k, R i k /\ rounds n' R k j
  end.

Fixpoint Matches (r : t) (s : list ascii) (i j : nat) : Prop :=
  match r with
  | Empty => i = j
  | Char _ | Dot | Class _ _ =>
      exists c, nth_error s i = Some c /\ accepts r c = true /\ j = S i
  | Bol => i = 0 /\ j = 0
  | Eol => i = length s /\ j = length s
  | Group r' => Matches r' s i j
  | Seq r1 r2 => exists k, Matches r1 s i k /\ Matches r2 s k j
  | Alt r1 r2 => Matches r1 s i j \/ Matches r2 s i j
  | Repeat r' min max =>
      exists n, min <= n
                /\ match max with Some max' => n <= max' | None => True end
                /\ rounds n (Matches r' s) i j
  end.

End RegExp.

(** ** The runtime and the libraries

    What the program calls and does not define.  [new RegExp(value)] throws
    a [SyntaxError] ([None]) or makes a regular expression, which is known
    here by its [test]: the expression has no flags, so [test] keeps no
    state between calls.  [Number_toString] is the conversion of a number in
    a template literal.  [JSON.stringify(rows, null, 2)] and
    [csv.stringify(rows, { header })] are the encoders, and
    [writeFile(file, data)] answers the error it rejects with, if any. *)
Record Runtime := mkRuntime {
  new_RegExp : Cli.JSValue -> option (string -> bool);
  Number_toString : Z -> string;
  JSON_stringify : list ResultRow -> string;
  csv_stringify : list ResultRow -> bool -> string;
  writeFile : Cli.JSValue -> string -> option Exn
}.

(** Strings of characters below 128. *)
Definition is_ascii (s : string) : bool :=
  forallb (fun c => (nat_of_ascii c <? 128)%nat) (list_ascii_of_string s).

(** The runtime agrees with the fragment of [RegExp]: a pattern of the
    fragment is accepted by [new RegExp], and the regular expression it
    makes tests a string as the fragment says; and [new RegExp] of a number
    is [new RegExp] of the string the number converts to. *)
Definition conforms (runtime : Runtime) : Prop :=
  (forall pattern re,
     is_ascii pattern = true ->
     RegExp.of_pattern pattern = Some re ->
     exists test,
       new_RegExp runtime (Cli.VString pattern) = Some test
       /\ forall candidate,
            is_ascii candidate = true -> test candidate = RegExp.test re candidate)
  /\ forall n,
       new_RegExp runtime (Cli.VNumber n)
       = new_RegExp runtime (Cli.VString (Number_toString runtime n)).


(** ** A small account, for examples *)

Module Fixture.

(** The zone Z1 arrives twice, as two objects, on two pages; Z2 once. *)
Definition store : Heap :=
  fun r =>
    match r with
    | 0 => HostedZone.mk "/hostedzone/Z1" "example.com." None
    | 1 => HostedZone.mk "/hostedzone/Z1" "example.com." None
    | _ => HostedZone.mk "/hostedzone/Z2" "example.org." None
    end.

Definition zones1 : ListHostedZones.Response :=
  ListHostedZones.mkResponse [0] true (Some "page-2").
Definition zones2 : ListHostedZones.Response :=
  ListHostedZones.mkResponse [1; 2] false None.

Definition foo : ResourceRecordSet.t :=
  ResourceRecordSet.mk "foo.example.com." "A" None
    (Some [ResourceRecord.mk "1.2.3.4"; ResourceRecord.mk "5.6.7.8"]).
Definition www : ResourceRecordSet.t :=
  ResourceRecordSet.mk "www.example.com." "A"
    (Some (AliasTarget.mk "5.6.7.8."))
    (Some [ResourceRecord.mk "5.6.7.8"; ResourceRecord.mk "5.6.7.8"]).
Definition bare : ResourceRecordSet.t :=
  ResourceRecordSet.mk "bare.example.com." "TXT" None None.
Definition org : ResourceRecordSet.t :=
  ResourceRecordSet.mk "example.org." "A" None (Some [ResourceRecord.mk "5.6.7.8"]).

Definition records1 : ListResourceRecordSets.Response :=
  ListResourceRecordSets.mkResponse [foo] true
    (Some "www.example.com.") (Some "A") None.
Definition records2 : ListResourceRecordSets.Response :=
  ListResourceRecordSets.mkResponse [www; bare] false None None None.
Definition records_org : ListResourceRecordSets.Response :=
  ListResourceRecordSets.mkResponse [org] false None None None.

Definition list_zones (history : list Command) (params : ListHostedZones.Params)
  : string + ListHostedZones.Response :=
  match ListHostedZones.Marker params with
  | None => inr zones1
  | Some _ => inr zones2
  end.

Definition list_recordSets (history : list Command)
    (params : ListResourceRecordSets.Params)
  : string + ListResourceRecordSets.Response :=
  if String.eqb (ListResourceRecordSets.HostedZoneId params) "Z1" then
    match ListResourceRecordSets.StartRecordName params with
    | None => inr records1
    | Some _ => inr records2
    end
  else if String.eqb (ListResourceRecordSets.HostedZoneId params) "Z2" then
    inr records_org
  else inl "NoSuchHostedZone".

Definition client : Client := mkClient list_zones list_recordSets.

(** The same account behind a client that throttles the second page of
    record sets. *)
Definition throttled_recordSets (history : list Command)
    (params : ListResourceRecordSets.Params)
  : string + ListResourceRecordSets.Response :=
  match ListResourceRecordSets.StartRecordName params with
  | None => list_recordSets history params
  | Some _ => inl "Throttling"
  end.

Definition throttled : Client := mkClient list_zones throttled_recordSets.

Definition world : World := mkWorld store [] [] [].

(** The store once the zone Z1 (object 0) has its record sets. *)
Definition aggregated : World :=
  mkWorld (update store 0 (HostedZone.mk "Z1" "example.com." (Some [foo; www; bare])))
          [] [] [].

(** [--record 5.6.7.8], and [--record PATTERN --match regex]. *)
Definition options : Options :=
  Cli.mkOptions (Cli.VString "5.6.7.8") Cli.json true false equality Cli.VNull.

Definition searching (pattern : string) : Options :=
  Cli.mkOptions (Cli.VString pattern) Cli.json true false regex Cli.VNull.

(** [--record 12345], of which yargs makes a number, and the same with
    [--file out.json --show-count]. *)
Definition numeric : Options :=
  Cli.mkOptions (Cli.VNumber 12345) Cli.json true false equality Cli.VNull.

Definition to_file : Options :=
  Cli.mkOptions (Cli.VString "5.6.7.8") Cli.json true true equality
    (Cli.VString "out.json").

(** A runtime for the examples.  Its numbers are written in decimal
    digits; its regular expressions are those of the fragment, made from the
    string the value converts to (the empty pattern for [undefined]), and it
    rejects every other pattern; its encoders write the values of the rows
    and nothing else; its file system accepts every write.  [read_only] is
    the same with a file system that rejects every write. *)
Definition Number_toString (n : Z) : string :=
  NilZero.string_of_int (Z.to_int n).

Definition pattern_of (value : Cli.JSValue) : string :=
  match value with
  | Cli.VUndefined => ""
  | _ => Cli.ToString Number_toString value
  end.

Definition new_RegExp (value : Cli.JSValue) : option (string -> bool) :=
  option_map RegExp.test (RegExp.of_pattern (pattern_of value)).

Definition values (rows : list ResultRow) : string :=
  String.concat "," (map recordValue rows).

Definition runtime : Runtime :=
  mkRuntime new_RegExp Number_toString values (fun rows _ => values rows)
    (fun _ _ => None).

Definition read_only : Runtime :=
  mkRuntime new_RegExp Number_toString values (fun rows _ => values rows)
    (fun _ _ => Some (FsError "EROFS")).

End Fixture.

(** The zones of [Fixture] as the listing leaves them: ids normalized, no
    record sets yet. *)
Module Discovered.
Definition store : Heap :=
  fun r =>
    match r with
    | 0 => HostedZone.mk "Z1" "example.com." None
    | 1 => HostedZone.mk "Z1" "example.com." None
    | _ => HostedZone.mk "Z2" "example.org." None
    end.
Definition world : World := mkWorld store [] [] [].
End Discovered.

(** Arguments for examples: [--record 5.6.7.8 --match ReGeX --format CSV
    --no-csv-headers --file out.csv --show-count], and [--record 12345
    --match] where yargs makes a number of the one and [true] of the
    other. *)
Module Arguments.
Definition full : Cli.Argv :=
  Cli.mkArgv Cli.VUndefined (Cli.VString "5.6.7.8") (Cli.VString "CSV")
    (Cli.VBoolean false) (Cli.VBoolean true) (Cli.VString "ReGeX")
    (Cli.VString "out.csv").
Definition bare_match : Cli.Argv :=
  Cli.mkArgv Cli.VUndefined (Cli.VNumber 12345) Cli.VUndefined Cli.VUndefined
    Cli.VUndefined (Cli.VBoolean true) Cli.VUndefined.
Definition no_record : Cli.Argv :=
  Cli.mkArgv Cli.VUndefined (Cli.VNumber 0) Cli.VUndefined Cli.VUndefined
    Cli.VUndefined Cli.VUndefined Cli.VUndefined.
End Arguments.

(** A client whose every answer says there is more. *)
Module Endless.
Definition client : Client :=
  mkClient
    (fun _ _ => inr (ListHostedZones.mkResponse [] true (Some "more")))
    (fun _ _ => inr (ListResourceRecordSets.mkResponse [] true None None None)).
End Endless.

(** ** The program *)

Section Engine.

(** The runtime the process runs on. *)
Variable runtime : Runtime.

Section Program.

(** [const client = new Route53Client()] and [const options = _parseArgs()]:
    fixed for the life of the process. *)
Variable client : Client.
Variable options : Options.

(** [await client.send(command)]: the command is recorded, and the client
    answers from what it has been sent before. *)
Definition send_ListHostedZones (params : ListHostedZones.Params)
  : M ListHostedZones.Response :=
  fun w =>
    (mkWorld (heap w) (sent w ++ [ListHostedZonesCommand params])
             (logged w) (printed w),
     of_response (listHostedZones client (sent w) params)).

Definition send_ListResourceRecordSets (params : ListResourceRecordSets.Params)
  : M ListResourceRecordSets.Response :=
  fun w =>
    (mkWorld (heap w) (sent w ++ [ListResourceRecordSetsCommand params])
             (logged w) (printed w),
     of_response (listResourceRecordSets client (sent w) params)).

(** [hostedZone.Id = hostedZone.Id.split('/').pop()].  [pop] answers
    [undefined] only on an empty array, and [split] never makes one
    ([split_not_nil] below), so the second branch is never taken. *)
Definition normalize_Id (hostedZone : ref) : M unit :=
  id <- get_Id hostedZone ;;
  match pop (split "/" id) with
  | Some token => set_Id hostedZone token
  | None => throw TypeError
  end.

(** [_listHostedZones(hostedZones = new Set(), marker = undefined)].  The
    recursion follows the pages; [fuel] bounds their number. *)
Fixpoint _listHostedZones (fuel : nat) (hostedZones : JSSet.t)
    (marker : option string) : M JSSet.t :=
  match fuel with
  | 0 => out_of_fuel
  | S fuel' =>
      let params := ListHostedZones.mkParams marker in
      response <- send_ListHostedZones params ;;
      hostedZones <-
        for_of (ListHostedZones.HostedZones response) hostedZones
          (fun hostedZones hostedZone =>
             normalize_Id hostedZone ;;
             ret (JSSet.add hostedZones hostedZone)) ;;
      if ListHostedZones.IsTruncated response then
        _listHostedZones fuel' hostedZones (ListHostedZones.NextMarker response)
      else ret hostedZones
  end.

(** [_getRecordSetsForZone(hostedZone, recordSets = [], startRecord = undefined)] *)
Fixpoint _getRecordSetsForZone (fuel : nat) (hostedZone : ref)
    (recordSets : list ResourceRecordSet.t)
    (startRecord : option StartRecord.t) : M (list ResourceRecordSet.t) :=
  match fuel with
  | 0 => out_of_fuel
  | S fuel' =>
      id <- get_Id hostedZone ;;
      let params :=
        ListResourceRecordSets.mkParams id
          (opt_chain startRecord StartRecord.name)
          (opt_chain startRecord StartRecord.type)
          (opt_chain startRecord StartRecord.identifier) in
      response <- send_ListResourceRecordSets params ;;
      let recordSets :=
        recordSets ++ ListResourceRecordSets.ResourceRecordSets response in
      if ListResourceRecordSets.IsTruncated response then
        _getRecordSetsForZone fuel' hostedZone recordSets
          (Some (StartRecord.mk
                   (ListResourceRecordSets.NextRecordName response)
                   (ListResourceRecordSets.NextRecordType response)
                   (ListResourceRecordSets.NextRecordIdentifier response)))
      else ret recordSets
  end.

(** [_getRecordSetsForZones(hostedZones)] *)
Definition _getRecordSetsForZones (fuel : nat) (hostedZones : JSSet.t) : M unit :=
  for_of (JSSet.values hostedZones) tt
    (fun _ hostedZone =>
       recordSets <- _getRecordSetsForZone fuel hostedZone [] None ;;
       set_recordSets hostedZone recordSets).

(** [_evaluateRecord(recordValue)], local to [_findRecord]: it touches
    nothing, and throws what [new RegExp] throws.  [options.record] is what
    [_parseArgs] left there, a string or not: the template literal converts
    it to a string, [===] does not. *)
Definition _evaluateRecord (recordValue : string) : Outcome bool :=
  match Cli.match' options with
  | regex =>
      match new_RegExp runtime (Cli.record options) with
      | Some test => Return (test recordValue)
      | None => Throw SyntaxError
      end
  | equality =>
      Return (String.eqb recordValue
                (Cli.ToString (Number_toString runtime) (Cli.record options)
                 ++ ".")%string
              || Cli.is_string (Cli.record options) recordValue)
  end.

(** [_createResultEntry(hostedZone, recordType, recordName, recordValue)],
    local to [_findRecord]. *)
Definition _createResultEntry (hostedZone : ref)
    (recordType recordName recordValue : string) : M ResultRow :=
  id <- get_Id hostedZone ;;
  name <- get_Name hostedZone ;;
  ret (mkResultRow id name recordType recordName recordValue).

(** The body of the loop over the record sets of one zone. *)
Definition _findRecord_in_recordSet (hostedZone : ref)
    (matchingRecords : list ResultRow) (recordSet : ResourceRecordSet.t)
  : M (list ResultRow) :=
  match ResourceRecordSet.AliasTarget recordSet with
  | Some aliasTarget =>
      matches <- lift (_evaluateRecord (AliasTarget.DNSName aliasTarget)) ;;
      if matches : bool then
        entry <- _createResultEntry hostedZone "Alias"
                   (ResourceRecordSet.Name recordSet)
                   (AliasTarget.DNSName aliasTarget) ;;
        ret (matchingRecords ++ [entry])
      else ret matchingRecords
  | None =>
      match ResourceRecordSet.ResourceRecords recordSet with
      | Some resourceRecords =>
          for_of resourceRecords matchingRecords
            (fun matchingRecords record =>
               matches <- lift (_evaluateRecord (ResourceRecord.Value record)) ;;
               if matches : bool then
                 entry <- _createResultEntry hostedZone
                            (ResourceRecordSet.Type' recordSet)
                            (ResourceRecordSet.Name recordSet)
                            (ResourceRecord.Value record) ;;
                 ret (matchingRecords ++ [entry])
               else ret matchingRecords)
      | None =>
          log_info (InfoNoRecords recordSet) ;;
          ret matchingRecords
      end
  end.

(** The body of the loop over the zones.  Iterating [hostedZone.recordSets]
    while it is [undefined] throws a [TypeError]. *)
Definition _findRecord_in_zone (matchingRecords : list ResultRow)
    (hostedZone : ref) : M (list ResultRow) :=
  recordSets <- get_recordSets hostedZone ;;
  match recordSets with
  | Some recordSets =>
      for_of recordSets matchingRecords (_findRecord_in_recordSet hostedZone)
  | None => throw TypeError
  end.

(** [_findRecord(hostedZones)] *)
Definition _findRecord (hostedZones : JSSet.t) : M (list ResultRow) :=
  for_of (JSSet.values hostedZones) [] _findRecord_in_zone.

(** [await _printResult(matchingRecords)]: what [Cli._printResult] does to
    the outside is added to the world, and the run ends as it ends. *)
Definition _printResult (matchingRecords : list ResultRow) : M unit :=
  fun w =>
    let (effects, outcome) :=
      Cli._printResult (JSON_stringify runtime) (csv_stringify runtime)
        (writeFile runtime) options matchingRecords in
    (mkWorld (heap w) (sent w) (logged w) (printed w ++ effects), outcome).

(** [run()] *)
Definition run (fuel : nat) : M unit :=
  log_info (Info "Resolving hosted zones...") ;;
  hostedZones <- _listHostedZones fuel JSSet.empty None ;;
  log_info (InfoResolved (JSSet.size hostedZones)) ;;
  log_info (Info "Resolving record sets...") ;;
  _getRecordSetsForZones fuel hostedZones ;;
  log_info (Info "Record sets resolved") ;;
  log_info (Info "Finding matching records...") ;;
  matchingRecords <- _findRecord hostedZones ;;
  _printResult matchingRecords.

End Program.

(** ** Vocabulary of the statements *)

(** The part of a zone id after its last slash; the id itself when it has
    none. *)
Definition last_token (id : string) : string :=
  match pop (split "/" id) with
  | Some token => token
  | None => id
  end.

Fixpoint has_slash (s : string) : bool :=
  match s with
  | EmptyString => false
  | String c s' => Ascii.eqb c "/" || has_slash s'
  end.

(** The zone objects of a list of pages, in the order they were served, each
    object once, at its first appearance. *)
Definition served_zones (pages : list ListHostedZones.Response) : list ref :=
  fold_left JSSet.add (concat (map ListHostedZones.HostedZones pages)) JSSet.empty.

(** A zone listing split across the pages [pages]: the client answers the
    request that carries [marker] with the first page, and while a page says
    it is truncated, the request that carries its [NextMarker] with the next
    one; the last page is the one that is not truncated. *)
Fixpoint zone_listing (client : Client) (history : list Command)
    (marker : option string) (pages : list ListHostedZones.Response) : Prop :=
  match pages with
  | [] => False
  | page :: later =>
      listHostedZones client history (ListHostedZones.mkParams marker) = inr page
      /\ match later with
         | [] => ListHostedZones.IsTruncated page = false
         | _ :: _ =>
             ListHostedZones.IsTruncated page = true
             /\ zone_listing client
                  (history ++ [ListHostedZonesCommand (ListHostedZones.mkParams marker)])
                  (ListHostedZones.NextMarker page) later
         end
  end.

(** The request [_getRecordSetsForZone] builds for a zone id and a start
    record, and the start record a truncated page asks for. *)
Definition recordSets_params (id : string) (startRecord : option StartRecord.t)
  : ListResourceRecordSets.Params :=
  ListResourceRecordSets.mkParams id
    (opt_chain startRecord StartRecord.name)
    (opt_chain startRecord StartRecord.type)
    (opt_chain startRecord StartRecord.identifier).

Definition next_record (page : ListResourceRecordSets.Response) : StartRecord.t :=
  StartRecord.mk (ListResourceRecordSets.NextRecordName page)
                 (ListResourceRecordSets.NextRecordType page)
                 (ListResourceRecordSets.NextRecordIdentifier page).

(** The same for the record sets of the zone [id]. *)
Fixpoint recordSet_listing (client : Client) (history : list Command)
    (id : string) (startRecord : option StartRecord.t)
    (pages : list ListResourceRecordSets.Response) : Prop :=
  match pages with
  | [] => False
  | page :: later =>
      listResourceRecordSets client history (recordSets_params id startRecord)
        = inr page
      /\ match later with
         | [] => ListResourceRecordSets.IsTruncated page = false
         | _ :: _ =>
             ListResourceRecordSets.IsTruncated page = true
             /\ recordSet_listing client
                  (history ++ [ListResourceRecordSetsCommand
                                 (recordSets_params id startRecord)])
                  id (Some (next_record page)) later
         end
  end.

Definition returned {A} (o : Outcome A) : bool :=
  match o with
  | Return _ => true
  | _ => false
  end.

(** How an enumeration ends: with a page that is not truncated, with a
    rejection of the client, or at the bound on the number of pages. *)
Inductive Ending :=
| Finished
| Rejected (code : string)
| Exhausted.

Definition ends_as {A} (ending : Ending) (outcome : Outcome A) : Prop :=
  match ending with
  | Finished => returned outcome = true
  | Rejected code => outcome = Throw (ApiError code)
  | Exhausted => outcome = OutOfFuel
  end.

(** The commands that the answers of the client call for, one after the
    other, when each command carries what the answer before it named as
    next: for the zones from a marker, for the record sets of the zone [id]
    from a start record. *)
Fixpoint zone_trace (client : Client) (history : list Command)
    (marker : option string) (fuel : nat) : list Command * Ending :=
  match fuel with
  | 0 => ([], Exhausted)
  | S fuel' =>
      let command := ListHostedZonesCommand (ListHostedZones.mkParams marker) in
      match listHostedZones client history (ListHostedZones.mkParams marker) with
      | inl code => ([command], Rejected code)
      | inr page =>
          if ListHostedZones.IsTruncated page then
            let (later, ending) :=
              zone_trace client (history ++ [command])
                (ListHostedZones.NextMarker page) fuel' in
            (command :: later, ending)
          else ([command], Finished)
      end
  end.

Fixpoint recordSet_trace (client : Client) (history : list Command)
    (id : string) (startRecord : option StartRecord.t) (fuel : nat)
  : list Command * Ending :=
  match fuel with
  | 0 => ([], Exhausted)
  | S fuel' =>
      let command :=
        ListResourceRecordSetsCommand (recordSets_params id startRecord) in
      match listResourceRecordSets client history
              (recordSets_params id startRecord) with
      | inl code => ([command], Rejected code)
      | inr page =>
          if ListResourceRecordSets.IsTruncated page then
            let (later, ending) :=
              recordSet_trace client (history ++ [command]) id
                (Some (next_record page)) fuel' in
            (command :: later, ending)
          else ([command], Finished)
      end
  end.

(** The error, if any, with which the client answers [command] after
    [history]. *)
Definition rejection (client : Client) (history : list Command)
    (command : Command) : option string :=
  match command with
  | ListHostedZonesCommand params =>
      match listHostedZones client history params with
      | inl code => Some code
      | inr _ => None
      end
  | ListResourceRecordSetsCommand params =>
      match listResourceRecordSets client history params with
      | inl code => Some code
      | inr _ => None
      end
  end.

(** Does the value match, for these options?  [false] also when the
    evaluation throws. *)
Definition matches (options : Options) (recordValue : string) : bool :=
  match _evaluateRecord options recordValue with
  | Return b => b
  | _ => false
  end.

(** Options with which [_evaluateRecord] does not throw. *)
Definition usable (options : Options) : Prop :=
  Cli.match' options = regex -> new_RegExp runtime (Cli.record options) <> None.

(** The rows a record set would give if every value matched: the alias
    target alone when there is one, else the literal values in their order. *)
Definition recordSet_candidates (zone : HostedZone.t)
    (recordSet : ResourceRecordSet.t) : list ResultRow :=
  match ResourceRecordSet.AliasTarget recordSet with
  | Some aliasTarget =>
      [mkResultRow (HostedZone.Id zone) (HostedZone.Name zone) "Alias"
         (ResourceRecordSet.Name recordSet) (AliasTarget.DNSName aliasTarget)]
  | None =>
      match ResourceRecordSet.ResourceRecords recordSet with
      | Some resourceRecords =>
          map (fun r =>
                 mkResultRow (HostedZone.Id zone) (HostedZone.Name zone)
                   (ResourceRecordSet.Type' recordSet)
                   (ResourceRecordSet.Name recordSet) (ResourceRecord.Value r))
              resourceRecords
      | None => []
      end
  end.

Definition zone_candidates (zone : HostedZone.t) : list ResultRow :=
  match HostedZone.recordSets zone with
  | Some recordSets => flat_map (recordSet_candidates zone) recordSets
  | None => []
  end.

(** All candidates of an aggregate: zone after zone, record set after record
    set, value after value. *)
Definition candidates (h : Heap) (hostedZones : JSSet.t) : list ResultRow :=
  flat_map (fun hostedZone => zone_candidates (h hostedZone)) hostedZones.

(** The strings of one line feed and of one carriage return. *)
Definition line_feed : string := String "010"%char EmptyString.
Definition carriage_return : string := String "013"%char EmptyString.

(** A record set with neither an alias target nor literal values. *)
Definition shapeless (recordSet : ResourceRecordSet.t) : Prop :=
  ResourceRecordSet.AliasTarget recordSet = None
  /\ ResourceRecordSet.ResourceRecords recordSet = None.

Definition put_recordSets (w : World) (hostedZone : ref)
    (recordSets : list ResourceRecordSet.t) : World :=
  mkWorld (update (heap w) hostedZone
             (HostedZone.with_recordSets (heap w hostedZone) recordSets))
          (sent w) (logged w) (printed w).

(** ** More vocabulary, for the proofs *)

(** The store after the ids of the listed zone objects have been replaced
    by their last tokens, one object after the other. *)
Definition normalize_all (h : Heap) (hostedZones : list ref) : Heap :=
  fold_left
    (fun h r => update h r (HostedZone.with_Id (h r) (last_token (HostedZone.Id (h r)))))
    hostedZones h.

(** The commands that ask for the pages of a zone listing, and of the
    record sets of a zone. *)
Definition zone_requests_from (marker : option string)
    (pages : list ListHostedZones.Response) : list Command :=
  map (fun m => ListHostedZonesCommand (ListHostedZones.mkParams m))
      (marker :: map ListHostedZones.NextMarker (removelast pages)).

Definition recordSet_requests_from (id : string) (startRecord : option StartRecord.t)
    (pages : list ListResourceRecordSets.Response) : list Command :=
  map (fun start => ListResourceRecordSetsCommand (recordSets_params id start))
      (startRecord :: map (fun page => Some (next_record page)) (removelast pages)).

(** The computation leaves the world in the relation [P] to where it
    started, however it ends. *)
Definition preserves {A} (P : World -> World -> Prop) (c : M A) : Prop :=
  forall w, P w (fst (c w)).

(** Relations between the world before and the world after. *)
Definition same_heap (w w' : World) : Prop := heap w' = heap w.

Definition same_printed (w w' : World) : Prop := printed w' = printed w.

Definition same_sent (w w' : World) : Prop := sent w' = sent w.

Definition same_names (w w' : World) : Prop :=
  forall r, HostedZone.Id (heap w' r) = HostedZone.Id (heap w r)
            /\ HostedZone.Name (heap w' r) = HostedZone.Name (heap w r).

(** The world once a command is sent, and once the zones of the page that
    answers it are in. *)
Definition after_send (w : World) (command : Command) : World :=
  mkWorld (heap w) (sent w ++ [command]) (logged w) (printed w).

Definition after_zone_page (w : World) (command : Command)
    (page : ListHostedZones.Response) : World :=
  mkWorld (normalize_all (heap w) (ListHostedZones.HostedZones page))
          (sent w ++ [command]) (logged w) (printed w).

(** Every command of the list was answered with a response. *)
Fixpoint all_answered (client : Client) (history : list Command)
    (commands : list Command) : Prop :=
  match commands with
  | [] => True
  | command :: later =>
      rejection client history command = None
      /\ all_answered client (history ++ [command]) later
  end.

(** The commands a computation sends were all answered and it does not end
    with an error of the client, or the last command it sent was rejected,
    the ones before it were answered, and it throws that rejection. *)
Definition disciplined {A} (client : Client) (c : M A) : Prop :=
  forall w, exists commands,
    sent (fst (c w)) = sent w ++ commands
    /\ ((all_answered client (sent w) commands
         /\ forall code, snd (c w) <> Throw (ApiError code))
        \/ exists before command code,
             commands = before ++ [command]
             /\ all_answered client (sent w) before
             /\ rejection client (sent w ++ before) command = Some code
             /\ snd (c w) = Throw (ApiError code)).

(** The world with more lines logged; the line a record set without values
    gets; and the lines the matcher logs on an aggregate. *)
Definition log_more (w : World) (entries : list LogEntry) : World :=
  mkWorld (heap w) (sent w) (logged w ++ entries) (printed w).

Definition anomaly_log (recordSet : ResourceRecordSet.t) : list LogEntry :=
  match ResourceRecordSet.AliasTarget recordSet,
        ResourceRecordSet.ResourceRecords recordSet with
  | None, None => [InfoNoRecords recordSet]
  | _, _ => []
  end.

Definition matcher_log (h : Heap) (hostedZones : JSSet.t) : list LogEntry :=
  flat_map (fun hostedZone =>
              match HostedZone.recordSets (h hostedZone) with
              | Some recordSets => flat_map anomaly_log recordSets
              | None => []
              end) hostedZones.

(** The rows whose value matches, in their order. *)
Definition matching (options : Options) (rows : list ResultRow) : list ResultRow :=
  filter (fun row => matches options (recordValue row)) rows.

(** Two worlds whose zones have the same ids and names. *)
Definition similar (w1 w2 : World) : Prop :=
  forall r, HostedZone.Id (heap w1 r) = HostedZone.Id (heap w2 r)
            /\ HostedZone.Name (heap w1 r) = HostedZone.Name (heap w2 r).

(** The aggregates of two worlds are the same but for one record set
    without values, which the first has in the zone [z] and the second has
    not. *)
Definition one_less (z : ref) (before : list ResourceRecordSet.t)
    (rs : ResourceRecordSet.t) (after : list ResourceRecordSet.t)
    (w1 w2 : World) : Prop :=
  similar w1 w2
  /\ HostedZone.recordSets (heap w1 z) = Some (before ++ rs :: after)
  /\ HostedZone.recordSets (heap w2 z) = Some (before ++ after)
  /\ forall r, r <> z ->
       HostedZone.recordSets (heap w1 r) = HostedZone.recordSets (heap w2 r).

(** ** Vocabulary for the properties beyond the claims *)

(** The zone object has its record sets. *)
Definition populated (w : World) (z : ref) : Prop :=
  HostedZone.recordSets (heap w z) <> None.

Definition keeps_populated (w w' : World) : Prop :=
  forall z, populated w z -> populated w' z.

(** The log after is the log before and more. *)
Definition log_grows (w w' : World) : Prop :=
  exists more, logged w' = logged w ++ more.




(** The command asks for the record sets of a zone whose id has no slash;
    a command that lists zones passes. *)
Definition asks_bare_id (command : Command) : Prop :=
  match command with
  | ListHostedZonesCommand _ => True
  | ListResourceRecordSetsCommand params =>
      has_slash (ListResourceRecordSets.HostedZoneId params) = false
  end.

(** The part of [run] before the matcher: the zones are listed, then the
    record sets of each, and the set of zones is what is left. *)
Definition aggregate (client : Client) (fuel : nat) : M JSSet.t :=
  log_info (Info "Resolving hosted zones...") ;;
  hostedZones <- _listHostedZones client fuel JSSet.empty None ;;
  log_info (InfoResolved (JSSet.size hostedZones)) ;;
  log_info (Info "Resolving record sets...") ;;
  _getRecordSetsForZones client fuel hostedZones ;;
  log_info (Info "Record sets resolved") ;;
  log_info (Info "Finding matching records...") ;;
  ret hostedZones.

(** The part of [run] before the report: the aggregate, then the matcher. *)
Definition search (client : Client) (options : Options) (fuel : nat)
  : M (list ResultRow) :=
  hostedZones <- aggregate client fuel ;;
  _findRecord options hostedZones.

(** Whatever the computation throws is a [Q]. *)
Definition throws_only {A} (Q : Exn -> Prop) (c : M A) : Prop :=
  forall w e, snd (c w) = Throw e -> Q e.

Definition is_ApiError (e : Exn) : Prop := exists code, e = ApiError code.

Definition is_bad_pattern (options : Options) (e : Exn) : Prop :=
  e = SyntaxError
  /\ Cli.match' options = regex /\ new_RegExp runtime (Cli.record options) = None.

(** The ids of the zone objects of the set have no slash. *)
Definition bare_ids (w : World) (hostedZones : list ref) : Prop :=
  forall z, In z hostedZones -> has_slash (HostedZone.Id (heap w z)) = false.

(** The computation adds to the list [proj] of the world, and what it adds
    are [P]s. *)
Definition appends {A T} (proj : World -> list T) (P : T -> Prop) (c : M A) : Prop :=
  forall w, exists more, proj (fst (c w)) = proj w ++ more /\ Forall P more.

(** A line that tells of a record set without values. *)
Definition tells_of_shapeless (entry : LogEntry) : Prop :=
  exists recordSet, entry = InfoNoRecords recordSet /\ shapeless recordSet.

(** ** Strings: [split] and [pop] *)

Lemma split_not_nil (sep : ascii) (s : string) : split sep s <> [].
Proof.
  destruct s as [|c s]; simpl; [discriminate|].
  destruct (Ascii.eqb c sep); [discriminate|].
  destruct (split sep s); discriminate.
Qed.

Lemma pop_app (before after : list string) :
  after <> [] -> pop (before ++ after) = pop after.
Proof.
  intros Hafter. unfold pop. rewrite rev_app_distr.
  destruct (rev after) as [|piece pieces] eqn:Hrev; [|reflexivity].
  apply (f_equal (@rev string)) in Hrev. rewrite rev_involutive in Hrev.
  contradiction.
Qed.

Lemma split_app (sep : ascii) (before after : string) :
  split sep (before ++ String sep after)%string
  = split sep before ++ split sep after.
Proof.
  induction before as [|c before IH]; simpl.
  - rewrite Ascii.eqb_refl. reflexivity.
  - destruct (Ascii.eqb c sep); rewrite IH; [reflexivity|].
    destruct (split sep before) as [|piece pieces] eqn:Hsplit; [|reflexivity].
    exfalso. exact (split_not_nil _ _ Hsplit).
Qed.

Lemma split_no_slash (s : string) : has_slash s = false -> split "/" s = [s].
Proof.
  induction s as [|c s IH]; simpl; [reflexivity|].
  intros H. apply orb_false_iff in H. destruct H as [Hc Hs].
  rewrite Hc, (IH Hs). reflexivity.
Qed.

Lemma split_pieces_no_slash (s piece : string) :
  In piece (split "/" s) -> has_slash piece = false.
Proof.
  revert piece. induction s as [|c s IH]; simpl; intros piece Hin.
  - destruct Hin as [<-|[]]. reflexivity.
  - destruct (Ascii.eqb c "/") eqn:Hc.
    + destruct Hin as [<-|Hin]; [reflexivity|auto].
    + destruct (split "/" s) as [|first rest].
      * destruct Hin as [<-|[]]. simpl. rewrite Hc. reflexivity.
      * destruct Hin as [<-|Hin].
        -- simpl. rewrite Hc. apply IH. left. reflexivity.
        -- apply IH. right. exact Hin.
Qed.

Lemma pop_In (pieces : list string) (piece : string) :
  pop pieces = Some piece -> In piece pieces.
Proof.
  unfold pop. destruct (rev pieces) as [|p ps] eqn:Hrev; [discriminate|].
  intros [= <-]. apply in_rev. rewrite Hrev. left. reflexivity.
Qed.

Lemma pop_split (s : string) : pop (split "/" s) = Some (last_token s).
Proof.
  unfold last_token. destruct (pop (split "/" s)) as [token|] eqn:Hpop; [reflexivity|].
  exfalso. unfold pop in Hpop.
  destruct (rev (split "/" s)) as [|p ps] eqn:Hrev; [|discriminate].
  apply (f_equal (@rev string)) in Hrev. rewrite rev_involutive in Hrev.
  exact (split_not_nil _ _ Hrev).
Qed.

Lemma last_token_no_slash (s : string) : has_slash (last_token s) = false.
Proof.
  apply (split_pieces_no_slash s). apply pop_In. apply pop_split.
Qed.

Lemma last_token_bare (s : string) : has_slash s = false -> last_token s = s.
Proof.
  intros H. unfold last_token. rewrite (split_no_slash s H). reflexivity.
Qed.

Lemma last_token_path (prefix token : string) :
  has_slash token = false ->
  last_token (prefix ++ String "/" token)%string = token.
Proof.
  intros H. unfold last_token.
  rewrite split_app, pop_app by apply split_not_nil.
  rewrite (split_no_slash token H). reflexivity.
Qed.

Lemma last_token_idempotent (s : string) :
  last_token (last_token s) = last_token s.
Proof. apply last_token_bare, last_token_no_slash. Qed.

(** ** Sets of objects *)

Lemma has_In (s : JSSet.t) (r : ref) : JSSet.has s r = true <-> In r s.
Proof.
  unfold JSSet.has. rewrite existsb_exists. split.
  - intros [x [Hin Heq]]. apply Nat.eqb_eq in Heq. subst. exact Hin.
  - intros Hin. exists r. split; [exact Hin|apply Nat.eqb_refl].
Qed.

Lemma add_present (s : JSSet.t) (r : ref) : In r s -> JSSet.add s r = s.
Proof.
  intros Hin. unfold JSSet.add. apply has_In in Hin. rewrite Hin. reflexivity.
Qed.

Lemma In_add (s : JSSet.t) (r x : ref) : In x (JSSet.add s r) <-> In x s \/ x = r.
Proof.
  unfold JSSet.add. destruct (JSSet.has s r) eqn:Hhas.
  - apply has_In in Hhas. split; [auto|]. intros [H| ->]; assumption.
  - rewrite in_app_iff. simpl. intuition.
Qed.

Lemma NoDup_add (s : JSSet.t) (r : ref) : NoDup s -> NoDup (JSSet.add s r).
Proof.
  intros Hs. unfold JSSet.add. destruct (JSSet.has s r) eqn:Hhas; [exact Hs|].
  assert (~ In r s) as Hnot.
  { intros Hin. apply has_In in Hin. congruence. }
  clear Hhas. induction Hs as [|x s Hx Hs IH]; simpl.
  - constructor; [intros []|constructor].
  - constructor.
    + rewrite in_app_iff. simpl. intros [H|[H|[]]]; [auto|].
      subst. apply Hnot. left. reflexivity.
    + apply IH. intros H. apply Hnot. right. exact H.
Qed.

Lemma In_fold_add (rs : list ref) (s : JSSet.t) (x : ref) :
  In x (fold_left JSSet.add rs s) <-> In x s \/ In x rs.
Proof.
  revert s. induction rs as [|r rs IH]; intros s; simpl.
  - intuition.
  - rewrite IH, In_add. intuition.
Qed.

Lemma NoDup_fold_add (rs : list ref) (s : JSSet.t) :
  NoDup s -> NoDup (fold_left JSSet.add rs s).
Proof.
  revert s. induction rs as [|r rs IH]; intros s Hs; simpl; [exact Hs|].
  apply IH, NoDup_add, Hs.
Qed.

(** ** The store *)

Lemma update_same (h : Heap) (r : ref) (z : HostedZone.t) : update h r z r = z.
Proof. unfold update. rewrite Nat.eqb_refl. reflexivity. Qed.

Lemma update_other (h : Heap) (r r' : ref) (z : HostedZone.t) :
  r' <> r -> update h r z r' = h r'.
Proof.
  intros Hne. unfold update. apply Nat.eqb_neq in Hne. rewrite Hne. reflexivity.
Qed.

Lemma normalize_all_other (zs : list ref) (h : Heap) (r : ref) :
  ~ In r zs -> normalize_all h zs r = h r.
Proof.
  revert h. induction zs as [|z zs IH]; intros h Hnot; simpl; [reflexivity|].
  unfold normalize_all in *. simpl. rewrite IH.
  - apply update_other. intros ->. apply Hnot. left. reflexivity.
  - intros H. apply Hnot. right. exact H.
Qed.

Lemma normalize_all_Name (zs : list ref) (h : Heap) (r : ref) :
  HostedZone.Name (normalize_all h zs r) = HostedZone.Name (h r)
  /\ HostedZone.recordSets (normalize_all h zs r) = HostedZone.recordSets (h r).
Proof.
  revert h. induction zs as [|z zs IH]; intros h; [split; reflexivity|].
  unfold normalize_all in *. simpl.
  destruct (IH (update h z (HostedZone.with_Id (h z) (last_token (HostedZone.Id (h z))))))
    as [-> ->].
  unfold update. destruct (Nat.eqb r z) eqn:Heq; [|split; reflexivity].
  apply Nat.eqb_eq in Heq. subst. split; reflexivity.
Qed.

Lemma normalize_all_Id (zs : list ref) (h : Heap) (r : ref) :
  In r zs ->
  HostedZone.Id (normalize_all h zs r) = last_token (HostedZone.Id (h r)).
Proof.
  revert h. induction zs as [|z zs IH]; intros h Hin; [destruct Hin|].
  unfold normalize_all in *. simpl.
  set (h1 := update h z (HostedZone.with_Id (h z) (last_token (HostedZone.Id (h z))))).
  destruct (in_dec Nat.eq_dec r zs) as [Hlater|Hlater].
  - rewrite (IH h1 Hlater). unfold h1, update.
    destruct (Nat.eqb r z) eqn:Heq; [|reflexivity].
    apply Nat.eqb_eq in Heq. subst. simpl. apply last_token_idempotent.
  - fold (normalize_all h1 zs). rewrite (normalize_all_other zs h1 r Hlater).
    destruct Hin as [->|Hin]; [|contradiction].
    unfold h1. rewrite update_same. reflexivity.
Qed.

(** ** The zone enumerator *)

Section Enumerators.

Variable client : Client.

Lemma normalize_Id_run (r : ref) (w : World) :
  normalize_Id r w
  = (mkWorld (normalize_all (heap w) [r]) (sent w) (logged w) (printed w),
     Return tt).
Proof.
  unfold normalize_Id, bind, get_Id. rewrite pop_split. reflexivity.
Qed.

Lemma zones_of_page_run (zones : list ref) (s : JSSet.t) (w : World) :
  for_of zones s
    (fun hostedZones hostedZone =>
       normalize_Id hostedZone ;; ret (JSSet.add hostedZones hostedZone)) w
  = (mkWorld (normalize_all (heap w) zones) (sent w) (logged w) (printed w),
     Return (fold_left JSSet.add zones s)).
Proof.
  revert s w. induction zones as [|z zones IH]; intros s w.
  - destruct w. reflexivity.
  - simpl. unfold bind at 1. unfold bind at 1. rewrite normalize_Id_run.
    unfold ret at 1. rewrite IH. reflexivity.
Qed.

Lemma listHostedZones_pages (pages : list ListHostedZones.Response) :
  forall (fuel : nat) (s : JSSet.t) (marker : option string) (w : World),
    zone_listing client (sent w) marker pages ->
    length pages <= fuel ->
    _listHostedZones client fuel s marker w
    = (mkWorld
         (normalize_all (heap w) (concat (map ListHostedZones.HostedZones pages)))
         (sent w ++ zone_requests_from marker pages) (logged w) (printed w),
       Return (fold_left JSSet.add
                 (concat (map ListHostedZones.HostedZones pages)) s)).
Proof.
  induction pages as [|page later IH]; intros fuel s marker w Hlisting Hfuel;
    [destruct Hlisting|].
  destruct fuel as [|fuel]; [simpl in Hfuel; lia|].
  destruct Hlisting as [Hanswer Hlater].
  cbn [_listHostedZones]. unfold bind at 1, send_ListHostedZones.
  rewrite Hanswer. cbn [of_response]. unfold bind at 1.
  rewrite zones_of_page_run. cbn [heap sent logged printed].
  destruct later as [|page' later'].
  - rewrite Hlater. unfold ret. simpl. rewrite app_nil_r. reflexivity.
  - destruct Hlater as [Htruncated Hlater]. rewrite Htruncated.
    rewrite IH; [|exact Hlater|simpl in *; lia].
    cbn [heap sent logged printed map concat].
    unfold normalize_all. rewrite !fold_left_app, <- app_assoc. reflexivity.
Qed.

(** ** The record set enumerator *)

Lemma getRecordSetsForZone_pages (pages : list ListResourceRecordSets.Response) :
  forall (fuel : nat) (hostedZone : ref) (recordSets : list ResourceRecordSet.t)
         (startRecord : option StartRecord.t) (w : World),
    recordSet_listing client (sent w) (HostedZone.Id (heap w hostedZone))
      startRecord pages ->
    length pages <= fuel ->
    _getRecordSetsForZone client fuel hostedZone recordSets startRecord w
    = (mkWorld (heap w)
         (sent w ++ recordSet_requests_from (HostedZone.Id (heap w hostedZone))
                      startRecord pages)
         (logged w) (printed w),
       Return (recordSets
               ++ concat (map ListResourceRecordSets.ResourceRecordSets pages))).
Proof.
  induction pages as [|page later IH];
    intros fuel hostedZone recordSets startRecord w Hlisting Hfuel;
    [destruct Hlisting|].
  destruct fuel as [|fuel]; [simpl in Hfuel; lia|].
  destruct Hlisting as [Hanswer Hlater].
  cbn [_getRecordSetsForZone]. unfold bind at 1, get_Id.
  unfold bind at 1, send_ListResourceRecordSets.
  fold (recordSets_params (HostedZone.Id (heap w hostedZone)) startRecord).
  rewrite Hanswer. cbn [of_response].
  destruct later as [|page' later'].
  - rewrite Hlater. unfold ret. simpl. rewrite app_nil_r. reflexivity.
  - destruct Hlater as [Htruncated Hlater]. rewrite Htruncated.
    fold (next_record page).
    rewrite IH; [|exact Hlater|simpl in *; lia].
    cbn [heap sent logged printed map concat].
    rewrite <- !app_assoc. reflexivity.
Qed.

End Enumerators.

(** ** What a computation leaves alone *)

Section Frames.

Variable P : World -> World -> Prop.
Hypothesis P_refl : forall w, P w w.
Hypothesis P_trans : forall w1 w2 w3, P w1 w2 -> P w2 w3 -> P w1 w3.

Lemma preserves_lift {A} (o : Outcome A) : preserves P (lift o).
Proof. intros w. apply P_refl. Qed.

Lemma preserves_ret {A} (a : A) : preserves P (ret a).
Proof. intros w. apply P_refl. Qed.

Lemma preserves_throw {A} (e : Exn) : preserves P (@throw A e).
Proof. intros w. apply P_refl. Qed.

Lemma preserves_out_of_fuel {A} : preserves P (@out_of_fuel A).
Proof. intros w. apply P_refl. Qed.

Lemma preserves_get_Id (r : ref) : preserves P (get_Id r).
Proof. intros w. apply P_refl. Qed.

Lemma preserves_get_Name (r : ref) : preserves P (get_Name r).
Proof. intros w. apply P_refl. Qed.

Lemma preserves_get_recordSets (r : ref) : preserves P (get_recordSets r).
Proof. intros w. apply P_refl. Qed.

Lemma preserves_bind {A B} (c : M A) (k : A -> M B) :
  preserves P c -> (forall a, preserves P (k a)) -> preserves P (bind c k).
Proof.
  intros Hc Hk w. unfold bind. specialize (Hc w).
  destruct (c w) as [w1 [a| |]]; simpl in *; try exact Hc.
  apply (P_trans _ w1); [exact Hc|apply Hk].
Qed.

Lemma preserves_for_of {A S} (xs : list A) (body : S -> A -> M S) :
  (forall s x, preserves P (body s x)) ->
  forall s, preserves P (for_of xs s body).
Proof.
  intros Hbody. induction xs as [|x xs IH]; intros s; simpl.
  - apply preserves_ret.
  - apply preserves_bind; [apply Hbody|exact IH].
Qed.

End Frames.

Lemma same_heap_trans (w1 w2 w3 : World) :
  same_heap w1 w2 -> same_heap w2 w3 -> same_heap w1 w3.
Proof. unfold same_heap. congruence. Qed.

Lemma same_printed_trans (w1 w2 w3 : World) :
  same_printed w1 w2 -> same_printed w2 w3 -> same_printed w1 w3.
Proof. unfold same_printed. congruence. Qed.

Lemma same_sent_trans (w1 w2 w3 : World) :
  same_sent w1 w2 -> same_sent w2 w3 -> same_sent w1 w3.
Proof. unfold same_sent. congruence. Qed.

Lemma same_names_refl (w : World) : same_names w w.
Proof. intros r. split; reflexivity. Qed.

Lemma same_names_trans (w1 w2 w3 : World) :
  same_names w1 w2 -> same_names w2 w3 -> same_names w1 w3.
Proof.
  intros H12 H23 r. destruct (H12 r), (H23 r). split; congruence.
Qed.

Lemma same_heap_refl (w : World) : same_heap w w.
Proof. reflexivity. Qed.

Lemma same_printed_refl (w : World) : same_printed w w.
Proof. reflexivity. Qed.

Lemma same_sent_refl (w : World) : same_sent w w.
Proof. reflexivity. Qed.

Create HintDb frames.
#[local] Hint Resolve same_heap_trans same_printed_trans same_sent_trans
  same_names_trans same_heap_refl same_printed_refl same_sent_refl
  same_names_refl : frames.

(** Breaks a computation into its steps, and closes the steps that are
    primitive or covered by a lemma in [frames]. *)
Ltac frame_side := solve [eauto with frames].
Ltac frame :=
  repeat first
    [ frame_side
    | apply preserves_bind; [frame_side| |intros]
    | apply preserves_for_of; [frame_side|frame_side|intros]
    | apply preserves_ret; frame_side
    | apply preserves_throw; frame_side
    | apply preserves_lift; frame_side
    | apply preserves_out_of_fuel; frame_side
    | apply preserves_get_Id; frame_side
    | apply preserves_get_Name; frame_side
    | apply preserves_get_recordSets; frame_side ].

Section FrameLemmas.

Variable client : Client.
Variable options : Options.

Lemma send_zones_same_heap params :
  preserves same_heap (send_ListHostedZones client params).
Proof. intros w. reflexivity. Qed.

Lemma send_zones_same_printed params :
  preserves same_printed (send_ListHostedZones client params).
Proof. intros w. reflexivity. Qed.

Lemma send_recordSets_same_heap params :
  preserves same_heap (send_ListResourceRecordSets client params).
Proof. intros w. reflexivity. Qed.

Lemma send_recordSets_same_printed params :
  preserves same_printed (send_ListResourceRecordSets client params).
Proof. intros w. reflexivity. Qed.

Lemma log_info_same_heap entry : preserves same_heap (log_info entry).
Proof. intros w. reflexivity. Qed.

Lemma log_info_same_printed entry : preserves same_printed (log_info entry).
Proof. intros w. reflexivity. Qed.

Lemma log_info_same_sent entry : preserves same_sent (log_info entry).
Proof. intros w. reflexivity. Qed.

Lemma set_Id_same_printed r id : preserves same_printed (set_Id r id).
Proof. intros w. reflexivity. Qed.

Lemma set_recordSets_same_printed r rs :
  preserves same_printed (set_recordSets r rs).
Proof. intros w. reflexivity. Qed.

Lemma set_recordSets_same_names r rs :
  preserves same_names (set_recordSets r rs).
Proof.
  intros w r'. simpl. unfold update.
  destruct (Nat.eqb r' r) eqn:Heq; [|split; reflexivity].
  apply Nat.eqb_eq in Heq. subst. split; reflexivity.
Qed.

Hint Resolve send_zones_same_heap send_zones_same_printed
  send_recordSets_same_heap send_recordSets_same_printed
  log_info_same_heap log_info_same_printed log_info_same_sent
  set_Id_same_printed set_recordSets_same_printed set_recordSets_same_names
  : frames.

Lemma getRecordSetsForZone_same_heap fuel z rs start :
  preserves same_heap (_getRecordSetsForZone client fuel z rs start).
Proof.
  revert rs start. induction fuel as [|fuel IH]; intros rs start; simpl.
  - frame.
  - frame. match goal with |- context [if ?b then _ else _] => destruct b end; frame.
Qed.

Lemma getRecordSetsForZone_same_printed fuel z rs start :
  preserves same_printed (_getRecordSetsForZone client fuel z rs start).
Proof.
  revert rs start. induction fuel as [|fuel IH]; intros rs start; simpl.
  - frame.
  - frame. match goal with |- context [if ?b then _ else _] => destruct b end; frame.
Qed.

Lemma same_heap_names (w w' : World) : same_heap w w' -> same_names w w'.
Proof. intros H r. rewrite H. split; reflexivity. Qed.

Lemma getRecordSetsForZone_same_names fuel z rs start :
  preserves same_names (_getRecordSetsForZone client fuel z rs start).
Proof.
  intros w. apply same_heap_names, getRecordSetsForZone_same_heap.
Qed.

Hint Resolve getRecordSetsForZone_same_printed getRecordSetsForZone_same_names
  : frames.

Lemma getRecordSetsForZones_same_names fuel zs :
  preserves same_names (_getRecordSetsForZones client fuel zs).
Proof. unfold _getRecordSetsForZones. frame. Qed.

Lemma getRecordSetsForZones_same_printed fuel zs :
  preserves same_printed (_getRecordSetsForZones client fuel zs).
Proof. unfold _getRecordSetsForZones. frame. Qed.

Lemma normalize_Id_same_printed r : preserves same_printed (normalize_Id r).
Proof.
  unfold normalize_Id. frame.
  match goal with |- context [match ?o with Some _ => _ | None => _ end] => destruct o end; frame.
Qed.

Hint Resolve normalize_Id_same_printed : frames.

Lemma listHostedZones_same_printed fuel s marker :
  preserves same_printed (_listHostedZones client fuel s marker).
Proof.
  revert s marker. induction fuel as [|fuel IH]; intros s marker; simpl.
  - frame.
  - frame. match goal with |- context [if ?b then _ else _] => destruct b end; frame.
Qed.

Lemma createResultEntry_same_heap z t n v :
  preserves same_heap (_createResultEntry z t n v).
Proof. unfold _createResultEntry. frame. Qed.

Lemma createResultEntry_same_printed z t n v :
  preserves same_printed (_createResultEntry z t n v).
Proof. unfold _createResultEntry. frame. Qed.

Lemma createResultEntry_same_sent z t n v :
  preserves same_sent (_createResultEntry z t n v).
Proof. unfold _createResultEntry. frame. Qed.

Hint Resolve createResultEntry_same_heap createResultEntry_same_printed
  createResultEntry_same_sent : frames.

Lemma findRecord_in_recordSet_same_heap z acc rs :
  preserves same_heap (_findRecord_in_recordSet options z acc rs).
Proof.
  unfold _findRecord_in_recordSet.
  destruct (ResourceRecordSet.AliasTarget rs);
    [|destruct (ResourceRecordSet.ResourceRecords rs)]; frame;
    match goal with |- context [if ?b then _ else _] => destruct b end; frame.
Qed.

Lemma findRecord_in_recordSet_same_printed z acc rs :
  preserves same_printed (_findRecord_in_recordSet options z acc rs).
Proof.
  unfold _findRecord_in_recordSet.
  destruct (ResourceRecordSet.AliasTarget rs);
    [|destruct (ResourceRecordSet.ResourceRecords rs)]; frame;
    match goal with |- context [if ?b then _ else _] => destruct b end; frame.
Qed.

Lemma findRecord_in_recordSet_same_sent z acc rs :
  preserves same_sent (_findRecord_in_recordSet options z acc rs).
Proof.
  unfold _findRecord_in_recordSet.
  destruct (ResourceRecordSet.AliasTarget rs);
    [|destruct (ResourceRecordSet.ResourceRecords rs)]; frame;
    match goal with |- context [if ?b then _ else _] => destruct b end; frame.
Qed.

Hint Resolve findRecord_in_recordSet_same_heap
  findRecord_in_recordSet_same_printed findRecord_in_recordSet_same_sent
  : frames.

Lemma findRecord_in_zone_same_heap acc z :
  preserves same_heap (_findRecord_in_zone options acc z).
Proof.
  unfold _findRecord_in_zone. frame.
  match goal with |- context [match ?o with Some _ => _ | None => _ end] => destruct o end; frame.
Qed.

Lemma findRecord_same_heap zs : preserves same_heap (_findRecord options zs).
Proof.
  unfold _findRecord. apply preserves_for_of;
    [apply same_heap_refl|apply same_heap_trans|].
  intros. apply findRecord_in_zone_same_heap.
Qed.

Lemma findRecord_in_zone_same_printed acc z :
  preserves same_printed (_findRecord_in_zone options acc z).
Proof.
  unfold _findRecord_in_zone. frame.
  match goal with |- context [match ?o with Some _ => _ | None => _ end] => destruct o end; frame.
Qed.

Lemma findRecord_same_printed zs : preserves same_printed (_findRecord options zs).
Proof.
  unfold _findRecord. apply preserves_for_of;
    [apply same_printed_refl|apply same_printed_trans|].
  intros. apply findRecord_in_zone_same_printed.
Qed.

Lemma findRecord_in_zone_same_sent acc z :
  preserves same_sent (_findRecord_in_zone options acc z).
Proof.
  unfold _findRecord_in_zone. frame.
  match goal with |- context [match ?o with Some _ => _ | None => _ end] => destruct o end; frame.
Qed.

Lemma findRecord_same_sent zs : preserves same_sent (_findRecord options zs).
Proof.
  unfold _findRecord. apply preserves_for_of;
    [apply same_sent_refl|apply same_sent_trans|].
  intros. apply findRecord_in_zone_same_sent.
Qed.

End FrameLemmas.

(** ** One page at a time *)

Section Steps.

Variable client : Client.

Lemma getRecordSetsForZone_step fuel z rs start w :
  _getRecordSetsForZone client (S fuel) z rs start w
  = let params := recordSets_params (HostedZone.Id (heap w z)) start in
    let w1 := after_send w (ListResourceRecordSetsCommand params) in
    match listResourceRecordSets client (sent w) params with
    | inl code => (w1, Throw (ApiError code))
    | inr page =>
        if ListResourceRecordSets.IsTruncated page then
          _getRecordSetsForZone client fuel z
            (rs ++ ListResourceRecordSets.ResourceRecordSets page)
            (Some (next_record page)) w1
        else (w1, Return (rs ++ ListResourceRecordSets.ResourceRecordSets page))
    end.
Proof.
  cbn [_getRecordSetsForZone]. unfold bind at 1, get_Id.
  unfold bind at 1, send_ListResourceRecordSets.
  fold (recordSets_params (HostedZone.Id (heap w z)) start). cbv zeta.
  destruct (listResourceRecordSets client (sent w)
              (recordSets_params (HostedZone.Id (heap w z)) start))
    as [code|page]; [reflexivity|].
  cbn [of_response].
  destruct (ListResourceRecordSets.IsTruncated page); reflexivity.
Qed.

Lemma listHostedZones_step fuel s marker w :
  _listHostedZones client (S fuel) s marker w
  = let command := ListHostedZonesCommand (ListHostedZones.mkParams marker) in
    match listHostedZones client (sent w) (ListHostedZones.mkParams marker) with
    | inl code => (after_send w command, Throw (ApiError code))
    | inr page =>
        let hostedZones := fold_left JSSet.add (ListHostedZones.HostedZones page) s in
        if ListHostedZones.IsTruncated page then
          _listHostedZones client fuel hostedZones
            (ListHostedZones.NextMarker page) (after_zone_page w command page)
        else (after_zone_page w command page, Return hostedZones)
    end.
Proof.
  cbn [_listHostedZones]. unfold bind at 1, send_ListHostedZones. cbv zeta.
  destruct (listHostedZones client (sent w) (ListHostedZones.mkParams marker))
    as [code|page]; [reflexivity|].
  cbn [of_response]. unfold bind at 1. rewrite zones_of_page_run.
  destruct (ListHostedZones.IsTruncated page); reflexivity.
Qed.

End Steps.

(** ** Cursors *)

Section Cursors.

Variable client : Client.

Lemma getRecordSetsForZone_trace (fuel : nat) (z : ref) :
  forall (rs : list ResourceRecordSet.t) (start : option StartRecord.t) (w : World),
    sent (fst (_getRecordSetsForZone client fuel z rs start w))
    = sent w
      ++ fst (recordSet_trace client (sent w) (HostedZone.Id (heap w z)) start fuel)
    /\ ends_as
         (snd (recordSet_trace client (sent w) (HostedZone.Id (heap w z)) start fuel))
         (snd (_getRecordSetsForZone client fuel z rs start w)).
Proof.
  induction fuel as [|fuel IH]; intros rs start w.
  - simpl. rewrite app_nil_r. split; reflexivity.
  - rewrite getRecordSetsForZone_step. cbv zeta. cbn [recordSet_trace].
    destruct (listResourceRecordSets client (sent w)
                (recordSets_params (HostedZone.Id (heap w z)) start))
      as [code|page]; [split; reflexivity|].
    destruct (ListResourceRecordSets.IsTruncated page); [|split; reflexivity].
    specialize (IH (rs ++ ListResourceRecordSets.ResourceRecordSets page)
                  (Some (next_record page))
                  (after_send w
                     (ListResourceRecordSetsCommand
                        (recordSets_params (HostedZone.Id (heap w z)) start)))).
    cbn [after_send heap sent] in IH.
    destruct (recordSet_trace client _ _ _ fuel) as [later ending].
    cbn [fst snd] in *. destruct IH as [-> Hend].
    split; [rewrite <- app_assoc; reflexivity|exact Hend].
Qed.

Lemma listHostedZones_trace (fuel : nat) :
  forall (s : JSSet.t) (marker : option string) (w : World),
    sent (fst (_listHostedZones client fuel s marker w))
    = sent w ++ fst (zone_trace client (sent w) marker fuel)
    /\ ends_as (snd (zone_trace client (sent w) marker fuel))
         (snd (_listHostedZones client fuel s marker w)).
Proof.
  induction fuel as [|fuel IH]; intros s marker w.
  - simpl. rewrite app_nil_r. split; reflexivity.
  - rewrite listHostedZones_step. cbv zeta. cbn [zone_trace].
    destruct (listHostedZones client (sent w) (ListHostedZones.mkParams marker))
      as [code|page]; [split; reflexivity|].
    destruct (ListHostedZones.IsTruncated page); [|split; reflexivity].
    specialize (IH (fold_left JSSet.add (ListHostedZones.HostedZones page) s)
                  (ListHostedZones.NextMarker page)
                  (after_zone_page w
                     (ListHostedZonesCommand (ListHostedZones.mkParams marker))
                     page)).
    cbn [after_zone_page heap sent] in IH.
    destruct (zone_trace client _ _ fuel) as [later ending].
    cbn [fst snd] in *. destruct IH as [-> Hend].
    split; [rewrite <- app_assoc; reflexivity|exact Hend].
Qed.

Lemma recordSet_trace_head (fuel : nat) history id start :
  hd_error (fst (recordSet_trace client history id start (S fuel)))
  = Some (ListResourceRecordSetsCommand (recordSets_params id start)).
Proof.
  cbn [recordSet_trace].
  destruct (listResourceRecordSets client history (recordSets_params id start))
    as [code|page]; [reflexivity|].
  destruct (ListResourceRecordSets.IsTruncated page); [|reflexivity].
  destruct (recordSet_trace client _ _ _ fuel). reflexivity.
Qed.

Lemma zone_trace_head (fuel : nat) history marker :
  hd_error (fst (zone_trace client history marker (S fuel)))
  = Some (ListHostedZonesCommand (ListHostedZones.mkParams marker)).
Proof.
  cbn [zone_trace].
  destruct (listHostedZones client history (ListHostedZones.mkParams marker))
    as [code|page]; [reflexivity|].
  destruct (ListHostedZones.IsTruncated page); [|reflexivity].
  destruct (zone_trace client _ _ fuel). reflexivity.
Qed.

Lemma nth_error_one {A} (a b : A) (i : nat) :
  nth_error [a] i = Some b -> i = 0 /\ b = a.
Proof.
  destruct i as [|i]; simpl.
  - intros [= <-]. split; reflexivity.
  - destruct i; discriminate.
Qed.

(** Position by position: each command is answered, and the answer decides
    what follows. *)
Lemma recordSet_trace_positions (fuel : nat) :
  forall history id start i command,
    nth_error (fst (recordSet_trace client history id start fuel)) i = Some command ->
    exists params,
      command = ListResourceRecordSetsCommand params
      /\ match listResourceRecordSets client
                 (history ++ firstn i (fst (recordSet_trace client history id start fuel)))
                 params with
         | inl code =>
             length (fst (recordSet_trace client history id start fuel)) = S i
             /\ snd (recordSet_trace client history id start fuel) = Rejected code
         | inr page =>
             if ListResourceRecordSets.IsTruncated page then
               if (S i <? fuel)%nat then
                 nth_error (fst (recordSet_trace client history id start fuel)) (S i)
                 = Some (ListResourceRecordSetsCommand
                           (recordSets_params id (Some (next_record page))))
               else
                 length (fst (recordSet_trace client history id start fuel)) = S i
                 /\ snd (recordSet_trace client history id start fuel) = Exhausted
             else
               length (fst (recordSet_trace client history id start fuel)) = S i
               /\ snd (recordSet_trace client history id start fuel) = Finished
         end.
Proof.
  induction fuel as [|fuel IH]; intros history id start i command.
  - destruct i; discriminate.
  - cbn [recordSet_trace].
    destruct (listResourceRecordSets client history (recordSets_params id start))
      as [code|page] eqn:Hanswer.
    + cbn [fst snd]. intros Hnth. apply nth_error_one in Hnth.
      destruct Hnth as [-> ->]. eexists. split; [reflexivity|].
      cbn [firstn]. rewrite app_nil_r, Hanswer. split; reflexivity.
    + destruct (ListResourceRecordSets.IsTruncated page) eqn:Htruncated.
      * pose proof (IH (history
                        ++ [ListResourceRecordSetsCommand (recordSets_params id start)])
                      id (Some (next_record page))) as IH'.
        destruct fuel as [|fuel'].
        -- cbn [recordSet_trace fst snd] in *. intros Hnth.
           apply nth_error_one in Hnth. destruct Hnth as [-> ->].
           eexists. split; [reflexivity|].
           cbn [firstn]. rewrite app_nil_r, Hanswer, Htruncated.
           split; reflexivity.
        -- pose proof (recordSet_trace_head fuel'
                         (history ++ [ListResourceRecordSetsCommand
                                        (recordSets_params id start)])
                         id (Some (next_record page))) as Hhead.
           destruct (recordSet_trace client _ id (Some (next_record page)) (S fuel'))
             as [later ending].
           cbn [fst snd] in *. destruct i as [|i]; cbn [nth_error firstn].
           ++ intros [= <-]. eexists. split; [reflexivity|].
              rewrite app_nil_r, Hanswer, Htruncated.
              destruct later; exact Hhead.
           ++ intros Hnth. destruct (IH' i command Hnth) as [params [-> Hcase]].
              exists params. split; [reflexivity|].
              rewrite <- app_assoc in Hcase. cbn [app] in Hcase.
              destruct (listResourceRecordSets client _ params) as [code'|page'].
              ** destruct Hcase as [Hlen ->]. cbn [length]. rewrite Hlen.
                     split; reflexivity.
              ** destruct (ListResourceRecordSets.IsTruncated page').
                 --- change (S (S i) <? S (S fuel'))%nat with (S i <? S fuel')%nat.
                     destruct (S i <? S fuel')%nat; [exact Hcase|].
                     destruct Hcase as [Hlen ->]. cbn [length]. rewrite Hlen.
                     split; reflexivity.
                 --- destruct Hcase as [Hlen ->]. cbn [length]. rewrite Hlen.
                     split; reflexivity.
      * cbn [fst snd]. intros Hnth. apply nth_error_one in Hnth.
        destruct Hnth as [-> ->]. eexists. split; [reflexivity|].
        cbn [firstn]. rewrite app_nil_r, Hanswer, Htruncated. split; reflexivity.
Qed.

Lemma zone_trace_positions (fuel : nat) :
  forall history marker i command,
    nth_error (fst (zone_trace client history marker fuel)) i = Some command ->
    exists params,
      command = ListHostedZonesCommand params
      /\ match listHostedZones client
                 (history ++ firstn i (fst (zone_trace client history marker fuel)))
                 params with
         | inl code =>
             length (fst (zone_trace client history marker fuel)) = S i
             /\ snd (zone_trace client history marker fuel) = Rejected code
         | inr page =>
             if ListHostedZones.IsTruncated page then
               if (S i <? fuel)%nat then
                 nth_error (fst (zone_trace client history marker fuel)) (S i)
                 = Some (ListHostedZonesCommand
                           (ListHostedZones.mkParams (ListHostedZones.NextMarker page)))
               else
                 length (fst (zone_trace client history marker fuel)) = S i
                 /\ snd (zone_trace client history marker fuel) = Exhausted
             else
               length (fst (zone_trace client history marker fuel)) = S i
               /\ snd (zone_trace client history marker fuel) = Finished
         end.
Proof.
  induction fuel as [|fuel IH]; intros history marker i command.
  - destruct i; discriminate.
  - cbn [zone_trace].
    destruct (listHostedZones client history (ListHostedZones.mkParams marker))
      as [code|page] eqn:Hanswer.
    + cbn [fst snd]. intros Hnth. apply nth_error_one in Hnth.
      destruct Hnth as [-> ->]. eexists. split; [reflexivity|].
      cbn [firstn]. rewrite app_nil_r, Hanswer. split; reflexivity.
    + destruct (ListHostedZones.IsTruncated page) eqn:Htruncated.
      * pose proof (IH (history
                        ++ [ListHostedZonesCommand (ListHostedZones.mkParams marker)])
                      (ListHostedZones.NextMarker page)) as IH'.
        destruct fuel as [|fuel'].
        -- cbn [zone_trace fst snd] in *. intros Hnth.
           apply nth_error_one in Hnth. destruct Hnth as [-> ->].
           eexists. split; [reflexivity|].
           cbn [firstn]. rewrite app_nil_r, Hanswer, Htruncated.
           split; reflexivity.
        -- pose proof (zone_trace_head fuel'
                         (history ++ [ListHostedZonesCommand
                                        (ListHostedZones.mkParams marker)])
                         (ListHostedZones.NextMarker page)) as Hhead.
           destruct (zone_trace client _ (ListHostedZones.NextMarker page) (S fuel'))
             as [later ending].
           cbn [fst snd] in *. destruct i as [|i]; cbn [nth_error firstn].
           ++ intros [= <-]. eexists. split; [reflexivity|].
              rewrite app_nil_r, Hanswer, Htruncated.
              destruct later; exact Hhead.
           ++ intros Hnth. destruct (IH' i command Hnth) as [params [-> Hcase]].
              exists params. split; [reflexivity|].
              rewrite <- app_assoc in Hcase. cbn [app] in Hcase.
              destruct (listHostedZones client _ params) as [code'|page'].
              ** destruct Hcase as [Hlen ->]. cbn [length]. rewrite Hlen.
                     split; reflexivity.
              ** destruct (ListHostedZones.IsTruncated page').
                 --- change (S (S i) <? S (S fuel'))%nat with (S i <? S fuel')%nat.
                     destruct (S i <? S fuel')%nat; [exact Hcase|].
                     destruct Hcase as [Hlen ->]. cbn [length]. rewrite Hlen.
                     split; reflexivity.
                 --- destruct Hcase as [Hlen ->]. cbn [length]. rewrite Hlen.
                     split; reflexivity.
      * cbn [fst snd]. intros Hnth. apply nth_error_one in Hnth.
        destruct Hnth as [-> ->]. eexists. split; [reflexivity|].
        cbn [firstn]. rewrite app_nil_r, Hanswer, Htruncated. split; reflexivity.
Qed.

End Cursors.

(** ** Failures of the client *)

Section Discipline.

Variable client : Client.

Lemma all_answered_app history before after :
  all_answered client history (before ++ after)
  <-> all_answered client history before
      /\ all_answered client (history ++ before) after.
Proof.
  revert history. induction before as [|c before IH]; intros history; simpl.
  - rewrite app_nil_r. tauto.
  - rewrite IH, <- app_assoc. simpl. tauto.
Qed.

Lemma disciplined_quiet {A} (c : M A) :
  preserves same_sent c ->
  (forall w code, snd (c w) <> Throw (ApiError code)) ->
  disciplined client c.
Proof.
  intros Hsent Hout w. exists []. rewrite app_nil_r. split; [apply Hsent|].
  left. split; [exact I|apply Hout].
Qed.

Lemma disciplined_bind {A B} (c : M A) (k : A -> M B) :
  disciplined client c -> (forall a, disciplined client (k a)) ->
  disciplined client (bind c k).
Proof.
  intros Hc Hk w. unfold bind. destruct (Hc w) as [first [Hsent Hfirst]].
  destruct (c w) as [w1 [a|e|]]; simpl in *.
  - destruct Hfirst as [[Hanswered _]|[? [? [? [_ [_ [_ Habs]]]]]]];
      [|discriminate].
    destruct (Hk a w1) as [second [Hsent' Hsecond]].
    exists (first ++ second). split.
    + rewrite Hsent', Hsent, app_assoc. reflexivity.
    + rewrite Hsent in Hsecond.
      destruct Hsecond as [[Hanswered' Hout]|[before [command [code [-> [Hb [Hr Ho]]]]]]].
      * left. split; [|exact Hout]. apply all_answered_app. tauto.
      * right. exists (first ++ before), command, code.
        rewrite !app_assoc. repeat split; try assumption.
        apply all_answered_app. tauto.
  - exists first. split; [exact Hsent|].
    destruct Hfirst as [[Hanswered Hout]|[before [command [code [-> [Hb [Hr Ho]]]]]]].
    + left. split; [exact Hanswered|]. intros code [= ->]. eapply Hout. reflexivity.
    + right. exists before, command, code. repeat split; try assumption.
      congruence.
  - exists first. split; [exact Hsent|].
    destruct Hfirst as [[Hanswered Hout]|[? [? [? [_ [_ [_ Habs]]]]]]];
      [|discriminate].
    left. split; [exact Hanswered|discriminate].
Qed.

Lemma disciplined_ret {A} (a : A) : disciplined client (ret a).
Proof. apply disciplined_quiet; [intros w; reflexivity|discriminate]. Qed.

Lemma disciplined_out_of_fuel {A} : disciplined client (@out_of_fuel A).
Proof. apply disciplined_quiet; [intros w; reflexivity|discriminate]. Qed.

Lemma disciplined_for_of {A S} (xs : list A) (body : S -> A -> M S) :
  (forall s x, disciplined client (body s x)) ->
  forall s, disciplined client (for_of xs s body).
Proof.
  intros Hbody. induction xs as [|x xs IH]; intros s; simpl.
  - apply disciplined_ret.
  - apply disciplined_bind; [apply Hbody|exact IH].
Qed.

Lemma disciplined_send_zones params :
  disciplined client (send_ListHostedZones client params).
Proof.
  intros w. exists [ListHostedZonesCommand params]. split; [reflexivity|].
  unfold send_ListHostedZones. simpl.
  destruct (listHostedZones client (sent w) params) as [code|page] eqn:Hanswer.
  - right. exists [], (ListHostedZonesCommand params), code.
    rewrite app_nil_r. simpl. rewrite Hanswer. repeat split.
  - left. simpl. repeat split. discriminate.
Qed.

Lemma disciplined_send_recordSets params :
  disciplined client (send_ListResourceRecordSets client params).
Proof.
  intros w. exists [ListResourceRecordSetsCommand params]. split; [reflexivity|].
  unfold send_ListResourceRecordSets. simpl.
  destruct (listResourceRecordSets client (sent w) params) as [code|page] eqn:Hanswer.
  - right. exists [], (ListResourceRecordSetsCommand params), code.
    rewrite app_nil_r. simpl. rewrite Hanswer. repeat split.
  - left. simpl. repeat split. discriminate.
Qed.

Lemma disciplined_normalize_Id r : disciplined client (normalize_Id r).
Proof.
  apply disciplined_quiet.
  - intros w. rewrite normalize_Id_run. reflexivity.
  - intros w code. rewrite normalize_Id_run. discriminate.
Qed.

Lemma disciplined_listHostedZones fuel :
  forall s marker, disciplined client (_listHostedZones client fuel s marker).
Proof.
  induction fuel as [|fuel IH]; intros s marker; simpl.
  - apply disciplined_out_of_fuel.
  - apply disciplined_bind; [apply disciplined_send_zones|intros page].
    apply disciplined_bind.
    + apply disciplined_for_of. intros s' z.
      apply disciplined_bind; [apply disciplined_normalize_Id|intros _].
      apply disciplined_ret.
    + intros s'. destruct (ListHostedZones.IsTruncated page);
        [apply IH|apply disciplined_ret].
Qed.

Lemma disciplined_getRecordSetsForZone fuel z :
  forall rs start, disciplined client (_getRecordSetsForZone client fuel z rs start).
Proof.
  induction fuel as [|fuel IH]; intros rs start; simpl.
  - apply disciplined_out_of_fuel.
  - apply disciplined_bind.
    + apply disciplined_quiet; [intros w; reflexivity|discriminate].
    + intros id. apply disciplined_bind; [apply disciplined_send_recordSets|].
      intros page. destruct (ListResourceRecordSets.IsTruncated page);
        [apply IH|apply disciplined_ret].
Qed.

Lemma disciplined_getRecordSetsForZones fuel zs :
  disciplined client (_getRecordSetsForZones client fuel zs).
Proof.
  unfold _getRecordSetsForZones. apply disciplined_for_of. intros [] z.
  apply disciplined_bind; [apply disciplined_getRecordSetsForZone|intros rs].
  apply disciplined_quiet; [intros w; reflexivity|discriminate].
Qed.

Lemma disciplined_log_info entry : disciplined client (log_info entry).
Proof. apply disciplined_quiet; [intros w; reflexivity|discriminate]. Qed.

Variable options : Options.

Lemma evaluateRecord_not_ApiError value code :
  _evaluateRecord options value <> Throw (ApiError code).
Proof.
  unfold _evaluateRecord. destruct (Cli.match' options); [discriminate|].
  destruct (new_RegExp runtime (Cli.record options)); discriminate.
Qed.

Lemma disciplined_evaluateRecord value :
  disciplined client (lift (_evaluateRecord options value)).
Proof.
  apply disciplined_quiet; [intros w; reflexivity|].
  intros w code. apply evaluateRecord_not_ApiError.
Qed.

Lemma disciplined_createResultEntry z t n v :
  disciplined client (_createResultEntry z t n v).
Proof.
  apply disciplined_quiet; [apply createResultEntry_same_sent|discriminate].
Qed.

Lemma disciplined_findRecord_in_recordSet z acc rs :
  disciplined client (_findRecord_in_recordSet options z acc rs).
Proof.
  unfold _findRecord_in_recordSet.
  destruct (ResourceRecordSet.AliasTarget rs) as [alias|].
  - apply disciplined_bind; [apply disciplined_evaluateRecord|intros [|]].
    + apply disciplined_bind; [apply disciplined_createResultEntry|intros row].
      apply disciplined_ret.
    + apply disciplined_ret.
  - destruct (ResourceRecordSet.ResourceRecords rs) as [records|].
    + apply disciplined_for_of. intros acc' r.
      apply disciplined_bind; [apply disciplined_evaluateRecord|intros [|]].
      * apply disciplined_bind; [apply disciplined_createResultEntry|intros row].
        apply disciplined_ret.
      * apply disciplined_ret.
    + apply disciplined_bind; [apply disciplined_log_info|intros _].
      apply disciplined_ret.
Qed.

Lemma disciplined_findRecord zs : disciplined client (_findRecord options zs).
Proof.
  unfold _findRecord. apply disciplined_for_of. intros acc z.
  unfold _findRecord_in_zone. apply disciplined_bind.
  - apply disciplined_quiet; [intros w; reflexivity|discriminate].
  - intros [recordSets|].
    + apply disciplined_for_of. intros. apply disciplined_findRecord_in_recordSet.
    + apply disciplined_quiet; [intros w; reflexivity|discriminate].
Qed.

Lemma disciplined_aggregate fuel : disciplined client (aggregate client fuel).
Proof.
  unfold aggregate.
  repeat first
    [ apply disciplined_log_info
    | apply disciplined_listHostedZones
    | apply disciplined_getRecordSetsForZones
    | apply disciplined_ret
    | apply disciplined_bind; [|intros ?] ].
Qed.

Lemma disciplined_search fuel : disciplined client (search client options fuel).
Proof.
  unfold search.
  apply disciplined_bind; [apply disciplined_aggregate|intros zs].
  apply disciplined_findRecord.
Qed.

Lemma aggregate_same_printed fuel : preserves same_printed (aggregate client fuel).
Proof.
  unfold aggregate.
  repeat first
    [ apply log_info_same_printed
    | apply listHostedZones_same_printed
    | apply getRecordSetsForZones_same_printed
    | apply preserves_ret; intros ?; reflexivity
    | apply preserves_bind; [apply same_printed_trans| |intros ?] ].
Qed.

Lemma search_same_printed fuel :
  preserves same_printed (search client options fuel).
Proof.
  unfold search. apply preserves_bind;
    [apply same_printed_trans|apply aggregate_same_printed|intros zs].
  apply findRecord_same_printed.
Qed.

(** [run] is the search and then the report of its rows. *)
Lemma run_search fuel w :
  run client options fuel w
  = match search client options fuel w with
    | (w2, Return rows) => _printResult options rows w2
    | (w2, Throw e) => (w2, Throw e)
    | (w2, OutOfFuel) => (w2, OutOfFuel)
    end.
Proof.
  unfold run, search, aggregate, bind, log_info, ret. simpl.
  destruct (_listHostedZones client fuel JSSet.empty None _) as [w1 [zs| |]];
    try reflexivity.
  simpl.
  destruct (_getRecordSetsForZones client fuel zs _) as [w2 [[]| |]];
    reflexivity.
Qed.

Lemma printResult_same_sent rows w :
  sent (fst (_printResult options rows w)) = sent w.
Proof.
  unfold _printResult. destruct (Cli._printResult _ _ _ options rows). reflexivity.
Qed.

End Discipline.

(** ** The matcher *)

Lemma log_more_nil (w : World) : log_more w [] = w.
Proof. destruct w. unfold log_more. simpl. rewrite app_nil_r. reflexivity. Qed.

Lemma log_more_more (w : World) (first second : list LogEntry) :
  log_more (log_more w first) second = log_more w (first ++ second).
Proof. unfold log_more. simpl. rewrite app_assoc. reflexivity. Qed.

Lemma matching_app (options : Options) (rows rows' : list ResultRow) :
  matching options (rows ++ rows') = matching options rows ++ matching options rows'.
Proof. apply filter_app. Qed.

Section Matcher.

Variable options : Options.

Lemma evaluateRecord_usable (value : string) :
  usable options -> _evaluateRecord options value = Return (matches options value).
Proof.
  unfold usable, matches, _evaluateRecord. intros Husable.
  destruct (Cli.match' options); [reflexivity|].
  destruct (new_RegExp runtime (Cli.record options)); [reflexivity|].
  exfalso. apply Husable; reflexivity.
Qed.

Lemma evaluate_then (value : string) {A} (k : bool -> M A) (w : World) :
  usable options ->
  bind (lift (_evaluateRecord options value)) k w = k (matches options value) w.
Proof.
  intros Husable. unfold bind, lift. rewrite (evaluateRecord_usable value Husable).
  reflexivity.
Qed.

Lemma literal_values_run (z : ref) (recordSet : ResourceRecordSet.t)
    (records : list ResourceRecord.t) :
  usable options ->
  forall (acc : list ResultRow) (w : World),
    for_of records acc
      (fun matchingRecords r =>
         found <- lift (_evaluateRecord options (ResourceRecord.Value r)) ;;
         if found : bool then
           entry <- _createResultEntry z (ResourceRecordSet.Type' recordSet)
                      (ResourceRecordSet.Name recordSet) (ResourceRecord.Value r) ;;
           ret (matchingRecords ++ [entry])
         else ret matchingRecords) w
    = (w, Return
            (acc ++ matching options
               (map (fun r =>
                       mkResultRow (HostedZone.Id (heap w z))
                         (HostedZone.Name (heap w z))
                         (ResourceRecordSet.Type' recordSet)
                         (ResourceRecordSet.Name recordSet)
                         (ResourceRecord.Value r)) records))).
Proof.
  intros Husable. induction records as [|r records IH]; intros acc w.
  - simpl. rewrite app_nil_r. reflexivity.
  - cbn [for_of]. unfold bind at 1. rewrite evaluate_then by exact Husable.
    cbn [map]. unfold matching at 1. cbn [filter recordValue].
    destruct (matches options (ResourceRecord.Value r)).
    + unfold _createResultEntry, bind, get_Id, get_Name, ret at 1 2.
      rewrite IH, <- app_assoc. reflexivity.
    + unfold ret at 1. rewrite IH. reflexivity.
Qed.

Lemma findRecord_in_recordSet_run (z : ref) (acc : list ResultRow)
    (recordSet : ResourceRecordSet.t) (w : World) :
  usable options ->
  _findRecord_in_recordSet options z acc recordSet w
  = (log_more w (anomaly_log recordSet),
     Return (acc ++ matching options (recordSet_candidates (heap w z) recordSet))).
Proof.
  intros Husable.
  unfold _findRecord_in_recordSet, anomaly_log, recordSet_candidates.
  destruct (ResourceRecordSet.AliasTarget recordSet) as [alias|].
  - rewrite evaluate_then by exact Husable. rewrite log_more_nil.
    unfold matching. cbn [filter recordValue].
    destruct (matches options (AliasTarget.DNSName alias)).
    + reflexivity.
    + unfold ret. rewrite app_nil_r. reflexivity.
  - destruct (ResourceRecordSet.ResourceRecords recordSet) as [records|].
    + rewrite log_more_nil. apply literal_values_run, Husable.
    + unfold bind, log_info, ret, log_more. simpl. rewrite app_nil_r. reflexivity.
Qed.

Lemma recordSets_loop_run (z : ref) (recordSets : list ResourceRecordSet.t) :
  usable options ->
  forall (acc : list ResultRow) (w : World),
    for_of recordSets acc (_findRecord_in_recordSet options z) w
    = (log_more w (flat_map anomaly_log recordSets),
       Return (acc ++ matching options
                 (flat_map (recordSet_candidates (heap w z)) recordSets))).
Proof.
  intros Husable. induction recordSets as [|rs recordSets IH]; intros acc w.
  - simpl. rewrite log_more_nil, app_nil_r. reflexivity.
  - cbn [for_of flat_map]. unfold bind.
    rewrite findRecord_in_recordSet_run by exact Husable.
    rewrite IH, log_more_more, matching_app, app_assoc. reflexivity.
Qed.

Lemma zones_loop_run (hostedZones : list ref) :
  usable options ->
  forall (acc : list ResultRow) (w : World),
    (forall z, In z hostedZones -> HostedZone.recordSets (heap w z) <> None) ->
    for_of hostedZones acc (_findRecord_in_zone options) w
    = (log_more w (matcher_log (heap w) hostedZones),
       Return (acc ++ matching options (candidates (heap w) hostedZones))).
Proof.
  intros Husable. induction hostedZones as [|z zs IH]; intros acc w Hsets.
  - simpl. rewrite log_more_nil, app_nil_r. reflexivity.
  - cbn [for_of]. unfold bind at 1. unfold _findRecord_in_zone at 1.
    unfold bind at 1, get_recordSets.
    unfold candidates, matcher_log. cbn [flat_map]. unfold zone_candidates at 1.
    destruct (HostedZone.recordSets (heap w z)) as [recordSets|] eqn:Hz.
    + rewrite recordSets_loop_run by exact Husable.
      rewrite IH.
      * cbn [heap log_more]. rewrite log_more_more, matching_app, app_assoc.
        reflexivity.
      * intros z' Hin. cbn [heap log_more]. apply Hsets. right. exact Hin.
    + exfalso. apply (Hsets z); [left; reflexivity|exact Hz].
Qed.

Lemma findRecord_run (hostedZones : JSSet.t) (w : World) :
  usable options ->
  (forall z, In z hostedZones -> HostedZone.recordSets (heap w z) <> None) ->
  _findRecord options hostedZones w
  = (log_more w (matcher_log (heap w) hostedZones),
     Return (matching options (candidates (heap w) hostedZones))).
Proof.
  intros Husable Hsets. unfold _findRecord, JSSet.values.
  rewrite zones_loop_run by assumption. reflexivity.
Qed.

(** *** Record sets without values *)

Lemma shapeless_run (z : ref) (acc : list ResultRow)
    (recordSet : ResourceRecordSet.t) (w : World) :
  shapeless recordSet ->
  _findRecord_in_recordSet options z acc recordSet w
  = (log_more w [InfoNoRecords recordSet], Return acc).
Proof.
  intros [Halias Hrecords]. unfold _findRecord_in_recordSet.
  rewrite Halias, Hrecords. reflexivity.
Qed.

Lemma createResultEntry_similar z t n v (w1 w2 : World) :
  similar w1 w2 ->
  snd (_createResultEntry z t n v w1) = snd (_createResultEntry z t n v w2).
Proof.
  intros Hsim. unfold _createResultEntry, bind, get_Id, get_Name, ret. simpl.
  destruct (Hsim z) as [-> ->]. reflexivity.
Qed.

Lemma similar_frames (w1 w2 w1' w2' : World) :
  similar w1 w2 -> same_heap w1 w1' -> same_heap w2 w2' -> similar w1' w2'.
Proof.
  unfold similar, same_heap. intros Hsim -> ->. exact Hsim.
Qed.

(** Two runs of the same steps from similar worlds end alike. *)
Lemma bind_similar {A B} (c : M A) (k : A -> M B) (w1 w2 : World) :
  similar w1 w2 ->
  preserves same_heap c ->
  (forall v1 v2, similar v1 v2 -> snd (c v1) = snd (c v2)) ->
  (forall a v1 v2, similar v1 v2 -> snd (k a v1) = snd (k a v2)) ->
  snd (bind c k w1) = snd (bind c k w2).
Proof.
  intros Hsim Hframe Hc Hk. unfold bind.
  pose proof (Hc w1 w2 Hsim) as Hout.
  pose proof (Hframe w1) as H1. pose proof (Hframe w2) as H2.
  destruct (c w1) as [w1' o1], (c w2) as [w2' o2]. simpl in *. subst o2.
  destruct o1 as [a| |]; try reflexivity.
  apply Hk. eapply similar_frames; eassumption.
Qed.

Lemma for_of_similar {A S} (xs : list A) (body : S -> A -> M S) :
  (forall s x, preserves same_heap (body s x)) ->
  (forall s x v1 v2, similar v1 v2 -> snd (body s x v1) = snd (body s x v2)) ->
  forall s w1 w2, similar w1 w2 ->
    snd (for_of xs s body w1) = snd (for_of xs s body w2).
Proof.
  intros Hframe Hbody. induction xs as [|x xs IH]; intros s w1 w2 Hsim.
  - reflexivity.
  - cbn [for_of]. apply bind_similar; auto.
Qed.

Lemma evaluateRecord_similar value (w1 w2 : World) :
  snd (lift (_evaluateRecord options value) w1)
  = snd (lift (_evaluateRecord options value) w2).
Proof. reflexivity. Qed.

Lemma found_similar z t n v acc (found : bool) (w1 w2 : World) :
  similar w1 w2 ->
  snd ((if found then
          entry <- _createResultEntry z t n v ;; ret (acc ++ [entry])
        else ret acc) w1)
  = snd ((if found then
            entry <- _createResultEntry z t n v ;; ret (acc ++ [entry])
          else ret acc) w2).
Proof.
  intros Hsim. destruct found; [|reflexivity].
  apply bind_similar; auto.
  - apply createResultEntry_same_heap.
  - intros. apply createResultEntry_similar. assumption.
Qed.

Lemma findRecord_in_recordSet_similar z acc rs (w1 w2 : World) :
  similar w1 w2 ->
  snd (_findRecord_in_recordSet options z acc rs w1)
  = snd (_findRecord_in_recordSet options z acc rs w2).
Proof.
  intros Hsim. unfold _findRecord_in_recordSet.
  destruct (ResourceRecordSet.AliasTarget rs) as [alias|].
  - apply bind_similar; auto.
    + apply preserves_lift. intros w. reflexivity.
    + intros. apply found_similar. assumption.
  - destruct (ResourceRecordSet.ResourceRecords rs) as [records|]; [|reflexivity].
    apply for_of_similar; auto.
    + intros s x. apply preserves_bind.
      * apply same_heap_trans.
      * apply preserves_lift. intros w. reflexivity.
      * intros [|]; [|apply preserves_ret; intros w; reflexivity].
        apply preserves_bind;
          [apply same_heap_trans|apply createResultEntry_same_heap|].
        intros. apply preserves_ret. intros w. reflexivity.
    + intros s x v1 v2 Hv. apply bind_similar; auto.
      * apply preserves_lift. intros w. reflexivity.
      * intros. apply found_similar. assumption.
Qed.

Lemma recordSets_loop_similar z rss acc (w1 w2 : World) :
  similar w1 w2 ->
  snd (for_of rss acc (_findRecord_in_recordSet options z) w1)
  = snd (for_of rss acc (_findRecord_in_recordSet options z) w2).
Proof.
  intros Hsim. apply for_of_similar; auto.
  - intros. apply findRecord_in_recordSet_same_heap.
  - intros. apply findRecord_in_recordSet_similar. assumption.
Qed.

Lemma recordSets_loop_skip z before rs after :
  shapeless rs ->
  forall acc (w1 w2 : World), similar w1 w2 ->
    snd (for_of (before ++ rs :: after) acc (_findRecord_in_recordSet options z) w1)
    = snd (for_of (before ++ after) acc (_findRecord_in_recordSet options z) w2).
Proof.
  intros Hshape. induction before as [|x before IH]; intros acc w1 w2 Hsim.
  - cbn [app for_of]. unfold bind. rewrite shapeless_run by exact Hshape.
    apply recordSets_loop_similar. intros r. apply Hsim.
  - cbn [app for_of]. unfold bind.
    pose proof (findRecord_in_recordSet_similar z acc x w1 w2 Hsim) as Hout.
    pose proof (findRecord_in_recordSet_same_heap options z acc x w1) as H1.
    pose proof (findRecord_in_recordSet_same_heap options z acc x w2) as H2.
    destruct (_findRecord_in_recordSet options z acc x w1) as [w1' o1].
    destruct (_findRecord_in_recordSet options z acc x w2) as [w2' o2].
    simpl in *. subst o2. destruct o1 as [acc'| |]; try reflexivity.
    apply IH. eapply similar_frames; eassumption.
Qed.

Lemma findRecord_in_zone_skip z before rs after acc x (w1 w2 : World) :
  shapeless rs ->
  one_less z before rs after w1 w2 ->
  snd (_findRecord_in_zone options acc x w1)
  = snd (_findRecord_in_zone options acc x w2).
Proof.
  intros Hshape [Hsim [Hz1 [Hz2 Hother]]].
  unfold _findRecord_in_zone, bind, get_recordSets.
  destruct (Nat.eq_dec x z) as [->|Hne].
  - rewrite Hz1, Hz2. apply recordSets_loop_skip; assumption.
  - rewrite (Hother x Hne).
    destruct (HostedZone.recordSets (heap w2 x)); [|reflexivity].
    apply recordSets_loop_similar. exact Hsim.
Qed.

Lemma zones_loop_skip z before rs after :
  shapeless rs ->
  forall zs acc (w1 w2 : World),
    one_less z before rs after w1 w2 ->
    snd (for_of zs acc (_findRecord_in_zone options) w1)
    = snd (for_of zs acc (_findRecord_in_zone options) w2).
Proof.
  intros Hshape. induction zs as [|x zs IH]; intros acc w1 w2 Hless;
    [reflexivity|].
  cbn [for_of]. unfold bind.
  pose proof (findRecord_in_zone_same_heap options acc x w1) as H1.
  pose proof (findRecord_in_zone_same_heap options acc x w2) as H2.
  pose proof (findRecord_in_zone_skip z before rs after acc x w1 w2 Hshape Hless)
    as Hout.
  destruct (_findRecord_in_zone options acc x w1) as [w1' o1].
  destruct (_findRecord_in_zone options acc x w2) as [w2' o2].
  simpl in *. subst o2. destruct o1 as [acc'| |]; try reflexivity.
  apply IH. unfold one_less, similar, same_heap in *. rewrite H1, H2. exact Hless.
Qed.

End Matcher.

(** ** The regular expressions: [test] finds exactly the matches *)

Section Rounds.

Variable step : nat -> list nat.
Variable R : nat -> nat -> Prop.
Hypothesis step_spec : forall i j, In j (step i) <-> R i j.

Lemma exactly_spec (n : nat) :
  forall i j, In j (RegExp.exactly n step i) <-> RegExp.rounds n R i j.
Proof.
  induction n as [|n IH]; intros i j; simpl.
  - split; [intros [H|[]]; exact H|intros H; left; exact H].
  - rewrite in_flat_map. split.
    + intros [k [Hk Hj]]. exists k. split; [apply step_spec, Hk|apply IH, Hj].
    + intros [k [Hk Hj]]. exists k. split; [apply step_spec, Hk|apply IH, Hj].
Qed.

Lemma at_most_spec (n : nat) :
  forall i j,
    In j (RegExp.at_most n step i) <-> exists m, m <= n /\ RegExp.rounds m R i j.
Proof.
  induction n as [|n IH]; intros i j; simpl.
  - split.
    + intros [H|[]]. exists 0. split; [lia|exact H].
    + intros [m [Hm Hrounds]]. assert (m = 0) as -> by lia. left. exact Hrounds.
  - rewrite in_flat_map. split.
    + intros [H|[k [Hk Hj]]].
      * exists 0. split; [lia|exact H].
      * apply IH in Hj. destruct Hj as [m [Hm Hrounds]].
        exists (S m). split; [lia|]. exists k. split; [apply step_spec, Hk|exact Hrounds].
    + intros [[|m] [Hm Hrounds]].
      * left. exact Hrounds.
      * right. destruct Hrounds as [k [Hk Hrounds]]. exists k.
        split; [apply step_spec, Hk|]. apply IH. exists m. split; [lia|exact Hrounds].
Qed.

Lemma any_number_sound (fuel : nat) :
  forall i j, In j (RegExp.any_number fuel step i) -> exists m, RegExp.rounds m R i j.
Proof.
  induction fuel as [|fuel IH]; intros i j; simpl.
  - intros [H|[]]. exists 0. exact H.
  - rewrite in_flat_map. intros [H|[k [Hk Hj]]].
    + exists 0. exact H.
    + apply filter_In in Hk. destruct Hk as [Hk _].
      destruct (IH k j Hj) as [m Hrounds]. exists (S m), k.
      split; [apply step_spec, Hk|exact Hrounds].
Qed.

Variable len : nat.
Hypothesis R_forward : forall i j, R i j -> i <= j /\ (i < j -> j <= len).

Lemma any_number_complete (m : nat) :
  forall fuel i j,
    len - i <= fuel -> RegExp.rounds m R i j -> In j (RegExp.any_number fuel step i).
Proof.
  induction m as [|m IH]; intros fuel i j Hfuel Hrounds; simpl in Hrounds.
  - destruct fuel; left; exact Hrounds.
  - destruct Hrounds as [k [Hk Hrounds]].
    destruct (R_forward i k Hk) as [Hle Hlen].
    destruct (Nat.eq_dec k i) as [->|Hne]; [apply IH; assumption|].
    assert (i < k) as Hlt by lia. specialize (Hlen Hlt).
    destruct fuel as [|fuel]; [lia|].
    simpl. right. apply in_flat_map. exists k. split.
    + apply filter_In. split; [apply step_spec, Hk|apply Nat.ltb_lt, Hlt].
    + apply IH; [lia|exact Hrounds].
Qed.

End Rounds.

Lemma rounds_add (R : nat -> nat -> Prop) (a b : nat) :
  forall i j,
    RegExp.rounds (a + b) R i j
    <-> exists k, RegExp.rounds a R i k /\ RegExp.rounds b R k j.
Proof.
  induction a as [|a IH]; intros i j; simpl.
  - split.
    + intros H. exists i. split; [reflexivity|exact H].
    + intros [k [-> H]]. exact H.
  - split.
    + intros [k [Hk Hrest]]. apply IH in Hrest. destruct Hrest as [k' [H1 H2]].
      exists k'. split; [exists k; split; assumption|exact H2].
    + intros [k' [[k [Hk H1]] H2]]. exists k. split; [exact Hk|].
      apply IH. exists k'. split; assumption.
Qed.

Lemma rounds_forward (R : nat -> nat -> Prop) (len : nat) :
  (forall i j, R i j -> i <= j /\ (i < j -> j <= len)) ->
  forall n i j, RegExp.rounds n R i j -> i <= j /\ (i < j -> j <= len).
Proof.
  intros HR. induction n as [|n IH]; intros i j; simpl.
  - intros ->. split; [lia|lia].
  - intros [k [Hk Hrest]]. destruct (HR i k Hk), (IH k j Hrest). split; lia.
Qed.

Lemma Matches_forward (s : list ascii) (r : RegExp.t) :
  forall i j, RegExp.Matches r s i j -> i <= j /\ (i < j -> j <= length s).
Proof.
  induction r as [| c | | negated ranges | | | r IH | r1 IH1 r2 IH2
                 | r1 IH1 r2 IH2 | r IH min max]; intros i j; simpl.
  - intros ->. lia.
  - intros [c' [Hnth [_ ->]]].
    assert (i < length s) by (apply nth_error_Some; congruence). lia.
  - intros [c' [Hnth [_ ->]]].
    assert (i < length s) by (apply nth_error_Some; congruence). lia.
  - intros [c' [Hnth [_ ->]]].
    assert (i < length s) by (apply nth_error_Some; congruence). lia.
  - intros [-> ->]. lia.
  - intros [-> ->]. lia.
  - apply IH.
  - intros [k [H1 H2]]. destruct (IH1 i k H1), (IH2 k j H2). lia.
  - intros [H|H]; [apply IH1|apply IH2]; exact H.
  - intros [n [_ [_ Hrounds]]]. eapply rounds_forward; [exact IH|exact Hrounds].
Qed.

Lemma one_char_spec (r : RegExp.t) (s : list ascii) (i j : nat) :
  In j (RegExp.one_char r s i)
  <-> exists c, nth_error s i = Some c /\ RegExp.accepts r c = true /\ j = S i.
Proof.
  unfold RegExp.one_char. destruct (nth_error s i) as [c|].
  - destruct (RegExp.accepts r c) eqn:Haccepts; simpl.
    + split.
      * intros [<-|[]]. exists c. auto.
      * intros [c' [_ [_ ->]]]. left. reflexivity.
    + split; [intros []|]. intros [c' [[= <-] [Habs _]]]. congruence.
  - simpl. split; [intros []|]. intros [c [Habs _]]. discriminate.
Qed.

Lemma ends_spec (s : list ascii) (r : RegExp.t) :
  forall i j, In j (RegExp.ends r s i) <-> RegExp.Matches r s i j.
Proof.
  induction r as [| c | | negated ranges | | | r IH | r1 IH1 r2 IH2
                 | r1 IH1 r2 IH2 | r IH min max]; intros i j.
  - simpl. split; [intros [H|[]]; exact H|intros H; left; exact H].
  - apply one_char_spec.
  - apply one_char_spec.
  - apply one_char_spec.
  - simpl. destruct (Nat.eqb_spec i 0) as [->|Hne]; simpl.
    + split; [intros [<-|[]]; auto|intros [_ ->]; left; reflexivity].
    + split; [intros []|intros [Habs _]; contradiction].
  - simpl. destruct (Nat.eqb_spec i (length s)) as [->|Hne]; simpl.
    + split; [intros [<-|[]]; auto|intros [_ ->]; left; reflexivity].
    + split; [intros []|intros [Habs _]; contradiction].
  - apply IH.
  - simpl. rewrite in_flat_map. split.
    + intros [k [H1 H2]]. exists k. split; [apply IH1, H1|apply IH2, H2].
    + intros [k [H1 H2]]. exists k. split; [apply IH1, H1|apply IH2, H2].
  - simpl. rewrite in_app_iff, IH1, IH2. reflexivity.
  - cbn [RegExp.ends RegExp.Matches]. destruct max as [max|].
    + destruct (Nat.ltb_spec max min) as [Hlt|Hle].
      * split; [intros []|]. intros [n [Hmin [Hmax _]]]. lia.
      * rewrite in_flat_map. split.
        -- intros [k [H1 H2]].
           apply (exactly_spec _ _ IH) in H1.
           apply (at_most_spec _ _ IH) in H2. destruct H2 as [m [Hm H2]].
           exists (min + m). split; [lia|]. split; [lia|].
           apply rounds_add. exists k. split; assumption.
        -- intros [n [Hmin [Hmax Hrounds]]].
           replace n with (min + (n - min)) in Hrounds by lia.
           apply rounds_add in Hrounds. destruct Hrounds as [k [H1 H2]].
           exists k. split; [apply (exactly_spec _ _ IH), H1|].
           apply (at_most_spec _ _ IH). exists (n - min). split; [lia|exact H2].
    + rewrite in_flat_map. split.
      * intros [k [H1 H2]].
        apply (exactly_spec _ _ IH) in H1.
        apply (any_number_sound _ _ IH) in H2. destruct H2 as [m H2].
        exists (min + m). split; [lia|]. split; [exact I|].
        apply rounds_add. exists k. split; assumption.
      * intros [n [Hmin [_ Hrounds]]].
        replace n with (min + (n - min)) in Hrounds by lia.
        apply rounds_add in Hrounds. destruct Hrounds as [k [H1 H2]].
        exists k. split; [apply (exactly_spec _ _ IH), H1|].
        apply (any_number_complete _ _ IH (length s) (Matches_forward s r) (n - min));
          [lia|exact H2].
Qed.

Lemma test_spec (r : RegExp.t) (str : string) :
  RegExp.test r str = true
  <-> exists i j,
        i <= length (list_ascii_of_string str)
        /\ RegExp.Matches r (list_ascii_of_string str) i j.
Proof.
  unfold RegExp.test. rewrite existsb_exists. split.
  - intros [i [Hi Hends]]. apply in_seq in Hi.
    destruct (RegExp.ends r (list_ascii_of_string str) i) as [|j js] eqn:Hlist;
      [discriminate|].
    exists i, j. split; [lia|]. apply ends_spec. rewrite Hlist. left. reflexivity.
  - intros [i [j [Hi Hmatch]]]. exists i. split; [apply in_seq; lia|].
    apply ends_spec in Hmatch.
    destruct (RegExp.ends r (list_ascii_of_string str) i); [destruct Hmatch|reflexivity].
Qed.

(** ** The regular expressions: reading a pattern never runs short

    Every token takes at least one character, so the characters of the
    pattern are fuel enough: [of_pattern] answers [None] for what the pattern
    is, never for want of fuel. *)

Lemma class_items_shorter (n : nat) :
  forall s ranges rest,
    length s <= n ->
    RegExp.class_items s = Some (ranges, rest) -> length rest < length s.
Proof.
  induction n as [|n IH]; intros s ranges rest Hlen Hitems.
  - destruct s; [discriminate|simpl in Hlen; lia].
  - destruct s as [|c s]; [discriminate|]. simpl in Hlen.
    cbn [RegExp.class_items] in Hitems.
    repeat match type of Hitems with
           | (if ?b then _ else _) = _ => destruct b
           | match ?l with [] => _ | _ :: _ => _ end = _ => destruct l
           | match RegExp.class_escape ?e with Some _ => _ | None => _ end = _ =>
               destruct (RegExp.class_escape e)
           | match RegExp.class_items ?l with Some _ => _ | None => _ end = _ =>
               let H := fresh "H" in
               destruct (RegExp.class_items l) as [[? ?]|] eqn:H;
               [apply IH in H; [|simpl in *; lia]|]
           | Some _ = Some _ => injection Hitems as <- <-
           | None = Some _ => discriminate
           end; simpl in *; try lia.
Qed.

Lemma digits_shorter (s : list ascii) :
  forall acc, length (snd (RegExp.digits s acc)) <= length s.
Proof.
  induction s as [|c s IH]; intros acc; simpl; [lia|].
  destruct (RegExp.digit_value c); simpl; [|lia].
  specialize (IH (Some (10 * match acc with Some n => n | None => 0 end + n))).
  simpl in IH. lia.
Qed.

Lemma braces_shorter (s rest : list ascii) (tok : RegExp.token) :
  RegExp.braces s = Some (tok, rest) -> length rest <= length s.
Proof.
  unfold RegExp.braces. pose proof (digits_shorter s None) as H1.
  destruct (RegExp.digits s None) as [[n|] [|c s1]]; try discriminate.
  simpl in H1.
  destruct (RegExp.is_char c "}"); [intros [= <- <-]; lia|].
  destruct (RegExp.is_char c ","); [|discriminate].
  pose proof (digits_shorter s1 None) as H2.
  destruct (RegExp.digits s1 None) as [[m|] [|c' s2]]; try discriminate;
    simpl in H2.
  - destruct (RegExp.is_char c' "}" && (n <=? m)%nat); [|discriminate].
    intros [= <- <-]. lia.
  - destruct (RegExp.is_char c' "}"); [|discriminate].
    intros [= <- <-]. lia.
Qed.

Lemma skip_lazy_shorter (s : list ascii) : length (RegExp.skip_lazy s) <= length s.
Proof.
  destruct s as [|c s]; simpl; [lia|]. destruct (RegExp.is_char c "?"); simpl; lia.
Qed.

Lemma lex_fuel (f1 : nat) :
  forall f2 s, length s <= f1 -> length s <= f2 -> RegExp.lex f1 s = RegExp.lex f2 s.
Proof.
  induction f1 as [|f1 IH]; intros f2 s H1 H2.
  - destruct s; [|simpl in H1; lia]. destruct f2; reflexivity.
  - destruct s as [|c s]; [destruct f2; reflexivity|].
    destruct f2 as [|f2]; [simpl in H2; lia|]. simpl in H1, H2.
    cbn [RegExp.lex].
    repeat match goal with
           | |- (if ?b then _ else _) = (if ?b then _ else _) => destruct b
           | |- match ?l with [] => _ | _ :: _ => _ end = _ => destruct l
           | |- match RegExp.atom_escape ?e with Some _ => _ | None => _ end = _ =>
               destruct (RegExp.atom_escape e)
           | |- match RegExp.class_items ?l with Some _ => _ | None => _ end = _ =>
               let H := fresh "H" in
               destruct (RegExp.class_items l) as [[? ?]|] eqn:H;
               [apply (class_items_shorter (length l)) in H; [|lia]|]
           | |- match RegExp.braces ?l with Some _ => _ | None => _ end = _ =>
               let H := fresh "H" in
               destruct (RegExp.braces l) as [[? ?]|] eqn:H;
               [apply braces_shorter in H|]
           end; try reflexivity;
    match goal with
    | |- match RegExp.lex f1 ?l with _ => _ end = _ =>
        rewrite (IH f2 l);
        [reflexivity
        |try match goal with
             | |- context [RegExp.skip_lazy ?x] => pose proof (skip_lazy_shorter x)
             end; simpl in *; lia..]
    end.
Qed.

Lemma append_dot_differs (s : string) : s <> (s ++ ".")%string.
Proof.
  induction s as [|c s IH]; simpl; [discriminate|].
  intros [= Heq]. exact (IH Heq).
Qed.

(** ** The claims *)

(** C1, as stated, fails: the set compares zone objects by identity.  The
    account of [Fixture] serves the zone Z1 on both pages of its listing, as
    two objects; [_listHostedZones] returns both, and they have the same
    normalized id. *)
Lemma listHostedZones_keeps_equal_ids :
  zone_listing Fixture.client (sent Fixture.world) None
    [Fixture.zones1; Fixture.zones2]
  /\ exists w' hostedZones,
       _listHostedZones Fixture.client 2 JSSet.empty None Fixture.world
       = (w', Return hostedZones)
       /\ ~ NoDup (map (fun r => HostedZone.Id (heap w' r)) hostedZones).
Proof.
  assert (zone_listing Fixture.client (sent Fixture.world) None
            [Fixture.zones1; Fixture.zones2]) as Hlisting
    by (repeat split).
  split; [exact Hlisting|].
  rewrite (listHostedZones_pages Fixture.client _ 2 JSSet.empty None
             Fixture.world Hlisting) by (simpl; lia).
  eexists. eexists. split; [reflexivity|].
  cbv. intros Hnodup. inversion Hnodup as [|id ids Hnotin _]; subst.
  apply Hnotin. left. reflexivity.
Qed.

(** C1, amended: for a zone listing split across K pages (K >= 1),
    [_listHostedZones] returns the zone objects of all K pages, each object
    once, in the order they were first served.  The collection holds no
    object twice, and adding an object that it already holds is a no-op. *)
Theorem listHostedZones_union_of_pages (client : Client)
    (pages : list ListHostedZones.Response) (fuel : nat) (w : World) :
  zone_listing client (sent w) None pages ->
  length pages <= fuel ->
  snd (_listHostedZones client fuel JSSet.empty None w)
  = Return (served_zones pages)
  /\ NoDup (served_zones pages)
  /\ (forall r, In r (served_zones pages)
                <-> exists page,
                      In page pages /\ In r (ListHostedZones.HostedZones page))
  /\ (forall (s : JSSet.t) (r : ref), In r s -> JSSet.add s r = s).
Proof.
  intros Hlisting Hfuel. split; [|split; [|split]].
  - rewrite (listHostedZones_pages client pages fuel JSSet.empty None w Hlisting Hfuel).
    reflexivity.
  - apply NoDup_fold_add. constructor.
  - intros r. unfold served_zones. rewrite In_fold_add, in_concat. split.
    + intros [[]|[zones [Hzones Hr]]]. apply in_map_iff in Hzones.
      destruct Hzones as [page [<- Hpage]]. exists page. split; assumption.
    + intros [page [Hpage Hr]]. right.
      exists (ListHostedZones.HostedZones page). split; [|exact Hr].
      apply in_map. exact Hpage.
  - apply add_present.
Qed.


(** C2: with match mode [equality], [_evaluateRecord] returns.  For a
    target that is a string it returns [true] exactly when the candidate
    equals the target or the target followed by one dot, the candidate
    taken as it is.  For a target that is a number, as yargs makes of
    [--record 12345], it does not: the template literal converts the number
    and the strict equality does not, so the candidate that is the digits
    followed by a dot matches and the candidate that is the digits alone
    does not. *)
Theorem equality_match (options : Options) (candidate : string) :
  Cli.match' options = equality ->
  (forall target,
     Cli.record options = Cli.VString target ->
     exists found,
       _evaluateRecord options candidate = Return found
       /\ (found = true
           <-> candidate = target \/ candidate = (target ++ ".")%string))
  /\ (forall n,
        Cli.record options = Cli.VNumber n ->
        (candidate = Number_toString runtime n ->
         _evaluateRecord options candidate = Return false)
        /\ (candidate = (Number_toString runtime n ++ ".")%string ->
            _evaluateRecord options candidate = Return true)).
Proof.
  intros Hmode. unfold _evaluateRecord. rewrite Hmode. split.
  - intros target ->. eexists. split; [reflexivity|].
    cbn [Cli.ToString Cli.is_string].
    rewrite orb_true_iff, !String.eqb_eq. split.
    + intros [H|H]; [right; exact H|left; symmetry; exact H].
    + intros [H|H]; [right; symmetry; exact H|left; exact H].
  - intros n ->. cbn [Cli.ToString Cli.is_string]. rewrite orb_false_r. split.
    + intros ->. f_equal. apply String.eqb_neq, append_dot_differs.
    + intros ->. rewrite String.eqb_refl. reflexivity.
Qed.

(** *** Searching *)

Lemma list_ascii_of_string_app (s1 s2 : string) :
  list_ascii_of_string (s1 ++ s2)
  = list_ascii_of_string s1 ++ list_ascii_of_string s2.
Proof. induction s1 as [|c s1 IH]; simpl; [reflexivity|]. rewrite IH. reflexivity. Qed.

Lemma string_of_list_ascii_app (l1 l2 : list ascii) :
  string_of_list_ascii (l1 ++ l2)
  = (string_of_list_ascii l1 ++ string_of_list_ascii l2)%string.
Proof. induction l1 as [|c l1 IH]; simpl; [reflexivity|]. rewrite IH. reflexivity. Qed.

(** The three characters [a b c] stand at the positions [i], [i + 1] and
    [i + 2] of a list exactly when the list has them in a row after [i]
    characters. *)
Lemma three_in_a_row (s : list ascii) (a b c : ascii) :
  (exists i,
     nth_error s i = Some a /\ nth_error s (S i) = Some b
     /\ nth_error s (S (S i)) = Some c)
  <-> exists before after, s = before ++ [a; b; c] ++ after.
Proof.
  split.
  - intros [i [Ha [Hb Hc]]].
    destruct (nth_error_split s i Ha) as [before [rest [-> Hlen]]].
    subst i. exists before.
    rewrite nth_error_app2 in Hb, Hc by lia.
    replace (S (length before) - length before) with 1 in Hb by lia.
    replace (S (S (length before)) - length before) with 2 in Hc by lia.
    destruct rest as [|b' [|c' after]]; try discriminate.
    simpl in Hb, Hc. injection Hb as ->. injection Hc as ->.
    exists after. reflexivity.
  - intros [before [after ->]]. exists (length before). split; [|split].
    + rewrite nth_error_app2 by lia. rewrite Nat.sub_diag. reflexivity.
    + rewrite nth_error_app2 by lia.
      replace (S (length before) - length before) with 1 by lia. reflexivity.
    + rewrite nth_error_app2 by lia.
      replace (S (S (length before)) - length before) with 2 by lia. reflexivity.
Qed.

Lemma Matches_172 (s : list ascii) :
  (exists i j,
     RegExp.Matches
       (RegExp.Seq (RegExp.Char "1")
          (RegExp.Seq (RegExp.Char "7") (RegExp.Seq (RegExp.Char "2") RegExp.Empty)))
       s i j)
  <-> exists before after, s = before ++ ["1"; "7"; "2"]%char ++ after.
Proof.
  rewrite <- three_in_a_row. simpl. split.
  - intros [i [j [k1 [[c1 [H1 [Hc1 ->]]] [k2 [[c2 [H2 [Hc2 ->]]]
                [k3 [[c3 [H3 [Hc3 ->]]] _]]]]]]]].
    apply Ascii.eqb_eq in Hc1, Hc2, Hc3. subst. exists i. auto.
  - intros [i [H1 [H2 H3]]]. exists i, (S (S (S i))).
    exists (S i). split; [exists "1"%char; rewrite Ascii.eqb_refl; auto|].
    exists (S (S i)). split; [exists "7"%char; rewrite Ascii.eqb_refl; auto|].
    exists (S (S (S i))). split; [exists "2"%char; rewrite Ascii.eqb_refl; auto|].
    reflexivity.
Qed.

Lemma substring_172 (candidate : string) :
  (exists before after,
     list_ascii_of_string candidate = before ++ ["1"; "7"; "2"]%char ++ after)
  <-> exists before after, candidate = (before ++ "172" ++ after)%string.
Proof.
  split.
  - intros [before [after H]].
    exists (string_of_list_ascii before), (string_of_list_ascii after).
    rewrite <- (string_of_list_ascii_of_string candidate), H.
    rewrite !string_of_list_ascii_app. reflexivity.
  - intros [before [after ->]].
    exists (list_ascii_of_string before), (list_ascii_of_string after).
    rewrite !list_ascii_of_string_app. reflexivity.
Qed.

Section Searching.

Variable options : Options.
Hypothesis Hmode : Cli.match' options = regex.

Lemma evaluateRecord_test (candidate : string) :
  _evaluateRecord options candidate
  = match new_RegExp runtime (Cli.record options) with
    | Some test => Return (test candidate)
    | None => Throw SyntaxError
    end.
Proof. unfold _evaluateRecord. rewrite Hmode. reflexivity. Qed.

Hypothesis Hconforms : conforms runtime.

Lemma evaluateRecord_conforms (pattern : string) (re : RegExp.t)
    (candidate : string) :
  Cli.record options = Cli.VString pattern ->
  is_ascii pattern = true ->
  RegExp.of_pattern pattern = Some re ->
  is_ascii candidate = true ->
  _evaluateRecord options candidate = Return (RegExp.test re candidate).
Proof.
  intros Hrecord Hpattern Hre Hcandidate. rewrite evaluateRecord_test, Hrecord.
  destruct Hconforms as [Hfragment _].
  destruct (Hfragment pattern re Hpattern Hre) as [test [-> Htest]].
  rewrite (Htest candidate Hcandidate). reflexivity.
Qed.

End Searching.

(** Settles an example by the fragment: the pattern is read, and the
    regular expression is tested on the candidate. *)
Ltac by_fragment Hmode Hconforms Hrecord :=
  match type of Hrecord with
  | _ = Cli.VString ?p =>
      match goal with
      | |- _evaluateRecord _ ?c = Return ?b =>
          let H := fresh "H" in
          let Hre := fresh "Hre" in
          let Htest := fresh "Htest" in
          assert (exists re, RegExp.of_pattern p = Some re /\ RegExp.test re c = b)
            as H by (eexists; split; lazy; reflexivity);
          destruct H as [? [Hre Htest]];
          rewrite (evaluateRecord_conforms _ Hmode Hconforms p _ c Hrecord
                     eq_refl Hre eq_refl);
          f_equal; exact Htest
      end
  end.

(** C3: with match mode [regex], [_evaluateRecord] answers what [test] of
    the regular expression made from [options.record] answers on the
    candidate, taken as it is, and throws the [SyntaxError] when
    [new RegExp] throws: nothing is added to the pattern, so the expression
    is searched for in the candidate and need not match the whole of it.
    On a runtime that agrees with the fragment of [RegExp], for a pattern of
    the fragment, it returns [true] exactly when the expression matches
    some part of the candidate, from a position [i] to a position [j].  The
    pattern ["172"] matches exactly the candidates that have ["172"]
    somewhere in them, ["172.16.0.1"] and ["10.172.16.0.1"] among them; the
    anchored pattern matches ["172.16.0.1"] and neither ["10.172.16.0.1"]
    nor what has more after the last number.  [^] and [$] stand for the
    start and the end of the candidate only, not for the places after or
    before a line feed; [.] stands for any one character but a line
    terminator, and [\.] for the dot alone.  A pattern of digits that yargs
    has made a number of is searched for like the string of its digits. *)
Theorem regex_match_is_search (options : Options) (candidate : string) :
  Cli.match' options = regex ->
  _evaluateRecord options candidate
  = match new_RegExp runtime (Cli.record options) with
    | Some test => Return (test candidate)
    | None => Throw SyntaxError
    end
  /\ (conforms runtime ->
      (forall pattern re,
         Cli.record options = Cli.VString pattern ->
         is_ascii pattern = true ->
         is_ascii candidate = true ->
         RegExp.of_pattern pattern = Some re ->
         exists found,
           _evaluateRecord options candidate = Return found
           /\ (found = true
               <-> exists i j,
                     i <= length (list_ascii_of_string candidate)
                     /\ RegExp.Matches re (list_ascii_of_string candidate) i j))
      /\ (Cli.record options = Cli.VString "172" ->
          (is_ascii candidate = true ->
           exists found,
             _evaluateRecord options candidate = Return found
             /\ (found = true
                 <-> exists before after,
                       candidate = (before ++ "172" ++ after)%string))
          /\ _evaluateRecord options "172.16.0.1" = Return true
          /\ _evaluateRecord options "10.172.16.0.1" = Return true
          /\ _evaluateRecord options "17.2.16.0.1" = Return false)
      /\ (Cli.record options = Cli.VString "^172(\.[0-9]{1,3}){3}$" ->
          _evaluateRecord options "172.16.0.1" = Return true
          /\ _evaluateRecord options "10.172.16.0.1" = Return false
          /\ _evaluateRecord options "172.16.0.1.5" = Return false
          /\ _evaluateRecord options ("172.16.0.1" ++ line_feed) = Return false
          /\ _evaluateRecord options ("10" ++ line_feed ++ "172.16.0.1")
             = Return false)
      /\ (Cli.record options = Cli.VString "1$" ->
          _evaluateRecord options "10.0.0.1" = Return true
          /\ _evaluateRecord options "10.0.0.12" = Return false
          /\ _evaluateRecord options ("10.0.0.1" ++ line_feed) = Return false)
      /\ (Cli.record options = Cli.VString "1.2" ->
          _evaluateRecord options "172" = Return true
          /\ _evaluateRecord options "1.2" = Return true
          /\ _evaluateRecord options "12" = Return false
          /\ _evaluateRecord options ("1" ++ line_feed ++ "2") = Return false
          /\ _evaluateRecord options ("1" ++ carriage_return ++ "2") = Return false)
      /\ (Cli.record options = Cli.VString "1\.2" ->
          _evaluateRecord options "1.2" = Return true
          /\ _evaluateRecord options "172" = Return false)
      /\ (Cli.record options = Cli.VNumber 172 ->
          Number_toString runtime 172 = "172" ->
          _evaluateRecord options "172.16.0.1" = Return true
          /\ _evaluateRecord options "10.172.16.0.1" = Return true
          /\ _evaluateRecord options "17.2.16.0.1" = Return false)).
Proof.
  intros Hmode. split; [apply evaluateRecord_test, Hmode|].
  intros Hconforms.
  split; [|split; [|split; [|split; [|split; [|split]]]]].
  - intros pattern re Hrecord Hpattern Hcandidate Hre.
    rewrite (evaluateRecord_conforms options Hmode Hconforms pattern re candidate)
      by assumption.
    eexists. split; [reflexivity|]. apply test_spec.
  - intros Hrecord. split; [|repeat split; by_fragment Hmode Hconforms Hrecord].
    intros Hcandidate.
    rewrite (evaluateRecord_conforms options Hmode Hconforms "172"
               (RegExp.Seq (RegExp.Char "1")
                  (RegExp.Seq (RegExp.Char "7")
                     (RegExp.Seq (RegExp.Char "2") RegExp.Empty)))
               candidate Hrecord eq_refl eq_refl Hcandidate).
    eexists. split; [reflexivity|].
    rewrite test_spec, <- substring_172, <- Matches_172. split.
    + intros [i [j [_ H]]]. exists i, j. exact H.
    + intros [i [j H]]. exists i, j. split; [|exact H].
      simpl in H. destruct H as [k [[c [Hc _]] _]].
      apply Nat.lt_le_incl, nth_error_Some. congruence.
  - intros Hrecord. repeat split; by_fragment Hmode Hconforms Hrecord.
  - intros Hrecord. repeat split; by_fragment Hmode Hconforms Hrecord.
  - intros Hrecord. repeat split; by_fragment Hmode Hconforms Hrecord.
  - intros Hrecord. repeat split; by_fragment Hmode Hconforms Hrecord.
  - intros Hrecord Hdigits.
    assert (forall candidate,
              _evaluateRecord options candidate
              = _evaluateRecord
                  (Cli.mkOptions (Cli.VString "172") (Cli.format options)
                     (Cli.csvHeaders options) (Cli.showCount options) regex
                     (Cli.file options)) candidate) as Hsame.
    { intros c. unfold _evaluateRecord. rewrite Hmode, Hrecord.
      cbn [Cli.match' Cli.record].
      destruct Hconforms as [_ Hnumber]. rewrite Hnumber, Hdigits. reflexivity. }
    rewrite !Hsame.
    repeat split;
      match goal with
      | |- _evaluateRecord ?o _ = _ =>
          by_fragment (eq_refl : Cli.match' o = regex) Hconforms
            (eq_refl : Cli.record o = Cli.VString "172")
      end.
Qed.



(** C5: the order of the output is fixed by the input.  On an aggregate
    whose zones all have their record sets, [_findRecord] returns the
    candidates that match, in the order of the candidates: zone after zone
    as the set enumerates them, record set after record set within a zone,
    value after value within a record set.  And the record sets of a zone
    are the pages of its listing one after the other, in the order of the
    responses. *)
Theorem output_order (client : Client) (options : Options) :
  (forall (hostedZones : JSSet.t) (w : World),
     usable options ->
     (forall z, In z hostedZones -> HostedZone.recordSets (heap w z) <> None) ->
     snd (_findRecord options hostedZones w)
     = Return (filter (fun row => matches options (recordValue row))
                 (flat_map
                    (fun z =>
                       match HostedZone.recordSets (heap w z) with
                       | Some recordSets =>
                           flat_map (recordSet_candidates (heap w z)) recordSets
                       | None => []
                       end) hostedZones)))
  /\ (forall (pages : list ListResourceRecordSets.Response) (fuel : nat)
             (hostedZone : ref) (w : World),
        recordSet_listing client (sent w) (HostedZone.Id (heap w hostedZone))
          None pages ->
        length pages <= fuel ->
        snd (_getRecordSetsForZone client fuel hostedZone [] None w)
        = Return (concat (map ListResourceRecordSets.ResourceRecordSets pages))).
Proof.
  split.
  - intros hostedZones w Husable Hsets.
    rewrite findRecord_run by assumption. reflexivity.
  - intros pages fuel hostedZone w Hlisting Hfuel.
    rewrite (getRecordSetsForZone_pages client pages fuel hostedZone [] None w
               Hlisting Hfuel).
    reflexivity.
Qed.


(** C6: if the client rejects a command, whichever it is (a page of the
    zone listing or a page of the record sets of any zone), that command is
    the last one sent (nothing is retried, nothing else is asked), [run]
    throws the rejection, and [_printResult] has put out nothing. *)
Theorem api_failure_aborts_run (client : Client) (options : Options)
    (fuel : nat) (w : World) (before after : list Command) (command : Command)
    (code : string) :
  sent (fst (run client options fuel w)) = sent w ++ before ++ command :: after ->
  rejection client (sent w ++ before) command = Some code ->
  after = []
  /\ snd (run client options fuel w) = Throw (ApiError code)
  /\ printed (fst (run client options fuel w)) = printed w.
Proof.
  intros Hsent Hrejected.
  pose proof (run_search client options fuel w) as Hrun.
  pose proof (search_same_printed client options fuel w) as Hprinted.
  unfold same_printed in Hprinted.
  destruct (disciplined_search client options fuel w)
    as [commands [Hcommands Hcases]].
  assert (sent (fst (run client options fuel w))
          = sent (fst (search client options fuel w))) as Hsame.
  { rewrite Hrun. destruct (search client options fuel w) as [w2 [rows| |]];
      [apply printResult_same_sent|reflexivity|reflexivity]. }
  rewrite Hsame, Hcommands in Hsent. apply app_inv_head in Hsent. subst commands.
  assert (after = [] /\ snd (search client options fuel w) = Throw (ApiError code))
    as [Hafter Hout].
  { destruct Hcases as [[Hanswered _]|[sent_before [last [code' [Heq [Hanswered [Hlast Hout]]]]]]].
    - apply all_answered_app in Hanswered. destruct Hanswered as [_ [Hanswer _]].
      congruence.
    - destruct after as [|next after].
      + apply app_inj_tail in Heq. destruct Heq as [<- <-].
        split; [reflexivity|]. congruence.
      + exfalso.
        assert (sent_before = (before ++ [command]) ++ removelast (next :: after))
          as Hprefix.
        { apply (f_equal (@removelast Command)) in Heq.
          rewrite removelast_last in Heq. rewrite <- Heq.
          replace (before ++ command :: next :: after)
            with ((before ++ [command]) ++ next :: after)
            by (rewrite <- app_assoc; reflexivity).
          apply removelast_app. discriminate. }
        rewrite Hprefix in Hanswered.
        apply all_answered_app in Hanswered. destruct Hanswered as [Hanswered _].
        apply all_answered_app in Hanswered. destruct Hanswered as [_ [Hanswer _]].
        congruence. }
  rewrite Hrun. destruct (search client options fuel w) as [w2 o].
  cbn [fst snd] in *. subst o. repeat split; assumption.
Qed.

(** C7: a record set with neither an alias target nor literal values adds
    no row and throws nothing (it is logged), and the matcher goes on: what
    [_findRecord] returns, rows or error, is what it returns on the same
    aggregate without that record set. *)
Theorem shapeless_recordSet_is_skipped (options : Options)
    (hostedZones : JSSet.t) (w : World) (hostedZone : ref)
    (before after : list ResourceRecordSet.t) (recordSet : ResourceRecordSet.t) :
  shapeless recordSet ->
  HostedZone.recordSets (heap w hostedZone) = Some (before ++ recordSet :: after) ->
  (forall matchingRecords z w',
     _findRecord_in_recordSet options z matchingRecords recordSet w'
     = (mkWorld (heap w') (sent w') (logged w' ++ [InfoNoRecords recordSet])
          (printed w'),
        Return matchingRecords))
  /\ snd (_findRecord options hostedZones w)
     = snd (_findRecord options hostedZones
              (put_recordSets w hostedZone (before ++ after))).
Proof.
  intros Hshape Hsets. split.
  - intros acc z w'. apply shapeless_run. exact Hshape.
  - unfold _findRecord, JSSet.values.
    apply (zones_loop_skip options hostedZone before recordSet after Hshape).
    unfold one_less, similar, put_recordSets. cbn [heap].
    split; [|split; [exact Hsets|split]].
    + intros r. unfold update. destruct (Nat.eqb_spec r hostedZone) as [->|Hne];
        split; reflexivity.
    + rewrite update_same. reflexivity.
    + intros r Hne. rewrite update_other by exact Hne. reflexivity.
Qed.


(** C8: the commands of an enumeration are chained by their cursors, and
    the answers decide how it goes on.  The first [ListResourceRecordSets]
    command of a zone carries the id of the zone and no start record.  Every
    command is answered by the client after the commands before it: when
    the answer says it is truncated, the next command is sent, and it
    carries as [StartRecordName], [StartRecordType] and
    [StartRecordIdentifier] exactly the [NextRecordName], [NextRecordType]
    and [NextRecordIdentifier] of that answer (unless the bound on the pages
    is reached there); when the answer is not truncated, the command is the
    last one and the enumeration returns; when the client rejects the
    command, it is the last one and the rejection is thrown.  The same holds
    for [ListHostedZones] with [Marker] and [NextMarker]. *)
Theorem cursor_threading (client : Client) (fuel : nat) (w : World) :
  (forall hostedZone : ref,
     exists commands,
       sent (fst (_getRecordSetsForZone client fuel hostedZone [] None w))
       = sent w ++ commands
       /\ (0 < fuel ->
           hd_error commands
           = Some (ListResourceRecordSetsCommand
                     (ListResourceRecordSets.mkParams
                        (HostedZone.Id (heap w hostedZone)) None None None)))
       /\ forall i command,
            nth_error commands i = Some command ->
            exists params,
              command = ListResourceRecordSetsCommand params
              /\ match listResourceRecordSets client
                         (sent w ++ firstn i commands) params with
                 | inl code =>
                     length commands = S i
                     /\ snd (_getRecordSetsForZone client fuel hostedZone [] None w)
                        = Throw (ApiError code)
                 | inr page =>
                     if ListResourceRecordSets.IsTruncated page then
                       if (S i <? fuel)%nat then
                         nth_error commands (S i)
                         = Some (ListResourceRecordSetsCommand
                                   (ListResourceRecordSets.mkParams
                                      (HostedZone.Id (heap w hostedZone))
                                      (ListResourceRecordSets.NextRecordName page)
                                      (ListResourceRecordSets.NextRecordType page)
                                      (ListResourceRecordSets.NextRecordIdentifier page)))
                       else
                         length commands = S i
                         /\ snd (_getRecordSetsForZone client fuel hostedZone
                                   [] None w) = OutOfFuel
                     else
                       length commands = S i
                       /\ returned (snd (_getRecordSetsForZone client fuel
                                           hostedZone [] None w)) = true
                 end)
  /\ exists commands,
       sent (fst (_listHostedZones client fuel JSSet.empty None w))
       = sent w ++ commands
       /\ (0 < fuel ->
           hd_error commands
           = Some (ListHostedZonesCommand (ListHostedZones.mkParams None)))
       /\ forall i command,
            nth_error commands i = Some command ->
            exists params,
              command = ListHostedZonesCommand params
              /\ match listHostedZones client (sent w ++ firstn i commands) params with
                 | inl code =>
                     length commands = S i
                     /\ snd (_listHostedZones client fuel JSSet.empty None w)
                        = Throw (ApiError code)
                 | inr page =>
                     if ListHostedZones.IsTruncated page then
                       if (S i <? fuel)%nat then
                         nth_error commands (S i)
                         = Some (ListHostedZonesCommand
                                   (ListHostedZones.mkParams
                                      (ListHostedZones.NextMarker page)))
                       else
                         length commands = S i
                         /\ snd (_listHostedZones client fuel JSSet.empty None w)
                            = OutOfFuel
                     else
                       length commands = S i
                       /\ returned (snd (_listHostedZones client fuel JSSet.empty
                                           None w)) = true
                 end.
Proof.
  split.
  - intros z.
    destruct (getRecordSetsForZone_trace client fuel z [] None w) as [Hsent Hend].
    exists (fst (recordSet_trace client (sent w) (HostedZone.Id (heap w z)) None fuel)).
    split; [exact Hsent|]. split.
    + intros Hfuel. destruct fuel as [|fuel']; [lia|].
      apply (recordSet_trace_head client fuel').
    + intros i command Hnth.
      destruct (recordSet_trace_positions client fuel _ _ _ i command Hnth)
        as [params [-> Hcase]].
      exists params. split; [reflexivity|].
      destruct (listResourceRecordSets client _ params) as [code|page].
      * destruct Hcase as [Hlen Hending]. rewrite Hending in Hend.
        split; [exact Hlen|exact Hend].
      * destruct (ListResourceRecordSets.IsTruncated page).
        -- destruct (S i <? fuel)%nat; [exact Hcase|].
           destruct Hcase as [Hlen Hending]. rewrite Hending in Hend.
           split; [exact Hlen|exact Hend].
        -- destruct Hcase as [Hlen Hending]. rewrite Hending in Hend.
           split; [exact Hlen|exact Hend].
  - destruct (listHostedZones_trace client fuel JSSet.empty None w) as [Hsent Hend].
    exists (fst (zone_trace client (sent w) None fuel)).
    split; [exact Hsent|]. split.
    + intros Hfuel. destruct fuel as [|fuel']; [lia|].
      apply (zone_trace_head client fuel').
    + intros i command Hnth.
      destruct (zone_trace_positions client fuel _ _ i command Hnth)
        as [params [-> Hcase]].
      exists params. split; [reflexivity|].
      destruct (listHostedZones client _ params) as [code|page].
      * destruct Hcase as [Hlen Hending]. rewrite Hending in Hend.
        split; [exact Hlen|exact Hend].
      * destruct (ListHostedZones.IsTruncated page).
        -- destruct (S i <? fuel)%nat; [exact Hcase|].
           destruct Hcase as [Hlen Hending]. rewrite Hending in Hend.
           split; [exact Hlen|exact Hend].
        -- destruct Hcase as [Hlen Hending]. rewrite Hending in Hend.
           split; [exact Hlen|exact Hend].
Qed.

(** C9: every zone object that [_listHostedZones] returns has, as its id,
    the last token of the id it arrived with, and the same name; no other
    object is touched.  The last token of a path is what follows its last
    slash, and an id without a slash is its own last token, so a bare id is
    stored as it is.  Nothing after the discovery of the zones writes an id:
    [_getRecordSetsForZones] leaves ids and names alone and [_findRecord]
    leaves the store alone. *)
Theorem id_normalized_at_discovery (client : Client) (options : Options)
    (pages : list ListHostedZones.Response) (fuel : nat) (w : World) :
  zone_listing client (sent w) None pages ->
  length pages <= fuel ->
  (forall r, In r (served_zones pages) ->
     HostedZone.Id (heap (fst (_listHostedZones client fuel JSSet.empty None w)) r)
     = last_token (HostedZone.Id (heap w r))
     /\ HostedZone.Name (heap (fst (_listHostedZones client fuel JSSet.empty None w)) r)
        = HostedZone.Name (heap w r))
  /\ (forall r, ~ In r (served_zones pages) ->
        heap (fst (_listHostedZones client fuel JSSet.empty None w)) r = heap w r)
  /\ (forall prefix token,
        has_slash token = false ->
        last_token (prefix ++ String "/" token)%string = token)
  /\ (forall id, has_slash id = false -> last_token id = id)
  /\ last_token "/hostedzone/Z1" = "Z1"
  /\ (forall fuel' hostedZones w1 r,
        HostedZone.Id
          (heap (fst (_getRecordSetsForZones client fuel' hostedZones w1)) r)
        = HostedZone.Id (heap w1 r))
  /\ (forall hostedZones w1,
        heap (fst (_findRecord options hostedZones w1)) = heap w1).
Proof.
  intros Hlisting Hfuel.
  rewrite (listHostedZones_pages client pages fuel JSSet.empty None w Hlisting Hfuel).
  cbn [fst heap].
  assert (forall r, In r (served_zones pages)
                    <-> In r (concat (map ListHostedZones.HostedZones pages)))
    as Hserved.
  { intros r. unfold served_zones. rewrite In_fold_add. simpl. tauto. }
  repeat split.
  - apply normalize_all_Id, Hserved. assumption.
  - apply normalize_all_Name.
  - intros r Hnot. apply normalize_all_other. rewrite <- Hserved. exact Hnot.
  - apply last_token_path.
  - apply last_token_bare.
  - intros fuel' zs w1 r.
    apply (getRecordSetsForZones_same_names client fuel' zs w1 r).
  - intros zs w1. apply (findRecord_same_heap options zs w1).
Qed.


(** C10: on an aggregate whose zones all have their record sets,
    [_findRecord] returns rows, and a row is among them exactly when its
    value matches and it is the row of the alias target of some record set
    of some zone, with ["Alias"] as its [recordType] whatever the type of
    the record set, or the row of a literal value of a record set without
    alias target, with the type of the record set as its [recordType]. *)
Theorem alias_rows_are_typed_Alias (options : Options) (hostedZones : JSSet.t)
    (w : World) :
  usable options ->
  (forall z, In z hostedZones -> HostedZone.recordSets (heap w z) <> None) ->
  exists rows,
    snd (_findRecord options hostedZones w) = Return rows
    /\ forall row,
         In row rows
         <-> matches options (recordValue row) = true
             /\ exists z recordSets recordSet,
                  In z hostedZones
                  /\ HostedZone.recordSets (heap w z) = Some recordSets
                  /\ In recordSet recordSets
                  /\ ((exists aliasTarget,
                         ResourceRecordSet.AliasTarget recordSet = Some aliasTarget
                         /\ row = mkResultRow (HostedZone.Id (heap w z))
                                    (HostedZone.Name (heap w z)) "Alias"
                                    (ResourceRecordSet.Name recordSet)
                                    (AliasTarget.DNSName aliasTarget))
                      \/ (ResourceRecordSet.AliasTarget recordSet = None
                          /\ exists resourceRecords r,
                               ResourceRecordSet.ResourceRecords recordSet
                               = Some resourceRecords
                               /\ In r resourceRecords
                               /\ row = mkResultRow (HostedZone.Id (heap w z))
                                          (HostedZone.Name (heap w z))
                                          (ResourceRecordSet.Type' recordSet)
                                          (ResourceRecordSet.Name recordSet)
                                          (ResourceRecord.Value r))).
Proof.
  intros Husable Hsets. rewrite findRecord_run by assumption.
  eexists. split; [reflexivity|]. intros row.
  unfold matching. rewrite filter_In. unfold candidates. rewrite in_flat_map.
  split.
  - intros [[z [Hz Hrow]] Hmatch]. split; [exact Hmatch|].
    unfold zone_candidates in Hrow.
    destruct (HostedZone.recordSets (heap w z)) as [recordSets|] eqn:Hrs;
      [|destruct Hrow].
    apply in_flat_map in Hrow. destruct Hrow as [recordSet [Hin Hrow]].
    exists z, recordSets, recordSet. repeat split; try assumption.
    unfold recordSet_candidates in Hrow.
    destruct (ResourceRecordSet.AliasTarget recordSet) as [alias|].
    + left. destruct Hrow as [<-|[]]. exists alias. split; reflexivity.
    + right. split; [reflexivity|].
      destruct (ResourceRecordSet.ResourceRecords recordSet) as [records|];
        [|destruct Hrow].
      apply in_map_iff in Hrow. destruct Hrow as [r [<- Hr]].
      exists records, r. repeat split. exact Hr.
  - intros [Hmatch [z [recordSets [recordSet [Hz [Hrs [Hin Hshape]]]]]]].
    split; [|exact Hmatch]. exists z. split; [exact Hz|].
    unfold zone_candidates. rewrite Hrs. apply in_flat_map.
    exists recordSet. split; [exact Hin|]. unfold recordSet_candidates.
    destruct Hshape as [[alias [-> ->]]|[-> [records [r [-> [Hr ->]]]]]].
    + left. reflexivity.
    + apply in_map_iff. exists r. split; [reflexivity|exact Hr].
Qed.


(** ** Beyond the claims: the aggregate *)

Lemma keeps_populated_refl (w : World) : keeps_populated w w.
Proof. intros z H. exact H. Qed.

Lemma keeps_populated_trans (w1 w2 w3 : World) :
  keeps_populated w1 w2 -> keeps_populated w2 w3 -> keeps_populated w1 w3.
Proof. intros H12 H23 z H. apply H23, H12, H. Qed.

Lemma same_heap_keeps_populated (w w' : World) :
  same_heap w w' -> keeps_populated w w'.
Proof. intros Heq z. unfold populated. rewrite Heq. auto. Qed.

Lemma set_recordSets_keeps_populated (r : ref) (rs : list ResourceRecordSet.t) :
  preserves keeps_populated (set_recordSets r rs).
Proof.
  intros w z. unfold populated. simpl. unfold update.
  destruct (Nat.eqb z r); [discriminate|auto].
Qed.

Lemma aggregate_step_keeps_populated (client : Client) (fuel : nat) (z : ref) :
  preserves keeps_populated
    (recordSets <- _getRecordSetsForZone client fuel z [] None ;;
     set_recordSets z recordSets).
Proof.
  apply preserves_bind.
  - apply keeps_populated_trans.
  - intros w. apply same_heap_keeps_populated, getRecordSetsForZone_same_heap.
  - intros rs. apply set_recordSets_keeps_populated.
Qed.

Lemma aggregate_step_populates (client : Client) (fuel : nat) (z : ref) (w : World) :
  snd ((recordSets <- _getRecordSetsForZone client fuel z [] None ;;
        set_recordSets z recordSets) w) = Return tt ->
  populated (fst ((recordSets <- _getRecordSetsForZone client fuel z [] None ;;
                   set_recordSets z recordSets) w)) z.
Proof.
  unfold bind.
  destruct (_getRecordSetsForZone client fuel z [] None w) as [w1 [rs| |]];
    simpl; try discriminate.
  intros _. unfold populated. simpl. rewrite update_same. discriminate.
Qed.

Lemma aggregator_populates (client : Client) (fuel : nat)
    (hostedZones : list ref) (w : World) :
  snd (_getRecordSetsForZones client fuel hostedZones w) = Return tt ->
  forall z,
    In z hostedZones \/ populated w z ->
    populated (fst (_getRecordSetsForZones client fuel hostedZones w)) z.
Proof.
  unfold _getRecordSetsForZones, JSSet.values. revert w.
  induction hostedZones as [|x zs IH]; intros w Hreturn z Hz.
  - destruct Hz as [[]|Hz]. exact Hz.
  - cbn [for_of] in *. unfold bind at 1 in Hreturn. unfold bind at 1.
    pose proof (aggregate_step_populates client fuel x w) as Hx.
    pose proof (aggregate_step_keeps_populated client fuel x w) as Hkeep.
    destruct ((recordSets <- _getRecordSetsForZone client fuel x [] None ;;
               set_recordSets x recordSets) w) as [w1 [[]| |]];
      try discriminate.
    simpl in Hx, Hkeep. apply IH; [exact Hreturn|].
    destruct Hz as [[->|Hz]|Hz]; [right; apply Hx; reflexivity|left; exact Hz|].
    right. apply Hkeep, Hz.
Qed.

(** X1: when [_getRecordSetsForZones] returns, every zone object of the set
    has its record sets (the property [recordSets] is no longer
    [undefined]), and so has every object that had them before. *)
Theorem getRecordSetsForZones_populates (client : Client) (fuel : nat)
    (hostedZones : JSSet.t) (w : World) :
  snd (_getRecordSetsForZones client fuel hostedZones w) = Return tt ->
  forall z,
    In z hostedZones
    \/ HostedZone.recordSets (heap w z) <> None ->
    HostedZone.recordSets
      (heap (fst (_getRecordSetsForZones client fuel hostedZones w)) z) <> None.
Proof. apply aggregator_populates. Qed.


Lemma run_split (client : Client) (options : Options) (fuel : nat) (w : World) :
  run client options fuel w
  = (hostedZones <- aggregate client fuel ;;
     matchingRecords <- _findRecord options hostedZones ;;
     _printResult options matchingRecords) w.
Proof.
  unfold run, aggregate, bind, log_info, ret. simpl.
  destruct (_listHostedZones client fuel JSSet.empty None _) as [w1 [zs| |]];
    try reflexivity.
  simpl.
  destruct (_getRecordSetsForZones client fuel zs _) as [w2 [[]| |]];
    reflexivity.
Qed.

Lemma run_result (client : Client) (options : Options) (fuel : nat) (w : World) :
  run client options fuel w
  = match aggregate client fuel w with
    | (w1, Return zs) =>
        match _findRecord options zs w1 with
        | (w2, Return rows) => _printResult options rows w2
        | (w2, Throw e) => (w2, Throw e)
        | (w2, OutOfFuel) => (w2, OutOfFuel)
        end
    | (w1, Throw e) => (w1, Throw e)
    | (w1, OutOfFuel) => (w1, OutOfFuel)
    end.
Proof.
  rewrite run_split. unfold bind.
  destruct (aggregate client fuel w) as [w1 [zs| |]]; reflexivity.
Qed.

(** What [_printResult] does to the world, and how it ends. *)
Lemma printResult_run (options : Options) (rows : list ResultRow) (w : World) :
  _printResult options rows w
  = (mkWorld (heap w) (sent w) (logged w)
       (printed w
        ++ fst (Cli._printResult (JSON_stringify runtime) (csv_stringify runtime)
                  (writeFile runtime) options rows)),
     snd (Cli._printResult (JSON_stringify runtime) (csv_stringify runtime)
            (writeFile runtime) options rows)).
Proof.
  unfold _printResult. destruct (Cli._printResult _ _ _ options rows). reflexivity.
Qed.

Lemma printResult_throws (options : Options) (rows : list ResultRow) (e : Exn) :
  snd (Cli._printResult (JSON_stringify runtime) (csv_stringify runtime)
         (writeFile runtime) options rows) = Throw e ->
  Cli.truthy (Cli.file options) = true
  /\ exists data, writeFile runtime (Cli.file options) data = Some e.
Proof.
  unfold Cli._printResult.
  destruct (Cli.truthy (Cli.file options)); [|discriminate].
  match goal with
  | |- context [writeFile runtime (Cli.file options) ?d] =>
      destruct (writeFile runtime (Cli.file options) d) as [e'|] eqn:Hwrite;
      [|discriminate]; intros [= <-]; split; [reflexivity|exists d; exact Hwrite]
  end.
Qed.

Lemma aggregate_populates (client : Client) (fuel : nat) (w : World)
    (hostedZones : JSSet.t) :
  snd (aggregate client fuel w) = Return hostedZones ->
  forall z, In z hostedZones -> populated (fst (aggregate client fuel w)) z.
Proof.
  unfold aggregate, bind, log_info, ret. simpl.
  destruct (_listHostedZones client fuel JSSet.empty None _) as [w1 [zs| |]];
    try discriminate.
  simpl.
  pose proof (aggregator_populates client fuel zs
                (mkWorld (heap w1) (sent w1)
                   ((logged w1 ++ [InfoResolved (JSSet.size zs)])
                    ++ [Info "Resolving record sets..."]) (printed w1)))
    as Hpopulated.
  destruct (_getRecordSetsForZones client fuel zs _) as [w2 [[]| |]];
    try discriminate.
  simpl in *. intros [= <-] z Hz. apply Hpopulated; [reflexivity|left; exact Hz].
Qed.

(** *** What can be thrown *)

Section Throws.

Variable Q : Exn -> Prop.

Lemma throws_only_bind {A B} (c : M A) (k : A -> M B) :
  throws_only Q c -> (forall a, throws_only Q (k a)) -> throws_only Q (bind c k).
Proof.
  intros Hc Hk w e. unfold bind. specialize (Hc w).
  destruct (c w) as [w1 [a| |]]; simpl in *.
  - apply Hk.
  - intros [= <-]. apply Hc. reflexivity.
  - discriminate.
Qed.

Lemma throws_only_for_of {A S} (xs : list A) (body : S -> A -> M S) :
  (forall s x, throws_only Q (body s x)) ->
  forall s, throws_only Q (for_of xs s body).
Proof.
  intros Hbody. induction xs as [|x xs IH]; intros s; simpl.
  - intros w e. discriminate.
  - apply throws_only_bind; [apply Hbody|exact IH].
Qed.

Lemma throws_only_quiet {A} (c : M A) :
  (forall w, exists a, snd (c w) = Return a) -> throws_only Q c.
Proof. intros Hc w e He. destruct (Hc w) as [a Ha]. congruence. Qed.

End Throws.

Lemma listHostedZones_throws (client : Client) (fuel : nat) :
  forall s marker, throws_only is_ApiError (_listHostedZones client fuel s marker).
Proof.
  induction fuel as [|fuel IH]; intros s marker w e.
  - discriminate.
  - rewrite listHostedZones_step. cbv zeta.
    destruct (listHostedZones client (sent w) (ListHostedZones.mkParams marker))
      as [code|page].
    + intros [= <-]. exists code. reflexivity.
    + destruct (ListHostedZones.IsTruncated page); [apply IH|discriminate].
Qed.

Lemma getRecordSetsForZone_throws (client : Client) (fuel : nat) (z : ref) :
  forall rs start,
    throws_only is_ApiError (_getRecordSetsForZone client fuel z rs start).
Proof.
  induction fuel as [|fuel IH]; intros rs start w e.
  - discriminate.
  - rewrite getRecordSetsForZone_step. cbv zeta.
    destruct (listResourceRecordSets client (sent w)
                (recordSets_params (HostedZone.Id (heap w z)) start))
      as [code|page].
    + intros [= <-]. exists code. reflexivity.
    + destruct (ListResourceRecordSets.IsTruncated page); [apply IH|discriminate].
Qed.

Lemma getRecordSetsForZones_throws (client : Client) (fuel : nat) (zs : JSSet.t) :
  throws_only is_ApiError (_getRecordSetsForZones client fuel zs).
Proof.
  unfold _getRecordSetsForZones. apply throws_only_for_of. intros [] z.
  apply throws_only_bind; [apply getRecordSetsForZone_throws|].
  intros rs w e. discriminate.
Qed.

Lemma aggregate_throws (client : Client) (fuel : nat) :
  throws_only is_ApiError (aggregate client fuel).
Proof.
  unfold aggregate.
  repeat first
    [ apply listHostedZones_throws
    | apply getRecordSetsForZones_throws
    | apply throws_only_bind; [|intros ?]
    | intros w e; discriminate ].
Qed.

Lemma evaluateRecord_throws (options : Options) (value : string) :
  throws_only (is_bad_pattern options) (lift (_evaluateRecord options value)).
Proof.
  intros w e. unfold lift, _evaluateRecord. simpl.
  destruct (Cli.match' options) eqn:Hmode; [discriminate|].
  destruct (new_RegExp runtime (Cli.record options)) eqn:Hcompile; [discriminate|].
  intros [= <-]. repeat split; assumption.
Qed.

Lemma found_throws (options : Options) z t n v acc (found : bool) :
  throws_only (is_bad_pattern options)
    (if found then entry <- _createResultEntry z t n v ;; ret (acc ++ [entry])
     else ret acc).
Proof. destruct found; intros w e; discriminate. Qed.

Lemma findRecord_in_recordSet_throws (options : Options) z acc rs :
  throws_only (is_bad_pattern options) (_findRecord_in_recordSet options z acc rs).
Proof.
  unfold _findRecord_in_recordSet.
  destruct (ResourceRecordSet.AliasTarget rs) as [alias|].
  - apply throws_only_bind; [apply evaluateRecord_throws|].
    intros found. apply found_throws.
  - destruct (ResourceRecordSet.ResourceRecords rs) as [records|].
    + apply throws_only_for_of. intros acc' r.
      apply throws_only_bind; [apply evaluateRecord_throws|].
      intros found. apply found_throws.
    + intros w e. discriminate.
Qed.

Lemma findRecord_throws (options : Options) (zs : list ref) :
  forall acc w e,
    (forall z, In z zs -> populated w z) ->
    snd (for_of zs acc (_findRecord_in_zone options) w) = Throw e ->
    is_bad_pattern options e.
Proof.
  induction zs as [|x zs IH]; intros acc w e Hpopulated; [discriminate|].
  cbn [for_of]. unfold bind.
  pose proof (findRecord_in_zone_same_heap options acc x w) as Hheap.
  destruct (_findRecord_in_zone options acc x w) as [w1 o] eqn:Hstep.
  simpl in Hheap. destruct o as [acc'|e'|]; simpl.
  - apply IH. intros z Hz. unfold populated. rewrite Hheap.
    apply Hpopulated. right. exact Hz.
  - intros [= <-]. unfold _findRecord_in_zone, bind, get_recordSets in Hstep.
    assert (populated w x) as Hx by (apply Hpopulated; left; reflexivity).
    unfold populated in Hx.
    destruct (HostedZone.recordSets (heap w x)) as [rss|]; [|contradiction].
    pose proof (throws_only_for_of (is_bad_pattern options) rss
                  (_findRecord_in_recordSet options x)
                  (fun s r => findRecord_in_recordSet_throws options x s r)
                  acc w e') as Hthrows.
    rewrite Hstep in Hthrows. apply Hthrows. reflexivity.
  - discriminate.
Qed.

(** X2: what [run] throws.  It is the rejection of the client, and then the
    command that was rejected is the last one sent; or, in mode [regex], the
    [SyntaxError] of a [new RegExp] that throws; or, with a truthy
    [options.file], what [writeFile] rejects with.  The matcher adds no
    error of its own: it is reached only once every zone has its record
    sets, so it never iterates [undefined]. *)
Theorem run_throws (client : Client) (options : Options) (fuel : nat) (w : World)
    (e : Exn) :
  snd (run client options fuel w) = Throw e ->
  (exists code before command,
     e = ApiError code
     /\ sent (fst (run client options fuel w)) = sent w ++ before ++ [command]
     /\ rejection client (sent w ++ before) command = Some code)
  \/ (e = SyntaxError
      /\ Cli.match' options = regex
      /\ new_RegExp runtime (Cli.record options) = None)
  \/ (Cli.truthy (Cli.file options) = true
      /\ exists data, writeFile runtime (Cli.file options) data = Some e).
Proof.
  rewrite run_result.
  pose proof (aggregate_throws client fuel w) as Hapi.
  pose proof (aggregate_populates client fuel w) as Hpopulated.
  destruct (disciplined_aggregate client fuel w) as [commands [Hsent Hcases]].
  destruct (aggregate client fuel w) as [w1 [zs| |]]; cbn [fst snd] in *.
  - pose proof (findRecord_throws options zs [] w1) as Hbad.
    unfold _findRecord, JSSet.values.
    destruct (for_of zs [] (_findRecord_in_zone options) w1) as [w2 [rows| |]];
      cbn [fst snd] in *.
    + rewrite printResult_run. cbn [snd]. intros Hthrow.
      right. right. apply (printResult_throws options rows e Hthrow).
    + intros [= <-]. right. left. apply Hbad; [|reflexivity].
      apply Hpopulated. reflexivity.
    + discriminate.
  - intros [= <-]. left.
    destruct Hcases as [[_ Hnot]|[before [command [code [-> [_ [Hrejected Hout]]]]]]].
    + destruct (Hapi e0 eq_refl) as [code ->]. exfalso. apply (Hnot code). reflexivity.
    + injection Hout as ->. exists code, before, command.
      split; [reflexivity|]. split; [exact Hsent|exact Hrejected].
  - discriminate.
Qed.

(** X3: what [run] asks of the client and what it leaves in the store do not
    depend on the options: the zones and their record sets are all listed
    before the target is looked at, also when [new RegExp] rejects the
    pattern. *)
Theorem run_enumerates_whatever_the_options (client : Client)
    (options options' : Options) (fuel : nat) (w : World) :
  sent (fst (run client options fuel w)) = sent (fst (run client options' fuel w))
  /\ heap (fst (run client options fuel w)) = heap (fst (run client options' fuel w)).
Proof.
  assert (forall o : Options,
            sent (fst (run client o fuel w)) = sent (fst (aggregate client fuel w))
            /\ heap (fst (run client o fuel w)) = heap (fst (aggregate client fuel w)))
    as Hsame.
  { intros o. rewrite run_result.
    destruct (aggregate client fuel w) as [w1 [zs| |]]; simpl; auto.
    pose proof (findRecord_same_sent o zs w1) as Hsent.
    pose proof (findRecord_same_heap o zs w1) as Hheap.
    unfold same_sent, same_heap in *.
    destruct (_findRecord o zs w1) as [w2 [rows| |]]; simpl in *; auto.
    rewrite printResult_run. simpl. auto. }
  destruct (Hsame options) as [-> ->], (Hsame options') as [-> ->].
  split; reflexivity.
Qed.

Lemma run_world (client : Client) (options : Options) (fuel : nat) (w : World) :
  sent (fst (run client options fuel w)) = sent (fst (aggregate client fuel w))
  /\ heap (fst (run client options fuel w)) = heap (fst (aggregate client fuel w)).
Proof.
  rewrite run_result.
  destruct (aggregate client fuel w) as [w1 [zs| |]]; simpl; auto.
  pose proof (findRecord_same_sent options zs w1) as Hsent.
  pose proof (findRecord_same_heap options zs w1) as Hheap.
  unfold same_sent, same_heap in *.
  destruct (_findRecord options zs w1) as [w2 [rows| |]]; simpl in *; auto.
  rewrite printResult_run. simpl. auto.
Qed.

(** *** What is added to the commands and to the log *)

Section Appends.

Context {T : Type}.
Variable proj : World -> list T.
Variable P : T -> Prop.

Lemma appends_bind {A B} (c : M A) (k : A -> M B) :
  appends proj P c -> (forall a, appends proj P (k a)) -> appends proj P (bind c k).
Proof.
  intros Hc Hk w. unfold bind. destruct (Hc w) as [first [Hfirst HP]].
  destruct (c w) as [w1 [a| |]]; simpl in *;
    try (exists first; split; assumption).
  destruct (Hk a w1) as [second [Hsecond HP']].
  exists (first ++ second). split.
  - rewrite Hsecond, Hfirst, app_assoc. reflexivity.
  - apply Forall_app. split; assumption.
Qed.

Lemma appends_for_of {A S} (xs : list A) (body : S -> A -> M S) :
  (forall s x, appends proj P (body s x)) ->
  forall s, appends proj P (for_of xs s body).
Proof.
  intros Hbody. induction xs as [|x xs IH]; intros s; simpl.
  - intros w. exists []. rewrite app_nil_r. split; [reflexivity|constructor].
  - apply appends_bind; [apply Hbody|exact IH].
Qed.

Lemma appends_nothing {A} (c : M A) :
  (forall w, proj (fst (c w)) = proj w) -> appends proj P c.
Proof.
  intros Hc w. exists []. rewrite app_nil_r. split; [apply Hc|constructor].
Qed.

End Appends.

(** *** The ids in the commands *)

Lemma normalize_all_bare (zones : list ref) (h : Heap) (s : JSSet.t) :
  (forall z, In z s -> has_slash (HostedZone.Id (h z)) = false) ->
  forall z, In z (fold_left JSSet.add zones s) ->
    has_slash (HostedZone.Id (normalize_all h zones z)) = false.
Proof.
  intros Hs z Hz. apply In_fold_add in Hz.
  destruct (in_dec Nat.eq_dec z zones) as [Hin|Hnot].
  - rewrite normalize_all_Id by exact Hin. apply last_token_no_slash.
  - rewrite normalize_all_other by exact Hnot.
    destruct Hz as [Hz|Hz]; [apply Hs, Hz|contradiction].
Qed.

Lemma listHostedZones_commands (client : Client) (fuel : nat) :
  forall s marker w,
    bare_ids w s ->
    exists commands,
      sent (fst (_listHostedZones client fuel s marker w)) = sent w ++ commands
      /\ Forall asks_bare_id commands
      /\ forall zs,
           snd (_listHostedZones client fuel s marker w) = Return zs ->
           bare_ids (fst (_listHostedZones client fuel s marker w)) zs.
Proof.
  induction fuel as [|fuel IH]; intros s marker w Hbare.
  - exists []. simpl. rewrite app_nil_r. repeat split; [constructor|discriminate].
  - rewrite listHostedZones_step. cbv zeta.
    destruct (listHostedZones client (sent w) (ListHostedZones.mkParams marker))
      as [code|page].
    + eexists. split; [reflexivity|]. split; [|discriminate].
      constructor; [exact I|constructor].
    + assert (bare_ids
                (after_zone_page w
                   (ListHostedZonesCommand (ListHostedZones.mkParams marker)) page)
                (fold_left JSSet.add (ListHostedZones.HostedZones page) s))
        as Hbare'.
      { intros z Hz. cbn [after_zone_page heap].
        apply (normalize_all_bare _ _ s); assumption. }
      destruct (ListHostedZones.IsTruncated page).
      * destruct (IH _ (ListHostedZones.NextMarker page) _ Hbare')
          as [later [Hsent [Hcommands Hreturn]]].
        exists (ListHostedZonesCommand (ListHostedZones.mkParams marker) :: later).
        split; [|split; [|exact Hreturn]].
        -- rewrite Hsent. cbn [after_zone_page sent]. rewrite <- app_assoc.
           reflexivity.
        -- constructor; [exact I|exact Hcommands].
      * eexists. split; [reflexivity|]. split.
        -- constructor; [exact I|constructor].
        -- intros zs [= <-]. exact Hbare'.
Qed.

Lemma getRecordSetsForZone_commands (client : Client) (fuel : nat) (z : ref) :
  forall rs start w,
    exists commands,
      sent (fst (_getRecordSetsForZone client fuel z rs start w))
      = sent w ++ commands
      /\ Forall (fun command =>
                   exists params,
                     command = ListResourceRecordSetsCommand params
                     /\ ListResourceRecordSets.HostedZoneId params
                        = HostedZone.Id (heap w z)) commands.
Proof.
  induction fuel as [|fuel IH]; intros rs start w.
  - exists []. simpl. rewrite app_nil_r. split; [reflexivity|constructor].
  - rewrite getRecordSetsForZone_step. cbv zeta.
    assert (exists params,
              ListResourceRecordSetsCommand
                (recordSets_params (HostedZone.Id (heap w z)) start)
              = ListResourceRecordSetsCommand params
              /\ ListResourceRecordSets.HostedZoneId params
                 = HostedZone.Id (heap w z)) as Hfirst
      by (eexists; split; reflexivity).
    destruct (listResourceRecordSets client (sent w)
                (recordSets_params (HostedZone.Id (heap w z)) start))
      as [code|page].
    + eexists. split; [reflexivity|]. constructor; [exact Hfirst|constructor].
    + destruct (ListResourceRecordSets.IsTruncated page).
      * match goal with
        | |- context [_getRecordSetsForZone client fuel z ?rs' ?start' ?w'] =>
            destruct (IH rs' start' w') as [later [Hsent Hcommands]]
        end.
        cbn [after_send heap sent] in Hsent, Hcommands.
        eexists. split.
        -- rewrite Hsent, <- app_assoc. reflexivity.
        -- constructor; [exact Hfirst|exact Hcommands].
      * eexists. split; [reflexivity|]. constructor; [exact Hfirst|constructor].
Qed.

Lemma getRecordSetsForZones_commands (client : Client) (fuel : nat) (zs : list ref) :
  forall w,
    bare_ids w zs ->
    exists commands,
      sent (fst (_getRecordSetsForZones client fuel zs w)) = sent w ++ commands
      /\ Forall asks_bare_id commands.
Proof.
  unfold _getRecordSetsForZones, JSSet.values.
  induction zs as [|z zs IH]; intros w Hbare.
  - exists []. simpl. rewrite app_nil_r. split; [reflexivity|constructor].
  - cbn [for_of]. unfold bind at 1. unfold bind at 1.
    destruct (getRecordSetsForZone_commands client fuel z [] None w)
      as [first [Hsent Hfirst]].
    pose proof (getRecordSetsForZone_same_heap client fuel z [] None w) as Hheap.
    unfold same_heap in Hheap.
    assert (Forall asks_bare_id first) as Hbare_first.
    { eapply Forall_impl; [|exact Hfirst].
      intros command [params [-> Hid]]. simpl. rewrite Hid.
      apply Hbare. left. reflexivity. }
    destruct (_getRecordSetsForZone client fuel z [] None w) as [w1 [rs| |]];
      simpl in *; try (exists first; split; assumption).
    destruct (IH (mkWorld (update (heap w1) z
                             (HostedZone.with_recordSets (heap w1 z) rs))
                    (sent w1) (logged w1) (printed w1))) as [later [Hsent' Hlater]].
    + intros x Hx. cbn [heap]. unfold update.
      destruct (Nat.eqb_spec x z) as [->|Hne]; simpl; rewrite Hheap;
        apply Hbare; [left; reflexivity|right; exact Hx].
    + exists (first ++ later). split.
      * rewrite Hsent'. cbn [sent]. rewrite Hsent, app_assoc. reflexivity.
      * apply Forall_app. split; assumption.
Qed.

(** X4: every [ListResourceRecordSets] command that [run] sends carries a
    zone id without a slash: the record sets are asked for under the
    normalized id, never under the path the listing delivered. *)
Theorem run_asks_bare_ids (client : Client) (options : Options) (fuel : nat)
    (w : World) :
  exists commands,
    sent (fst (run client options fuel w)) = sent w ++ commands
    /\ forall params,
         In (ListResourceRecordSetsCommand params) commands ->
         has_slash (ListResourceRecordSets.HostedZoneId params) = false.
Proof.
  assert (exists commands,
            sent (fst (aggregate client fuel w)) = sent w ++ commands
            /\ Forall asks_bare_id commands) as [commands [Hsent Hbare]].
  { unfold aggregate, bind, log_info, ret. simpl.
    destruct (listHostedZones_commands client fuel JSSet.empty None
                (mkWorld (heap w) (sent w)
                   (logged w ++ [Info "Resolving hosted zones..."]) (printed w)))
      as [first [Hsent [Hfirst Hreturn]]]; [intros z []|].
    destruct (_listHostedZones client fuel JSSet.empty None _) as [w1 [zs| |]];
      simpl in *; try (exists first; split; assumption).
    destruct (getRecordSetsForZones_commands client fuel zs
                (mkWorld (heap w1) (sent w1)
                   ((logged w1 ++ [InfoResolved (JSSet.size zs)])
                    ++ [Info "Resolving record sets..."]) (printed w1)))
      as [later [Hsent' Hlater]].
    { intros z Hz. apply (Hreturn zs eq_refl z Hz). }
    assert (exists commands,
              sent (fst (_getRecordSetsForZones client fuel zs
                           (mkWorld (heap w1) (sent w1)
                              ((logged w1 ++ [InfoResolved (JSSet.size zs)])
                               ++ [Info "Resolving record sets..."]) (printed w1))))
              = sent w ++ commands
              /\ Forall asks_bare_id commands) as Hall.
    { exists (first ++ later). split.
      - rewrite Hsent'. cbn [sent]. rewrite Hsent, app_assoc. reflexivity.
      - apply Forall_app. split; assumption. }
    destruct (_getRecordSetsForZones client fuel zs _) as [w2 [[]| |]];
      simpl in *; exact Hall. }
  exists commands. split.
  - destruct (run_world client options fuel w) as [-> _]. exact Hsent.
  - intros params Hin. rewrite Forall_forall in Hbare.
    apply (Hbare _ Hin).
Qed.


(** *** The set that is passed in *)

Lemma fold_add_extends (zones : list ref) :
  forall s : JSSet.t, exists new, fold_left JSSet.add zones s = s ++ new.
Proof.
  induction zones as [|z zones IH]; intros s; simpl.
  - exists []. rewrite app_nil_r. reflexivity.
  - destruct (IH (JSSet.add s z)) as [new Hnew]. rewrite Hnew.
    unfold JSSet.add. destruct (JSSet.has s z).
    + exists new. reflexivity.
    + exists ([z] ++ new). rewrite app_assoc. reflexivity.
Qed.

(** X5: [_listHostedZones] only adds to the set it is given: what it returns
    begins with the zones the set already held, in their order, and holds no
    object twice if the set held none twice. *)
Theorem listHostedZones_extends_the_set (client : Client) (fuel : nat) :
  forall (s : JSSet.t) (marker : option string) (w : World) (hostedZones : JSSet.t),
    snd (_listHostedZones client fuel s marker w) = Return hostedZones ->
    (exists new, hostedZones = s ++ new)
    /\ (NoDup s -> NoDup hostedZones).
Proof.
  induction fuel as [|fuel IH]; intros s marker w zs; [discriminate|].
  rewrite listHostedZones_step. cbv zeta.
  destruct (listHostedZones client (sent w) (ListHostedZones.mkParams marker))
    as [code|page]; [discriminate|].
  destruct (fold_add_extends (ListHostedZones.HostedZones page) s) as [new Hnew].
  destruct (ListHostedZones.IsTruncated page).
  - intros Hreturn. apply IH in Hreturn. destruct Hreturn as [[new' ->] Hnodup].
    split.
    + exists (new ++ new'). rewrite Hnew, app_assoc. reflexivity.
    + intros Hs. apply Hnodup, NoDup_fold_add, Hs.
  - intros [= <-]. split; [exists new; exact Hnew|apply NoDup_fold_add].
Qed.


(** *** What the matcher touches *)

Lemma findRecord_in_recordSet_log (options : Options) z acc rs :
  appends logged tells_of_shapeless (_findRecord_in_recordSet options z acc rs).
Proof.
  unfold _findRecord_in_recordSet.
  destruct (ResourceRecordSet.AliasTarget rs) as [alias|] eqn:Halias.
  - apply appends_bind; [apply appends_nothing; reflexivity|].
    intros [|]; apply appends_nothing; reflexivity.
  - destruct (ResourceRecordSet.ResourceRecords rs) as [records|] eqn:Hrecords.
    + apply appends_for_of. intros acc' r.
      apply appends_bind; [apply appends_nothing; reflexivity|].
      intros [|]; apply appends_nothing; reflexivity.
    + intros w. exists [InfoNoRecords rs]. split; [reflexivity|].
      constructor; [|constructor]. exists rs. repeat split; assumption.
Qed.

Lemma findRecord_log (options : Options) (zs : JSSet.t) :
  appends logged tells_of_shapeless (_findRecord options zs).
Proof.
  unfold _findRecord. apply appends_for_of. intros acc z.
  unfold _findRecord_in_zone.
  apply appends_bind; [apply appends_nothing; reflexivity|].
  intros [rss|]; [|apply appends_nothing; reflexivity].
  apply appends_for_of. intros. apply findRecord_in_recordSet_log.
Qed.

(** X6: matching only reads.  [_findRecord] sends nothing to the client,
    puts out nothing and leaves every zone object as it was,
    however it ends; all it adds to the log are the lines about record sets
    that have neither an alias target nor literal values. *)
Theorem findRecord_only_reads (options : Options) (hostedZones : JSSet.t)
    (w : World) :
  heap (fst (_findRecord options hostedZones w)) = heap w
  /\ sent (fst (_findRecord options hostedZones w)) = sent w
  /\ printed (fst (_findRecord options hostedZones w)) = printed w
  /\ exists more,
       logged (fst (_findRecord options hostedZones w)) = logged w ++ more
       /\ forall entry, In entry more ->
            exists recordSet,
              entry = InfoNoRecords recordSet
              /\ ResourceRecordSet.AliasTarget recordSet = None
              /\ ResourceRecordSet.ResourceRecords recordSet = None.
Proof.
  split; [apply findRecord_same_heap|].
  split; [apply findRecord_same_sent|].
  split; [apply findRecord_same_printed|].
  destruct (findRecord_log options hostedZones w) as [more [Hlog Hmore]].
  exists more. split; [exact Hlog|]. intros entry Hin.
  rewrite Forall_forall in Hmore. destruct (Hmore entry Hin) as [rs [-> [H1 H2]]].
  exists rs. auto.
Qed.

(** *** A pattern that [new RegExp] rejects *)

Section BadPattern.

Variable options : Options.
Hypothesis Hmode : Cli.match' options = regex.
Hypothesis Hcompile : new_RegExp runtime (Cli.record options) = None.

Lemma evaluateRecord_bad (value : string) :
  _evaluateRecord options value = Throw SyntaxError.
Proof. unfold _evaluateRecord. rewrite Hmode, Hcompile. reflexivity. Qed.

Lemma findRecord_in_recordSet_bad z acc rs w :
  snd (_findRecord_in_recordSet options z acc rs w)
  = match recordSet_candidates (heap w z) rs with
    | [] => Return acc
    | _ :: _ => Throw SyntaxError
    end.
Proof.
  unfold _findRecord_in_recordSet, recordSet_candidates.
  destruct (ResourceRecordSet.AliasTarget rs) as [alias|].
  - unfold bind, lift. rewrite evaluateRecord_bad. reflexivity.
  - destruct (ResourceRecordSet.ResourceRecords rs) as [[|r records]|];
      try reflexivity.
    cbn [for_of map]. unfold bind, lift. rewrite evaluateRecord_bad. reflexivity.
Qed.

Lemma recordSets_loop_bad z rss :
  forall acc w,
    snd (for_of rss acc (_findRecord_in_recordSet options z) w)
    = match flat_map (recordSet_candidates (heap w z)) rss with
      | [] => Return acc
      | _ :: _ => Throw SyntaxError
      end.
Proof.
  induction rss as [|rs rss IH]; intros acc w; [reflexivity|].
  cbn [for_of flat_map]. unfold bind.
  pose proof (findRecord_in_recordSet_bad z acc rs w) as Hout.
  pose proof (findRecord_in_recordSet_same_heap options z acc rs w) as Hheap.
  unfold same_heap in Hheap.
  destruct (_findRecord_in_recordSet options z acc rs w) as [w1 o].
  simpl in Hout, Hheap. subst o.
  destruct (recordSet_candidates (heap w z) rs) as [|row rows]; [|reflexivity].
  simpl. rewrite IH, Hheap. reflexivity.
Qed.

Lemma zones_loop_bad zs :
  forall acc w,
    (forall z, In z zs -> populated w z) ->
    snd (for_of zs acc (_findRecord_in_zone options) w)
    = match candidates (heap w) zs with
      | [] => Return acc
      | _ :: _ => Throw SyntaxError
      end.
Proof.
  induction zs as [|z zs IH]; intros acc w Hpopulated; [reflexivity|].
  cbn [for_of]. unfold candidates. cbn [flat_map]. unfold bind.
  pose proof (findRecord_in_zone_same_heap options acc z w) as Hheap.
  unfold same_heap in Hheap.
  assert (snd (_findRecord_in_zone options acc z w)
          = match zone_candidates (heap w z) with
            | [] => Return acc
            | _ :: _ => Throw SyntaxError
            end) as Hout.
  { unfold _findRecord_in_zone, bind, get_recordSets, zone_candidates.
    assert (populated w z) as Hz by (apply Hpopulated; left; reflexivity).
    unfold populated in Hz.
    destruct (HostedZone.recordSets (heap w z)) as [rss|]; [|contradiction].
    apply recordSets_loop_bad. }
  destruct (_findRecord_in_zone options acc z w) as [w1 o].
  simpl in Hout, Hheap. subst o.
  destruct (zone_candidates (heap w z)) as [|row rows]; [|reflexivity].
  simpl. rewrite IH.
  - unfold candidates. rewrite Hheap. reflexivity.
  - intros x Hx. unfold populated. rewrite Hheap. apply Hpopulated. right. exact Hx.
Qed.

End BadPattern.

(** X7: a pattern that [new RegExp] rejects is found out only when a value
    is to be tested.  In mode [regex] with such a pattern, on an aggregate
    whose zones all have their record sets, [_findRecord] throws the
    [SyntaxError] if there is any alias target or literal value at all, and
    returns no rows if there is none. *)
Theorem bad_pattern_needs_a_value (options : Options) (hostedZones : JSSet.t)
    (w : World) :
  Cli.match' options = regex ->
  new_RegExp runtime (Cli.record options) = None ->
  (forall z, In z hostedZones -> HostedZone.recordSets (heap w z) <> None) ->
  snd (_findRecord options hostedZones w)
  = match candidates (heap w) hostedZones with
    | [] => Return []
    | _ :: _ => Throw SyntaxError
    end.
Proof.
  intros Hmode Hcompile Hpopulated. unfold _findRecord, JSSet.values.
  apply zones_loop_bad; assumption.
Qed.


(** *** The whole run *)

Section WholeRun.

Variable client : Client.








End WholeRun.


(** ** Beyond the claims: the command line and the report *)

Lemma optional_toLowerCase_throws (v : Cli.JSValue) (e : Exn) :
  Cli.optional_toLowerCase v = inl e <-> e = TypeError /\ Cli.not_a_string v.
Proof.
  destruct v; simpl; split;
    first [ discriminate
          | intros [= <-]; split; [reflexivity|exact I]
          | intros [-> _]; reflexivity
          | intros [_ []] ].
Qed.

Lemma optional_toLowerCase_is (v lowered : Cli.JSValue) (text : string) :
  Cli.optional_toLowerCase v = inr lowered ->
  (Cli.is_string lowered text = true
   <-> exists s, v = Cli.VString s /\ Cli.toLowerCase s = text).
Proof.
  destruct v; simpl; try discriminate; intros [= <-]; simpl.
  - split; [discriminate|]. intros [s [Habs _]]. discriminate.
  - split; [discriminate|]. intros [s [Habs _]]. discriminate.
  - rewrite String.eqb_eq. split.
    + intros H. exists s. split; [reflexivity|exact H].
    + intros [s' [[= <-] H]]. exact H.
Qed.

(** X9: how [_parseArgs] ends the process.  It does so in three cases and
    no other.  yargs ended the process inside its own call: then the
    program has logged nothing.  yargs handed over an [argv] whose [help]
    is truthy: then the usage is logged.  yargs handed over an [argv] whose
    [help] is falsy and whose [record] is falsy: then the error line and
    the usage are logged, whatever the other arguments are; so is refused a
    record that is absent, empty, [0] or [false]. *)
Theorem parseArgs_exits (yargs : Cli.Yargs) (lines : list Cli.Line) :
  (Cli._parseArgs yargs = Cli.Exits lines
   <-> (yargs = Cli.YargsExits /\ lines = [])
       \/ exists argv,
            yargs = Cli.YargsReturns argv
            /\ ((Cli.truthy (Cli.argv_help argv) = true /\ lines = Cli._usage)
                \/ (Cli.truthy (Cli.argv_help argv) = false
                    /\ Cli.truthy (Cli.argv_record argv) = false
                    /\ lines
                       = Cli.mkLine Cli.LevelError false "No record supplied"
                         :: Cli._usage)))
  /\ forall argv,
       Cli.truthy (Cli.argv_help argv) = false ->
       Cli.argv_record argv = Cli.VUndefined
       \/ Cli.argv_record argv = Cli.VNull
       \/ Cli.argv_record argv = Cli.VString ""
       \/ Cli.argv_record argv = Cli.VNumber 0
       \/ Cli.argv_record argv = Cli.VBoolean false ->
       Cli._parseArgs (Cli.YargsReturns argv)
       = Cli.Exits (Cli.mkLine Cli.LevelError false "No record supplied"
                      :: Cli._usage).
Proof.
  split.
  - destruct yargs as [|argv]; cbn [Cli._parseArgs].
    + split.
      * intros [= <-]. left. split; reflexivity.
      * intros [[_ ->]|[argv [Habs _]]]; [reflexivity|discriminate].
    + split.
      * intros Hexits. right. exists argv. split; [reflexivity|].
        destruct (Cli.truthy (Cli.argv_help argv));
          [injection Hexits as <-; left; split; reflexivity|].
        destruct (Cli.truthy (Cli.argv_record argv)); cbn [negb] in Hexits;
          [|injection Hexits as <-; right; repeat split].
        destruct (Cli.optional_toLowerCase (Cli.argv_format argv));
          [discriminate|].
        destruct (Cli.optional_toLowerCase (Cli.argv_match argv)); discriminate.
      * intros [[Habs _]|[argv' [[= <-] [[-> ->]|[-> [-> ->]]]]]];
          [discriminate|reflexivity|reflexivity].
  - intros argv Hhelp Hrecord. cbn [Cli._parseArgs]. rewrite Hhelp.
    destruct Hrecord as [-> | [-> | [-> | [-> | ->]]]]; reflexivity.
Qed.

(** X10: [_parseArgs] throws exactly when it does not exit and
    [argv.format] or [argv.match] is there and is not a string (a number,
    a boolean as for a flag given without a value, an array as for a flag
    given twice); what it throws is a [TypeError]. *)
Theorem parseArgs_throws (argv : Cli.Argv) (e : Exn) :
  Cli._parseArgs (Cli.YargsReturns argv) = Cli.Throws e
  <-> e = TypeError
      /\ Cli.truthy (Cli.argv_help argv) = false
      /\ Cli.truthy (Cli.argv_record argv) = true
      /\ (Cli.not_a_string (Cli.argv_format argv)
          \/ Cli.not_a_string (Cli.argv_match argv)).
Proof.
  unfold Cli._parseArgs.
  destruct (Cli.truthy (Cli.argv_help argv));
    [split; [discriminate|intros [_ [H _]]; discriminate]|].
  destruct (Cli.truthy (Cli.argv_record argv)); simpl;
    [|split; [discriminate|intros [_ [_ [H _]]]; discriminate]].
  destruct (Cli.optional_toLowerCase (Cli.argv_format argv)) as [e1|lowered1]
    eqn:Hformat.
  - apply optional_toLowerCase_throws in Hformat. destruct Hformat as [-> Hf].
    split; [intros [= <-]; auto|intros [-> _]; reflexivity].
  - assert (~ Cli.not_a_string (Cli.argv_format argv)) as Hformat_ok.
    { destruct (Cli.argv_format argv); simpl in *; try discriminate; auto. }
    destruct (Cli.optional_toLowerCase (Cli.argv_match argv)) as [e2|lowered2]
      eqn:Hmatch.
    + apply optional_toLowerCase_throws in Hmatch. destruct Hmatch as [-> Hm].
      split; [intros [= <-]; auto|intros [-> _]; reflexivity].
    + split; [discriminate|].
      intros [_ [_ [_ [H|H]]]]; [contradiction|].
      destruct (Cli.argv_match argv); simpl in *; try discriminate; contradiction.
Qed.


(** X11: the options [_parseArgs] returns.  The record is the argument as it
    came, and is truthy.  The mode is [regex] exactly when [argv.match] is a
    string that reads regex whatever its case, and the format is [csv]
    exactly when [argv.format] is a string that reads csv whatever its case:
    any other string leaves [equality] and [json], silently.  The headers
    are off only for [argv['csv-headers'] === false], and the file is
    [null] or the truthy [argv.file]. *)
Theorem parseArgs_options (argv : Cli.Argv) (options : Cli.Options) :
  Cli._parseArgs (Cli.YargsReturns argv) = Cli.Parses options ->
  Cli.record options = Cli.argv_record argv
  /\ Cli.truthy (Cli.record options) = true
  /\ (Cli.match' options = regex
      <-> exists s, Cli.argv_match argv = Cli.VString s
                    /\ Cli.toLowerCase s = "regex")
  /\ (Cli.format options = Cli.csv
      <-> exists s, Cli.argv_format argv = Cli.VString s
                    /\ Cli.toLowerCase s = "csv")
  /\ (Cli.csvHeaders options = false
      <-> Cli.argv_csv_headers argv = Cli.VBoolean false)
  /\ Cli.showCount options = Cli.truthy (Cli.argv_show_count argv)
  /\ (Cli.file options = Cli.VNull /\ Cli.truthy (Cli.argv_file argv) = false
      \/ Cli.file options = Cli.argv_file argv
         /\ Cli.truthy (Cli.argv_file argv) = true).
Proof.
  unfold Cli._parseArgs.
  destruct (Cli.truthy (Cli.argv_help argv)); [discriminate|].
  destruct (Cli.truthy (Cli.argv_record argv)) eqn:Hrecord; simpl;
    [|discriminate].
  destruct (Cli.optional_toLowerCase (Cli.argv_format argv)) as [e1|lowered1]
    eqn:Hformat; [discriminate|].
  destruct (Cli.optional_toLowerCase (Cli.argv_match argv)) as [e2|lowered2]
    eqn:Hmatch; [discriminate|].
  intros [= <-]. cbn.
  split; [reflexivity|]. split; [exact Hrecord|].
  split; [|split; [|split; [|split]]].
  - rewrite <- (optional_toLowerCase_is _ _ "regex" Hmatch).
    destruct (Cli.is_string lowered2 "regex"); split; congruence.
  - rewrite <- (optional_toLowerCase_is _ _ "csv" Hformat).
    destruct (Cli.is_string lowered1 "csv"); split; congruence.
  - destruct (Cli.argv_csv_headers argv) as [| |[|]| | |]; simpl;
      split; congruence.
  - destruct (Cli.truthy (Cli.argv_show_count argv)); reflexivity.
  - destruct (Cli.truthy (Cli.argv_file argv)); auto.
Qed.


(** X12: the report of the options that [_parseArgs] returns.
    [_printResult] produces one document, the rows as JSON or, for the
    format [csv], as CSV with or without headers.  With a truthy
    [argv.file] the document goes to [writeFile] and is not logged; if the
    write is rejected the rejection is thrown and no count is logged.
    Without, the document is logged.  The count line, when asked for,
    comes after the document and bears the number of rows. *)
Theorem printResult_after_parseArgs
    (JSON_stringify : list ResultRow -> string)
    (csv_stringify : list ResultRow -> bool -> string)
    (writeFile : Cli.JSValue -> string -> option Exn)
    (argv : Cli.Argv) (options : Cli.Options) (rows : list ResultRow) :
  Cli._parseArgs (Cli.YargsReturns argv) = Cli.Parses options ->
  let data :=
    match Cli.format options with
    | Cli.json => JSON_stringify rows
    | Cli.csv => csv_stringify rows (Cli.csvHeaders options)
    end in
  let count :=
    if Cli.truthy (Cli.argv_show_count argv) then
      [Cli.Log (Cli.mkLine Cli.LevelInfo false
                  ("Total count: " ++ Cli.decimal (length rows))%string)]
    else [] in
  Cli._printResult JSON_stringify csv_stringify writeFile options rows
  = if Cli.truthy (Cli.argv_file argv) then
      match writeFile (Cli.argv_file argv) data with
      | Some e => ([Cli.WriteFile (Cli.argv_file argv) data], Throw e)
      | None => (Cli.WriteFile (Cli.argv_file argv) data :: count, Return tt)
      end
    else (Cli.Log (Cli.mkLine Cli.LevelInfo false data) :: count, Return tt).
Proof.
  intros Hparse. cbv zeta. unfold Cli._printResult.
  unfold Cli._parseArgs in Hparse.
  destruct (Cli.truthy (Cli.argv_help argv)); [discriminate|].
  destruct (Cli.truthy (Cli.argv_record argv)); simpl in Hparse; [|discriminate].
  destruct (Cli.optional_toLowerCase (Cli.argv_format argv)); [discriminate|].
  destruct (Cli.optional_toLowerCase (Cli.argv_match argv)); [discriminate|].
  injection Hparse as <-. cbn [Cli.showCount Cli.format Cli.csvHeaders Cli.file].
  destruct (Cli.truthy (Cli.argv_show_count argv));
    destruct (Cli.truthy (Cli.argv_file argv)) eqn:Hfile;
    try rewrite Hfile; reflexivity.
Qed.


(** X13: [_evaluateRecord] on the options as they are parsed, where
    [options.record] need not be a string.  When it is a string, the mode
    [equality] compares the value with it and with it followed by a dot,
    and the mode [regex] hands it to [new RegExp] as it is.  When it is a
    number, as yargs makes of an argument of digits, the mode [equality]
    matches a value exactly when it is the digits followed by a dot: the
    value that is the digits alone is never matched, since a string is not
    strictly equal to a number. *)
Theorem evaluateRecord_of_parsed_options (options : Cli.Options)
    (recordValue : string) :
  (forall s,
     Cli.record options = Cli.VString s ->
     _evaluateRecord options recordValue
     = match Cli.match' options with
       | equality =>
           Return (String.eqb recordValue (s ++ ".")%string
                   || String.eqb recordValue s)
       | regex =>
           match new_RegExp runtime (Cli.VString s) with
           | Some test => Return (test recordValue)
           | None => Throw SyntaxError
           end
       end)
  /\ (forall n,
        Cli.record options = Cli.VNumber n ->
        Cli.match' options = equality ->
        (_evaluateRecord options recordValue = Return true
         <-> recordValue = (Number_toString runtime n ++ ".")%string)
        /\ _evaluateRecord options (Number_toString runtime n) = Return false).
Proof.
  split.
  - intros s Hrecord. unfold _evaluateRecord.
    rewrite Hrecord. cbn [Cli.ToString Cli.is_string].
    destruct (Cli.match' options); [|reflexivity].
    rewrite (String.eqb_sym s recordValue). reflexivity.
  - intros n Hrecord Hmode. unfold _evaluateRecord.
    rewrite Hrecord, Hmode. cbn [Cli.ToString Cli.is_string].
    rewrite !orb_false_r. split.
    + split.
      * intros [= H]. apply String.eqb_eq. exact H.
      * intros ->. rewrite String.eqb_refl. reflexivity.
    + f_equal. apply String.eqb_neq. apply append_dot_differs.
Qed.

(** ** Beyond the claims: pages without end, lists in part, ids in the report *)

Lemma getRecordSetsForZones_step (client : Client) (fuel : nat) (x : ref)
    (zs : list ref) (w : World) :
  _getRecordSetsForZones client fuel (x :: zs) w
  = match _getRecordSetsForZone client fuel x [] None w with
    | (w1, Return rs) =>
        _getRecordSetsForZones client fuel zs
          (mkWorld (update (heap w1) x (HostedZone.with_recordSets (heap w1 x) rs))
             (sent w1) (logged w1) (printed w1))
    | (w1, Throw e) => (w1, Throw e)
    | (w1, OutOfFuel) => (w1, OutOfFuel)
    end.
Proof.
  unfold _getRecordSetsForZones, JSSet.values. cbn [for_of].
  unfold bind, set_recordSets.
  destruct (_getRecordSetsForZone client fuel x [] None w) as [w1 [rs| |]];
    reflexivity.
Qed.

Lemma getRecordSetsForZones_attaches_whole_lists (client : Client) (fuel : nat)
    (zs : list ref) :
  forall w z,
    HostedZone.recordSets
      (heap (fst (_getRecordSetsForZones client fuel zs w)) z)
    = HostedZone.recordSets (heap w z)
    \/ exists w0 rs,
         snd (_getRecordSetsForZone client fuel z [] None w0) = Return rs
         /\ HostedZone.recordSets
              (heap (fst (_getRecordSetsForZones client fuel zs w)) z)
            = Some rs.
Proof.
  induction zs as [|x zs IH]; intros w z; [left; reflexivity|].
  rewrite getRecordSetsForZones_step.
  pose proof (getRecordSetsForZone_same_heap client fuel x [] None w) as Hheap.
  unfold same_heap in Hheap.
  destruct (_getRecordSetsForZone client fuel x [] None w) as [w1 [rs| |]] eqn:Hrun;
    simpl in Hheap; try (left; simpl; rewrite Hheap; reflexivity).
  destruct (IH (mkWorld (update (heap w1) x (HostedZone.with_recordSets (heap w1 x) rs))
                  (sent w1) (logged w1) (printed w1)) z) as [Hsame|Hattached].
  - destruct (Nat.eq_dec z x) as [->|Hne].
    + right. exists w, rs. split; [rewrite Hrun; reflexivity|].
      rewrite Hsame. cbn [heap]. rewrite update_same. reflexivity.
    + left. rewrite Hsame. cbn [heap]. rewrite update_other by exact Hne.
      rewrite Hheap. reflexivity.
  - right. exact Hattached.
Qed.

(** X14: a zone never has a list of record sets in part.  While the pages of
    a zone are fetched the store is not touched, whatever happens; and what
    [_getRecordSetsForZones] leaves in a zone object, however it ends, is
    what the object had before or the list that a whole enumeration of that
    zone returned. *)
Theorem recordSets_are_attached_whole (client : Client) (fuel : nat)
    (hostedZones : JSSet.t) (w : World) (z : ref) :
  (forall recordSets startRecord,
     heap (fst (_getRecordSetsForZone client fuel z recordSets startRecord w))
     = heap w)
  /\ (HostedZone.recordSets
        (heap (fst (_getRecordSetsForZones client fuel hostedZones w)) z)
      = HostedZone.recordSets (heap w z)
      \/ exists w0 recordSets,
           snd (_getRecordSetsForZone client fuel z [] None w0) = Return recordSets
           /\ HostedZone.recordSets
                (heap (fst (_getRecordSetsForZones client fuel hostedZones w)) z)
              = Some recordSets).
Proof.
  split.
  - intros rs start. apply (getRecordSetsForZone_same_heap client fuel z rs start w).
  - apply getRecordSetsForZones_attaches_whole_lists.
Qed.

Lemma listHostedZones_without_end (client : Client) :
  (forall history params,
     exists page,
       listHostedZones client history params = inr page
       /\ ListHostedZones.IsTruncated page = true) ->
  forall fuel s marker w,
    snd (_listHostedZones client fuel s marker w) = OutOfFuel
    /\ length (sent (fst (_listHostedZones client fuel s marker w)))
       = length (sent w) + fuel.
Proof.
  intros Hmore. induction fuel as [|fuel IH]; intros s marker w.
  - simpl. split; [reflexivity|lia].
  - rewrite listHostedZones_step. cbv zeta.
    destruct (Hmore (sent w) (ListHostedZones.mkParams marker))
      as [page [-> ->]].
    match goal with
    | |- context [_listHostedZones client fuel ?s' ?m' ?w'] =>
        destruct (IH s' m' w') as [-> ->]
    end.
    split; [reflexivity|]. cbn [after_zone_page sent].
    rewrite length_app. simpl. lia.
Qed.

Lemma getRecordSetsForZone_without_end (client : Client) :
  (forall history params,
     exists page,
       listResourceRecordSets client history params = inr page
       /\ ListResourceRecordSets.IsTruncated page = true) ->
  forall fuel z rs start w,
    snd (_getRecordSetsForZone client fuel z rs start w) = OutOfFuel
    /\ length (sent (fst (_getRecordSetsForZone client fuel z rs start w)))
       = length (sent w) + fuel.
Proof.
  intros Hmore. induction fuel as [|fuel IH]; intros z rs start w.
  - simpl. split; [reflexivity|lia].
  - rewrite getRecordSetsForZone_step. cbv zeta.
    destruct (Hmore (sent w) (recordSets_params (HostedZone.Id (heap w z)) start))
      as [page [-> ->]].
    match goal with
    | |- context [_getRecordSetsForZone client fuel z ?rs' ?start' ?w'] =>
        destruct (IH z rs' start' w') as [-> ->]
    end.
    split; [reflexivity|]. cbn [after_send sent].
    rewrite length_app. simpl. lia.
Qed.

(** X15: the enumerators have no bound of their own on the number of pages.
    Against a client that answers every command with a page that says it is
    truncated, [_listHostedZones] and [_getRecordSetsForZone] have not
    returned after any number of commands: whatever the bound, all of it is
    spent on commands and the recursion is still going. *)
Theorem enumerators_follow_pages_without_end (client : Client) (fuel : nat)
    (w : World) :
  ((forall history params,
      exists page,
        listHostedZones client history params = inr page
        /\ ListHostedZones.IsTruncated page = true) ->
   forall s marker,
     snd (_listHostedZones client fuel s marker w) = OutOfFuel
     /\ length (sent (fst (_listHostedZones client fuel s marker w)))
        = length (sent w) + fuel)
  /\ ((forall history params,
         exists page,
           listResourceRecordSets client history params = inr page
           /\ ListResourceRecordSets.IsTruncated page = true) ->
      forall z rs start,
        snd (_getRecordSetsForZone client fuel z rs start w) = OutOfFuel
        /\ length (sent (fst (_getRecordSetsForZone client fuel z rs start w)))
           = length (sent w) + fuel).
Proof.
  split.
  - intros Hmore s marker. apply listHostedZones_without_end, Hmore.
  - intros Hmore z rs start. apply getRecordSetsForZone_without_end, Hmore.
Qed.


(** *** The ids in the report *)





End Engine.

(** ** Examples

    The theorems at the account, the options and the runtime of [Fixture]. *)

Lemma fixture_conforms : conforms Fixture.runtime.
Proof.
  split.
  - intros pattern re _ Hre. exists (RegExp.test re). split; [|reflexivity].
    cbn. unfold Fixture.new_RegExp. cbn [Fixture.pattern_of Cli.ToString].
    rewrite Hre. reflexivity.
  - intros n. reflexivity.
Qed.

Lemma listHostedZones_union_of_pages_witness :
  snd (_listHostedZones Fixture.client 2 JSSet.empty None Fixture.world)
  = Return (served_zones [Fixture.zones1; Fixture.zones2])
  /\ NoDup (served_zones [Fixture.zones1; Fixture.zones2])
  /\ (forall r, In r (served_zones [Fixture.zones1; Fixture.zones2])
                <-> exists page,
                      In page [Fixture.zones1; Fixture.zones2]
                      /\ In r (ListHostedZones.HostedZones page))
  /\ (forall (s : JSSet.t) (r : ref), In r s -> JSSet.add s r = s).
Proof.
  apply (listHostedZones_union_of_pages Fixture.client
           [Fixture.zones1; Fixture.zones2] 2 Fixture.world).
  - simpl. repeat split; reflexivity.
  - simpl. lia.
Defined.

Lemma equality_match_witness :
  _evaluateRecord Fixture.runtime Fixture.numeric "12345" = Return false
  /\ _evaluateRecord Fixture.runtime Fixture.numeric "12345." = Return true
  /\ exists found,
       _evaluateRecord Fixture.runtime Fixture.options "5.6.7.8." = Return found
       /\ (found = true
           <-> "5.6.7.8." = "5.6.7.8" \/ "5.6.7.8." = ("5.6.7.8" ++ ".")%string).
Proof.
  split; [|split].
  - destruct (equality_match Fixture.runtime Fixture.numeric "12345" eq_refl)
      as [_ Hnumber].
    destruct (Hnumber 12345%Z eq_refl) as [Hbare _]. apply Hbare. reflexivity.
  - destruct (equality_match Fixture.runtime Fixture.numeric "12345." eq_refl)
      as [_ Hnumber].
    destruct (Hnumber 12345%Z eq_refl) as [_ Hdotted]. apply Hdotted. reflexivity.
  - destruct (equality_match Fixture.runtime Fixture.options "5.6.7.8." eq_refl)
      as [Hstring _].
    apply (Hstring "5.6.7.8"). reflexivity.
Defined.

Lemma regex_match_is_search_witness :
  _evaluateRecord Fixture.runtime (Fixture.searching "172") "10.172.16.0.1"
  = Return true
  /\ exists found,
       _evaluateRecord Fixture.runtime (Fixture.searching "172") "172.16.0.1"
       = Return found
       /\ (found = true
           <-> exists before after,
                 "172.16.0.1" = (before ++ "172" ++ after)%string).
Proof.
  destruct (regex_match_is_search Fixture.runtime (Fixture.searching "172")
              "172.16.0.1" eq_refl) as [_ Hfragment].
  destruct (Hfragment fixture_conforms) as [_ [H172 _]].
  destruct (H172 eq_refl) as [Hsubstring [_ [Hinside _]]].
  split; [exact Hinside|]. apply Hsubstring. reflexivity.
Defined.

(** The two commands for the record sets of Z1, listed in two pages. *)
Lemma cursor_threading_witness :
  exists commands,
    sent (fst (_getRecordSetsForZone Fixture.client 2 0 [] None Discovered.world))
    = commands
    /\ nth_error commands 0
       = Some (ListResourceRecordSetsCommand
                 (ListResourceRecordSets.mkParams "Z1" None None None))
    /\ nth_error commands 1
       = Some (ListResourceRecordSetsCommand
                 (ListResourceRecordSets.mkParams "Z1" (Some "www.example.com.")
                    (Some "A") None)).
Proof.
  destruct (cursor_threading Fixture.client 2 Discovered.world) as [Hrecords _].
  destruct (Hrecords 0) as [commands [Hsent [Hfirst Hnext]]].
  exists commands. split; [exact Hsent|].
  specialize (Hfirst (Nat.lt_0_succ 1)).
  destruct commands as [|first later]; [discriminate Hfirst|].
  injection Hfirst as ->. split; [reflexivity|].
  destruct (Hnext 0 _ eq_refl) as [params [Hparams Hcase]].
  injection Hparams as <-. exact Hcase.
Defined.


Lemma output_order_witness :
  snd (_findRecord Fixture.runtime Fixture.options [0] Fixture.aggregated)
  = Return [mkResultRow "Z1" "example.com." "A" "foo.example.com." "5.6.7.8";
            mkResultRow "Z1" "example.com." "Alias" "www.example.com." "5.6.7.8."]
  /\ snd (_getRecordSetsForZone Fixture.client 2 0 [] None Fixture.aggregated)
     = Return [Fixture.foo; Fixture.www; Fixture.bare].
Proof.
  destruct (output_order Fixture.runtime Fixture.client Fixture.options)
    as [Hrows Hpages].
  split.
  - apply (Hrows [0] Fixture.aggregated).
    + intros Hregex. discriminate Hregex.
    + intros z [<-|[]]. discriminate.
  - apply (Hpages [Fixture.records1; Fixture.records2] 2 0 Fixture.aggregated).
    + repeat split.
    + simpl. lia.
Defined.

Lemma api_failure_aborts_run_witness :
  snd (run Fixture.runtime Fixture.throttled Fixture.options 2 Fixture.world)
  = Throw (ApiError "Throttling")
  /\ printed (fst (run Fixture.runtime Fixture.throttled Fixture.options 2
                     Fixture.world)) = [].
Proof.
  destruct (api_failure_aborts_run Fixture.runtime Fixture.throttled
              Fixture.options 2 Fixture.world
              [ListHostedZonesCommand (ListHostedZones.mkParams None);
               ListHostedZonesCommand (ListHostedZones.mkParams (Some "page-2"));
               ListResourceRecordSetsCommand
                 (ListResourceRecordSets.mkParams "Z1" None None None)]
              []
              (ListResourceRecordSetsCommand
                 (ListResourceRecordSets.mkParams "Z1"
                    (Some "www.example.com.") (Some "A") None))
              "Throttling") as [_ [Hout Hprinted]].
  - vm_compute. reflexivity.
  - vm_compute. reflexivity.
  - split; [exact Hout|exact Hprinted].
Defined.

Lemma shapeless_recordSet_is_skipped_witness :
  snd (_findRecord Fixture.runtime Fixture.options [0] Fixture.aggregated)
  = snd (_findRecord Fixture.runtime Fixture.options [0]
           (put_recordSets Fixture.aggregated 0 ([Fixture.foo; Fixture.www] ++ []))).
Proof.
  apply (shapeless_recordSet_is_skipped Fixture.runtime Fixture.options [0]
           Fixture.aggregated 0 [Fixture.foo; Fixture.www] [] Fixture.bare).
  - split; reflexivity.
  - reflexivity.
Defined.

Lemma id_normalized_at_discovery_witness :
  HostedZone.Id
    (heap (fst (_listHostedZones Fixture.client 2 JSSet.empty None Fixture.world)) 2)
  = last_token "/hostedzone/Z2".
Proof.
  destruct (id_normalized_at_discovery Fixture.runtime Fixture.client
              Fixture.options [Fixture.zones1; Fixture.zones2] 2 Fixture.world)
    as [Hid _].
  - repeat split.
  - simpl. lia.
  - apply (Hid 2). vm_compute. auto.
Defined.

Lemma alias_rows_are_typed_Alias_witness :
  exists rows,
    snd (_findRecord Fixture.runtime Fixture.options [0] Fixture.aggregated)
    = Return rows
    /\ In (mkResultRow "Z1" "example.com." "Alias" "www.example.com." "5.6.7.8.")
          rows.
Proof.
  destruct (alias_rows_are_typed_Alias Fixture.runtime Fixture.options [0]
              Fixture.aggregated) as [rows [Hrun Hrows]].
  - intros Hregex. discriminate Hregex.
  - intros z [<-|[]]. discriminate.
  - exists rows. split; [exact Hrun|]. apply Hrows. split; [reflexivity|].
    exists 0, [Fixture.foo; Fixture.www; Fixture.bare], Fixture.www.
    repeat split.
    + left. reflexivity.
    + right. left. reflexivity.
    + left. exists (AliasTarget.mk "5.6.7.8."). split; reflexivity.
Defined.

Lemma getRecordSetsForZones_populates_witness :
  HostedZone.recordSets
    (heap (fst (_getRecordSetsForZones Fixture.client 2 [0; 1; 2] Discovered.world)) 2)
  <> None.
Proof.
  apply (getRecordSetsForZones_populates Fixture.client 2 [0; 1; 2] Discovered.world).
  - vm_compute. reflexivity.
  - left. right. right. left. reflexivity.
Defined.

(** A file system that rejects the write: [run] throws what it rejected
    with, after the one call of [writeFile]. *)
Lemma run_throws_witness :
  Cli.truthy (Cli.file Fixture.to_file) = true
  /\ exists data,
       writeFile Fixture.read_only (Cli.file Fixture.to_file) data
       = Some (FsError "EROFS").
Proof.
  destruct (run_throws Fixture.read_only Fixture.client Fixture.to_file 2
              Fixture.world (FsError "EROFS"))
    as [[code [before [command [Habs _]]]]|[[Habs _]|Hwrite]].
  - vm_compute. reflexivity.
  - discriminate Habs.
  - discriminate Habs.
  - exact Hwrite.
Defined.

Lemma run_asks_bare_ids_witness :
  has_slash "Z2" = false.
Proof.
  destruct (run_asks_bare_ids Fixture.runtime Fixture.client Fixture.options 2
              Fixture.world) as [commands [Hsent Hbare]].
  vm_compute in Hsent. subst commands.
  apply (Hbare (ListResourceRecordSets.mkParams "Z2" None None None)).
  do 6 right. left. reflexivity.
Defined.

Lemma listHostedZones_extends_the_set_witness :
  exists new, [0; 1; 2] = [0] ++ new.
Proof.
  apply (listHostedZones_extends_the_set Fixture.client 2 [0] None Fixture.world
           [0; 1; 2]).
  vm_compute. reflexivity.
Defined.

(** [new RegExp("(")] throws. *)
Lemma bad_pattern_needs_a_value_witness :
  snd (_findRecord Fixture.runtime (Fixture.searching "(") [0] Fixture.aggregated)
  = Throw SyntaxError
  /\ snd (_findRecord Fixture.runtime (Fixture.searching "(") [0]
            (put_recordSets Fixture.aggregated 0 [Fixture.bare])) = Return [].
Proof.
  split.
  - apply (bad_pattern_needs_a_value Fixture.runtime (Fixture.searching "(") [0]
             Fixture.aggregated).
    + reflexivity.
    + vm_compute. reflexivity.
    + intros z [<-|[]]. discriminate.
  - apply (bad_pattern_needs_a_value Fixture.runtime (Fixture.searching "(") [0]
             (put_recordSets Fixture.aggregated 0 [Fixture.bare])).
    + reflexivity.
    + vm_compute. reflexivity.
    + intros z [<-|[]]. discriminate.
Defined.


Lemma parseArgs_exits_witness :
  Cli._parseArgs (Cli.YargsReturns Arguments.no_record)
  = Cli.Exits (Cli.mkLine Cli.LevelError false "No record supplied" :: Cli._usage)
  /\ Cli._parseArgs Cli.YargsExits = Cli.Exits [].
Proof.
  split.
  - destruct (parseArgs_exits Cli.YargsExits []) as [_ Hrecord].
    apply Hrecord.
    + reflexivity.
    + right. right. right. left. reflexivity.
  - destruct (parseArgs_exits Cli.YargsExits []) as [[_ Hexits] _].
    apply Hexits. left. split; reflexivity.
Defined.

Lemma parseArgs_throws_witness :
  Cli._parseArgs (Cli.YargsReturns Arguments.bare_match) = Cli.Throws TypeError.
Proof.
  apply (parseArgs_throws Arguments.bare_match TypeError).
  repeat split. right. exact I.
Defined.

Lemma parseArgs_options_witness :
  Cli.match' (Cli.mkOptions (Cli.VString "5.6.7.8") Cli.csv false true regex
                (Cli.VString "out.csv")) = regex
  <-> exists s, Cli.argv_match Arguments.full = Cli.VString s
                /\ Cli.toLowerCase s = "regex".
Proof.
  destruct (parseArgs_options Arguments.full
              (Cli.mkOptions (Cli.VString "5.6.7.8") Cli.csv false true regex
                 (Cli.VString "out.csv"))) as [_ [_ [Hmode _]]].
  - reflexivity.
  - exact Hmode.
Defined.

Lemma printResult_after_parseArgs_witness :
  Cli._printResult (fun _ => "[]") (fun _ _ => "") (fun _ _ => None)
    (Cli.mkOptions (Cli.VString "5.6.7.8") Cli.csv false true regex
       (Cli.VString "out.csv")) []
  = ([Cli.WriteFile (Cli.VString "out.csv") "";
      Cli.Log (Cli.mkLine Cli.LevelInfo false "Total count: 0")],
     Return tt).
Proof.
  apply (printResult_after_parseArgs (fun _ => "[]") (fun _ _ => "")
           (fun _ _ => None) Arguments.full
           (Cli.mkOptions (Cli.VString "5.6.7.8") Cli.csv false true regex
              (Cli.VString "out.csv")) []).
  reflexivity.
Defined.

Lemma evaluateRecord_of_parsed_options_witness :
  _evaluateRecord Fixture.runtime Fixture.numeric "12345" = Return false.
Proof.
  destruct (evaluateRecord_of_parsed_options Fixture.runtime Fixture.numeric
              "12345") as [_ Hnumber].
  destruct (Hnumber 12345%Z eq_refl eq_refl) as [_ Hbare]. exact Hbare.
Defined.


Lemma enumerators_follow_pages_without_end_witness :
  snd (_listHostedZones Endless.client 7 JSSet.empty None Fixture.world) = OutOfFuel
  /\ snd (_getRecordSetsForZone Endless.client 7 0 [] None Fixture.world) = OutOfFuel.
Proof.
  destruct (enumerators_follow_pages_without_end Endless.client 7 Fixture.world)
    as [Hzones Hrecords].
  split.
  - apply Hzones. intros history params. eexists. split; reflexivity.
  - apply Hrecords. intros history params. eexists. split; reflexivity.
Defined.
